(** * job-hunter: rate governor and batch workflow orchestrator

    A shallow embedding of [src/utils/rate_limiter.py] and
    [src/workflow_orchestrator.py], with the properties of the batch
    pipeline and of the rate limiter stated against it.

    Conventions of the embedding.
    - Python floats (timestamps, token counts, rates, delays) are exact
      rationals [Q]; rounding and NaN are outside the model. The one float
      operation of the two files that raises instead of answering infinity,
      the power of [_get_backoff_time], raises [OverflowError] in the model
      too ([float_pow]).
    - [time.time()] is an argument of every operation that reads the clock.
    - [await asyncio.sleep(d)] is recorded as the duration slept: every
      mutation of the limiter happens before the first suspension point of
      [acquire], so an [acquire] is atomic with respect to the limiter state.
    - Python exceptions of class [Exception] are values of [exn]; a call
      either returns or raises ([outcome]). *)

From Stdlib Require Import QArith Qminmax Qabs ZArith List Sorted Lia Lqa String Bool.
From stdpp Require Import gmap strings list.
Import ListNotations.

Local Open Scope Z_scope.

(** ** Python-level helpers shared by both modules *)

Record exn := Exn { exn_class : string; exn_msg : string }.

Inductive outcome (A : Type) : Type :=
| Return (a : A)
| Raise (e : exn).
Arguments Return {A} a.
Arguments Raise {A} e.

Definition Exception (msg : string) : exn := Exn "Exception" msg.
Definition ZeroDivisionError : exn := Exn "ZeroDivisionError" "float division by zero".
Definition ValueError (msg : string) : exn := Exn "ValueError" msg.
Definition OverflowError : exn :=
  Exn "OverflowError" "(34, 'Numerical result out of range')".
Definition TypeError (msg : string) : exn := Exn "TypeError" msg.
Definition UnboundLocalError (var : string) : exn :=
  Exn "UnboundLocalError"
      ("cannot access local variable '" ++ var ++ "' where it is not associated with a value").

(** [str(e)] *)
Definition str_exn (e : exn) : string := exn_msg e.

(** [a < b] on floats, as a boolean *)
Definition Qltb (a b : Q) : bool := negb (Qle_bool b a).

(** Python's two-argument [min(a, b)]: [b] when [b < a], otherwise [a]. *)
Definition py_min (a b : Q) : Q := if Qltb b a then b else a.

(** Python's two-argument [max(a, b)]: [b] when [b > a], otherwise [a]. *)
Definition py_max (a b : Q) : Q := if Qltb a b then b else a.

(** [int(x)] on a float: truncation toward zero *)
Definition py_int (x : Q) : Z := Z.quot (Qnum x) (Zpos (Qden x)).

(** The least magnitude that a binary64 float rounds to infinity,
    [2^1024 - 2^970]: the largest float is [2^1024 - 2^971]. *)
Definition float_overflow : Q := inject_Z (2 ^ 1024 - 2 ^ 970).

(** [x ** n] on a float [x] and an int [n >= 0]: the power, or
    [OverflowError] when it is out of the range of a float. (The other float
    operations answer infinity when they overflow; only the power raises.) *)
Definition float_pow (x : Q) (n : nat) : outcome Q :=
  let power := Qpower x (Z.of_nat n) in
  if Qle_bool float_overflow (Qabs power) then Raise OverflowError
  else Return power.

(** ** The rate governor: [src/utils/rate_limiter.py] *)

Module RateLimit.

(** [RateLimitConfig] *)
Record RateLimitConfig := {
  requests_per_minute : Z;
  requests_per_hour : Z;
  burst_limit : Z;
  cooldown_seconds : Q;
  backoff_multiplier : Q;
  max_backoff_seconds : Q
}.

(** [RateLimitConfig()] with the dataclass defaults *)
Definition default_config : RateLimitConfig :=
  {| requests_per_minute := 30; requests_per_hour := 1000; burst_limit := 5;
     cooldown_seconds := 1; backoff_multiplier := 2; max_backoff_seconds := 300 |}.

(** The attributes of a [RateLimiter]; [request_times] is the deque, oldest
    entry first. *)
Record RateLimiter := {
  config : RateLimitConfig;
  tokens : Q;
  last_refill : Q;
  request_times : list Q;
  consecutive_failures : nat;
  last_failure_time : Q;
  refill_rate : Q
}.

(** [RateLimiter.__init__], with [now] the value of [time.time()] *)
Definition init (cfg : RateLimitConfig) (now : Q) : RateLimiter :=
  {| config := cfg;
     tokens := inject_Z (burst_limit cfg);
     last_refill := now;
     request_times := [];
     consecutive_failures := 0;
     last_failure_time := 0;
     refill_rate := inject_Z (requests_per_minute cfg) / 60 |}.

Definition set_tokens (self : RateLimiter) (tk : Q) (refill : Q) : RateLimiter :=
  {| config := config self; tokens := tk; last_refill := refill;
     request_times := request_times self;
     consecutive_failures := consecutive_failures self;
     last_failure_time := last_failure_time self;
     refill_rate := refill_rate self |}.

Definition set_request_times (self : RateLimiter) (rt : list Q) : RateLimiter :=
  {| config := config self; tokens := tokens self; last_refill := last_refill self;
     request_times := rt;
     consecutive_failures := consecutive_failures self;
     last_failure_time := last_failure_time self;
     refill_rate := refill_rate self |}.

Definition set_failures (self : RateLimiter) (n : nat) (t : Q) : RateLimiter :=
  {| config := config self; tokens := tokens self; last_refill := last_refill self;
     request_times := request_times self;
     consecutive_failures := n;
     last_failure_time := t;
     refill_rate := refill_rate self |}.

(** [_refill_tokens] *)
Definition _refill_tokens (self : RateLimiter) (current_time : Q) : RateLimiter :=
  let time_elapsed := (current_time - last_refill self)%Q in
  let tokens_to_add := (time_elapsed * refill_rate self)%Q in
  set_tokens self
    (py_min (inject_Z (burst_limit (config self))) (tokens self + tokens_to_add)%Q)
    current_time.

(** The [while] loop of [_check_hourly_limit]: pop from the left while the
    oldest entry is older than the cutoff. *)
Fixpoint popleft_older (cutoff_time : Q) (times : list Q) : list Q :=
  match times with
  | [] => []
  | t :: rest => if Qltb t cutoff_time then popleft_older cutoff_time rest else times
  end.

(** [_check_hourly_limit]: the answer and the limiter with its pruned deque *)
Definition _check_hourly_limit (self : RateLimiter) (current_time : Q)
  : bool * RateLimiter :=
  let cutoff_time := (current_time - 3600)%Q in
  let self' := set_request_times self (popleft_older cutoff_time (request_times self)) in
  (Z.of_nat (length (request_times self')) <? requests_per_hour (config self), self').

(** [_get_backoff_time]: the power is computed first and may raise; the
    product and [min] come after it. *)
Definition _get_backoff_time (self : RateLimiter) : outcome Q :=
  match float_pow (backoff_multiplier (config self)) (consecutive_failures self) with
  | Raise e => Raise e
  | Return power =>
      Return (py_min (cooldown_seconds (config self) * power)%Q
                     (max_backoff_seconds (config self)))
  end.

(** [_is_in_backoff] *)
Definition _is_in_backoff (self : RateLimiter) (current_time : Q) : outcome bool :=
  if Nat.eqb (consecutive_failures self) 0 then Return false
  else
    match _get_backoff_time self with
    | Raise e => Raise e
    | Return backoff_time =>
        Return (Qltb (current_time - last_failure_time self)%Q backoff_time)
    end.

(** What one call of [acquire] did: its result (or the exception it raised),
    the [asyncio.sleep] it awaited, if any, and the limiter afterwards. *)
Record Acquired := {
  result : outcome bool;
  slept : option Q;
  limiter : RateLimiter
}.

(** [acquire], with [current_time] the value of [time.time()] *)
Definition acquire (current_time : Q) (self : RateLimiter) : Acquired :=
  match _is_in_backoff self current_time with
  | Raise e => {| result := Raise e; slept := None; limiter := self |}
  | Return true =>
      match _get_backoff_time self with
      | Raise e => {| result := Raise e; slept := None; limiter := self |}
      | Return backoff_time =>
          {| result := Return false; slept := Some backoff_time; limiter := self |}
      end
  | Return false =>
      let self := _refill_tokens self current_time in
      let '(within, self) := _check_hourly_limit self current_time in
      if negb within then
        {| result := Return false; slept := None; limiter := self |}
      else if Qle_bool 1 (tokens self) then
        let self := set_tokens self (tokens self - 1)%Q (last_refill self) in
        let self := set_request_times self (request_times self ++ [current_time]) in
        {| result := Return true;
           slept := if Qltb 0 (cooldown_seconds (config self))
                    then Some (cooldown_seconds (config self)) else None;
           limiter := self |}
      else if Qeq_bool (refill_rate self) 0 then
        {| result := Raise ZeroDivisionError; slept := None; limiter := self |}
      else
        let wait_time := (1 / refill_rate self)%Q in
        {| result := Return false; slept := Some wait_time; limiter := self |}
  end.

(** [record_success] *)
Definition record_success (self : RateLimiter) : RateLimiter :=
  set_failures self 0 (last_failure_time self).

(** [record_failure], with [now] the value of [time.time()] *)
Definition record_failure (now : Q) (self : RateLimiter) : RateLimiter :=
  set_failures self (consecutive_failures self + 1) now.

(** The dictionary returned by [get_status] *)
Record Status := {
  available_tokens : Z;
  max_tokens : Z;
  requests_last_hour : nat;
  hourly_limit : Z;
  status_consecutive_failures : nat;
  in_backoff : bool;
  backoff_time_remaining : Q
}.

(** [get_status], with [current_time] the value of [time.time()]. It refills
    the bucket first; the entries of the dictionary are then evaluated in
    order, and what [_is_in_backoff] or [_get_backoff_time] raises leaves
    [get_status] with the bucket refilled. *)
Definition get_status (current_time : Q) (self : RateLimiter)
  : outcome Status * RateLimiter :=
  let self := _refill_tokens self current_time in
  (match _is_in_backoff self current_time with
   | Raise e => Raise e
   | Return backing_off =>
       match (if Nat.ltb 0 (consecutive_failures self)
              then match _get_backoff_time self with
                   | Raise e => Raise e
                   | Return backoff_time =>
                       Return (py_max 0 (backoff_time
                                         - (current_time - last_failure_time self))%Q)
                   end
              else Return 0%Q) with
       | Raise e => Raise e
       | Return remaining =>
           Return {| available_tokens := py_int (tokens self);
                     max_tokens := burst_limit (config self);
                     requests_last_hour := length (request_times self);
                     hourly_limit := requests_per_hour (config self);
                     status_consecutive_failures := consecutive_failures self;
                     in_backoff := backing_off;
                     backoff_time_remaining := remaining |}
       end
   end,
   self).

(** *** Sequences of operations on one limiter *)

Inductive Op :=
| OpAcquire (now : Q)
| OpRecordSuccess
| OpRecordFailure (now : Q)
| OpGetStatus (now : Q).

Definition step (self : RateLimiter) (o : Op) : RateLimiter :=
  match o with
  | OpAcquire now => limiter (acquire now self)
  | OpRecordSuccess => record_success self
  | OpRecordFailure now => record_failure now self
  | OpGetStatus now => snd (get_status now self)
  end.

Definition run (ops : list Op) (self : RateLimiter) : RateLimiter :=
  fold_left step ops self.

(** The timestamps of the calls that [acquire] admitted, in call order *)
Fixpoint admitted_times (ops : list Op) (self : RateLimiter) : list Q :=
  match ops with
  | [] => []
  | o :: rest =>
      let here :=
        match o with
        | OpAcquire now =>
            match result (acquire now self) with
            | Return true => [now]
            | _ => []
            end
        | _ => []
        end in
      here ++ admitted_times rest (step self o)
  end.

(** The clock never runs backwards: every reading is at least [t], the
    previous one. *)
Fixpoint clock_monotone (t : Q) (ops : list Op) : Prop :=
  match ops with
  | [] => True
  | OpRecordSuccess :: rest => clock_monotone t rest
  | OpAcquire now :: rest
  | OpRecordFailure now :: rest
  | OpGetStatus now :: rest => (t <= now)%Q /\ clock_monotone now rest
  end.

(** The admitted timestamps inside the closed window [[a, a + 3600]] *)
Definition in_window (a : Q) (t : Q) : bool :=
  Qle_bool a t && Qle_bool t (a + 3600)%Q.

Definition window_count (a : Q) (times : list Q) : nat :=
  length (filter (fun t => in_window a t = true) times).

(** *** The per-service registry: [GlobalRateLimiter] *)

Record GlobalRateLimiter := {
  limiters : gmap string RateLimiter;
  default_configs : gmap string RateLimitConfig
}.

Definition with_limits (rpm rph : Z) (cooldown : Q) : RateLimitConfig :=
  {| requests_per_minute := rpm; requests_per_hour := rph;
     burst_limit := burst_limit default_config;
     cooldown_seconds := cooldown;
     backoff_multiplier := backoff_multiplier default_config;
     max_backoff_seconds := max_backoff_seconds default_config |}.

(** [GlobalRateLimiter.__init__] *)
Definition global_init : GlobalRateLimiter :=
  {| limiters := ∅;
     default_configs :=
       <["linkedin" := with_limits 10 200 2]>
       (<["openrouter" := with_limits 60 3000 (1 # 2)]>
       (<["hunter_io" := with_limits 30 1000 1]>
       (<["apollo_io" := with_limits 20 500 (3 # 2)]>
       (<["ollama" := with_limits 120 5000 (1 # 10)]>
       (<["default" := default_config]> ∅))))) |}.

(** [get_limiter]: the limiter of a service, created on first use with
    [now] the value of [time.time()] read by [RateLimiter.__init__]. The key
    ["default"] is put in by [__init__] and no operation removes a key, so
    [default_configs["default"]] is read with the dataclass defaults as the
    value of an absent key. *)
Definition get_limiter (now : Q) (service : string) (self : GlobalRateLimiter)
  : RateLimiter * GlobalRateLimiter :=
  match limiters self !! service with
  | Some l => (l, self)
  | None =>
      let fallback := default default_config (default_configs self !! "default") in
      let cfg := default fallback (default_configs self !! service) in
      let l := init cfg now in
      (l, {| limiters := <[service := l]> (limiters self);
             default_configs := default_configs self |})
  end.

(** The clock readings of one rate-limited call: by [RateLimiter.__init__]
    when the limiter is created, by [acquire], and by [record_failure]. *)
Record Clock := {
  t_create : Q;
  t_acquire : Q;
  t_failure : Q
}.

(** [GlobalRateLimiter.acquire] *)
Definition global_acquire (clk : Clock) (service : string) (self : GlobalRateLimiter)
  : Acquired * GlobalRateLimiter :=
  let '(l, self) := get_limiter (t_create clk) service self in
  let a := acquire (t_acquire clk) l in
  (a, {| limiters := <[service := limiter a]> (limiters self);
         default_configs := default_configs self |}).

(** [GlobalRateLimiter.record_success] *)
Definition global_record_success (service : string) (self : GlobalRateLimiter)
  : GlobalRateLimiter :=
  match limiters self !! service with
  | Some l => {| limiters := <[service := record_success l]> (limiters self);
                 default_configs := default_configs self |}
  | None => self
  end.

(** [GlobalRateLimiter.record_failure] *)
Definition global_record_failure (now : Q) (service : string) (self : GlobalRateLimiter)
  : GlobalRateLimiter :=
  match limiters self !! service with
  | Some l => {| limiters := <[service := record_failure now l]> (limiters self);
                 default_configs := default_configs self |}
  | None => self
  end.

(** [GlobalRateLimiter.configure_service] *)
Definition configure_service (now : Q) (service : string) (cfg : RateLimitConfig)
    (self : GlobalRateLimiter) : GlobalRateLimiter :=
  {| limiters := match limiters self !! service with
                 | Some _ => <[service := init cfg now]> (limiters self)
                 | None => limiters self
                 end;
     default_configs := <[service := cfg]> (default_configs self) |}.

(** *** Rate-limited calls *)

(** The values a call returns, as far as the wrappers can tell them apart:
    [None], values that cannot be awaited, and awaitables (coroutine
    objects), which run in a world [W] (whatever state the call can read and
    change) when they are awaited, and return or raise. *)
#[warnings="-register-all"] Inductive PyValue (W : Type) : Type :=
| PyNone
| PyInt (z : Z)
| PyStr (s : string)
| PyAwaitable (run : W -> outcome (PyValue W) * W).
Arguments PyNone {W}.
Arguments PyInt {W} z.
Arguments PyStr {W} s.
Arguments PyAwaitable {W} run.

(** A callable applied to its arguments: a coroutine function ([async def])
    or a plain function ([def]), with what its body does. *)
Inductive Callable (W : Type) : Type :=
| AsyncDef (body : W -> outcome (PyValue W) * W)
| Def (body : W -> outcome (PyValue W) * W).
Arguments AsyncDef {W} body.
Arguments Def {W} body.

(** [asyncio.iscoroutinefunction(func)] *)
Definition iscoroutinefunction {W} (func : Callable W) : bool :=
  match func with
  | AsyncDef _ => true
  | Def _ => false
  end.

(** The call of [func] with its arguments: a coroutine function hands back a
    coroutine object without running anything; a plain function runs its
    body. *)
Definition py_call {W} (func : Callable W) (w : W) : outcome (PyValue W) * W :=
  match func with
  | AsyncDef body => (Return (PyAwaitable body), w)
  | Def body => body w
  end.

(** [type(v).__name__] *)
Definition type_name {W} (v : PyValue W) : string :=
  match v with
  | PyNone => "NoneType"
  | PyInt _ => "int"
  | PyStr _ => "str"
  | PyAwaitable _ => "coroutine"
  end.

(** What [await v] raises when [v] is not awaitable *)
Definition not_awaitable {W} (v : PyValue W) : exn :=
  TypeError ("object " ++ type_name v ++ " can't be used in 'await' expression").

(** [await v] *)
Definition await {W} (v : PyValue W) (w : W) : outcome (PyValue W) * W :=
  match v with
  | PyAwaitable run => run w
  | _ => (Raise (not_awaitable v), w)
  end.

(** [await] applied to the call of [func] with its arguments *)
Definition await_call {W} (func : Callable W) (w : W) : outcome (PyValue W) * W :=
  match py_call func w with
  | (Return v, w') => await v w'
  | (Raise e, w') => (Raise e, w')
  end.

(** What a rate-limited call did: what the caller sees, the world and the
    registry afterwards. *)
Record Limited (W : Type) := {
  seen : outcome (PyValue W);
  world : W;
  registry : GlobalRateLimiter
}.
Arguments seen {W} _.
Arguments world {W} _.
Arguments registry {W} _.

(** [with_rate_limit(service, func, *args, **kwargs)]: a coroutine function
    is called and awaited, a plain function is called and its value handed
    back as it is. *)
Definition with_rate_limit {W : Type} (clk : Clock) (service : string)
    (func : Callable W) (g : GlobalRateLimiter) (w : W) : Limited W :=
  let '(a, g) := global_acquire clk service g in
  match result a with
  | Raise e => {| seen := Raise e; world := w; registry := g |}
  | Return false => {| seen := Return PyNone; world := w; registry := g |}
  | Return true =>
      match (if iscoroutinefunction func then await_call func w
             else py_call func w) with
      | (Return r, w') =>
          {| seen := Return r; world := w'; registry := global_record_success service g |}
      | (Raise e, w') =>
          {| seen := Raise e; world := w';
             registry := global_record_failure (t_failure clk) service g |}
      end
  end.

(** [rate_limited(service)(func)]: the [wrapper] the decorator returns,
    applied to its arguments. It awaits the call of [func] whatever [func]
    is; the [await] is inside the [try] block. *)
Definition rate_limited {W : Type} (service : string) (func : Callable W)
    (clk : Clock) (g : GlobalRateLimiter) (w : W) : Limited W :=
  let '(a, g) := global_acquire clk service g in
  match result a with
  | Raise e => {| seen := Raise e; world := w; registry := g |}
  | Return false => {| seen := Return PyNone; world := w; registry := g |}
  | Return true =>
      match await_call func w with
      | (Return r, w') =>
          {| seen := Return r; world := w'; registry := global_record_success service g |}
      | (Raise e, w') =>
          {| seen := Raise e; world := w';
             registry := global_record_failure (t_failure clk) service g |}
      end
  end.

(** *** Vocabulary of the properties and sample limiters *)

(** A cooldown of 1 s, a multiplier of 2 and a ceiling of 100 s *)
Definition cfg_backoff : RateLimitConfig :=
  {| requests_per_minute := 60; requests_per_hour := 1000; burst_limit := 5;
     cooldown_seconds := 1; backoff_multiplier := 2; max_backoff_seconds := 100 |}.

(** A limiter that has just failed three times *)
Definition failed_thrice : RateLimiter :=
  record_failure 12 (record_failure 11 (record_failure 10 (init cfg_backoff 0))).

(** What a run preserves: the configuration, a refill rate that is not
    negative, a token count inside the bucket, and a last refill that is not
    in the future of the clock. *)
Record bucket_ok (cfg : RateLimitConfig) (t : Q) (self : RateLimiter) : Prop := {
  ok_config : config self = cfg;
  ok_rate : (0 <= refill_rate self)%Q;
  ok_low : (0 <= tokens self)%Q;
  ok_high : (tokens self <= inject_Z (burst_limit cfg))%Q;
  ok_refill : (last_refill self <= t)%Q
}.

(** A short history of one limiter, with a clock that goes forward *)
Definition ops_sample : list Op :=
  [OpAcquire 1; OpAcquire 1; OpRecordFailure 2; OpGetStatus 3; OpRecordSuccess;
   OpAcquire (7 # 2)].

(** A bucket of one token, refilled at one token per second *)
Definition cfg_single : RateLimitConfig :=
  {| requests_per_minute := 60; requests_per_hour := 1000; burst_limit := 1;
     cooldown_seconds := 0; backoff_multiplier := 2; max_backoff_seconds := 300 |}.

(** The limiter of [cfg_single] after its only token was taken at time 0 *)
Definition drained : RateLimiter := limiter (acquire 0 (init cfg_single 0)).

(** An hourly allowance of two calls *)
Definition cfg_two_per_hour : RateLimitConfig :=
  {| requests_per_minute := 60; requests_per_hour := 2; burst_limit := 5;
     cooldown_seconds := 0; backoff_multiplier := 2; max_backoff_seconds := 300 |}.

(** A limiter whose hourly allowance of two calls is used up at time 1 *)
Definition hour_used_up : RateLimiter :=
  run [OpAcquire 0; OpAcquire 1] (init cfg_two_per_hour 0).

(** With [requests_per_minute = 0] the time to the next token is a division
    by zero. *)
Definition cfg_no_refill : RateLimitConfig :=
  {| requests_per_minute := 0; requests_per_hour := 1000; burst_limit := 1;
     cooldown_seconds := 0; backoff_multiplier := 2; max_backoff_seconds := 300 |}.

(** What a run preserves about the window. [adm] is the list of the
    timestamps admitted so far and [t] the last clock reading: the deque is
    the end of [adm], what was popped is more than an hour old, the deque is
    in time order, and no window of an hour holds more than
    [requests_per_hour] admissions. *)
Record window_ok (cfg : RateLimitConfig) (t : Q) (adm : list Q) (self : RateLimiter)
  : Prop := {
  w_config : config self = cfg;
  w_suffix : exists old, adm = old ++ request_times self
                         /\ Forall (fun x => (x < t - 3600)%Q) old;
  w_past : Forall (fun x => (x <= t)%Q) (request_times self);
  w_sorted : StronglySorted Qle (request_times self);
  w_cap : forall a, Z.of_nat (window_count a adm) <= requests_per_hour cfg
}.

(** The timestamp an [acquire] admits, if it admits *)
Definition admitted_now (now : Q) (self : RateLimiter) : list Q :=
  match result (acquire now self) with
  | Return true => [now]
  | _ => []
  end.

(** A coroutine function that counts in its world how often its body ran *)
Definition counting : Callable nat := AsyncDef (fun n => (Return (PyInt 1), S n)).

(** A plain function that counts its calls in its world and returns [None] *)
Definition plain_counting : Callable nat := Def (fun n => (Return PyNone, S n)).

(** The body of a callable *)
Definition body_of {W} (func : Callable W) : W -> outcome (PyValue W) * W :=
  match func with
  | AsyncDef body | Def body => body
  end.

(** The values [await] accepts *)
Definition awaitable {W} (v : PyValue W) : bool :=
  match v with
  | PyAwaitable _ => true
  | _ => false
  end.

(** A clock that reads 0 at every call *)
Definition noon : Clock := {| t_create := 0; t_acquire := 0; t_failure := 0 |}.

(** A registry whose ["probe"] service has an empty bucket of one token *)
Definition registry_drained : GlobalRateLimiter :=
  snd (global_acquire noon "probe"
         (configure_service 0 "probe" cfg_single global_init)).

(** *** More of the registry, and more vocabulary *)

(** The loop of the dict comprehension of [get_all_status] over the
    services still to visit: a [get_status] that raises ends it, with the
    buckets visited so far refilled. *)
Fixpoint all_status_from (clock : string -> Q) (order : list string)
    (ls : gmap string RateLimiter) (report : gmap string Status)
  : outcome (gmap string Status) * gmap string RateLimiter :=
  match order with
  | [] => (Return report, ls)
  | service :: rest =>
      match ls !! service with
      | None => all_status_from clock rest ls report
      | Some l =>
          let '(st, l) := get_status (clock service) l in
          let ls := <[service := l]> ls in
          match st with
          | Raise e => (Raise e, ls)
          | Return st => all_status_from clock rest ls (<[service := st]> report)
          end
      end
  end.

(** [get_all_status], with [clock service] the value of [time.time()] read
    when the limiter of [service] is visited, and [order] the order in which
    [self.limiters.items()] yields the services (the order in which their
    limiters were created, which the finite map does not record). *)
Definition get_all_status (clock : string -> Q) (order : list string)
    (self : GlobalRateLimiter)
  : outcome (gmap string Status) * GlobalRateLimiter :=
  let '(report, ls) := all_status_from clock order (limiters self) ∅ in
  (report, {| limiters := ls; default_configs := default_configs self |}).

(** [order] lists the services that have a limiter, each once. *)
Definition visits (order : list string) (self : GlobalRateLimiter) : Prop :=
  NoDup order /\ forall service, service ∈ order <-> is_Some (limiters self !! service).

(** [min(cooldown_seconds * backoff_multiplier ^ consecutive_failures,
    max_backoff_seconds)], on the rationals *)
Definition capped_backoff (self : RateLimiter) : Q :=
  py_min
    (cooldown_seconds (config self)
       * backoff_multiplier (config self) ^ Z.of_nat (consecutive_failures self))%Q
    (max_backoff_seconds (config self)).

(** The power of [_get_backoff_time] is out of the range of a float. *)
Definition backoff_overflows (self : RateLimiter) : bool :=
  Qle_bool float_overflow
    (Qabs (Qpower (backoff_multiplier (config self))
                  (Z.of_nat (consecutive_failures self)))).

(** A limiter with the default configuration after [n] failures in a row,
    the last one at time [t] *)
Definition failed_times (n : nat) (t : Q) : RateLimiter :=
  run (replicate n (OpRecordFailure t)) (init default_config 0).

(** A limiter created at time 100 whose clock is then set back to time 80 *)
Definition clock_set_back : RateLimiter :=
  run [OpGetStatus 80] (init default_config 100).

(** A configuration with a negative bucket capacity *)
Definition cfg_negative_burst : RateLimitConfig :=
  {| requests_per_minute := 30; requests_per_hour := 1000; burst_limit := -1;
     cooldown_seconds := 1; backoff_multiplier := 2; max_backoff_seconds := 300 |}.

(** The state of a fresh limiter after [j] admitted calls at its creation
    time *)
Record burst_state (cfg : RateLimitConfig) (t0 : Q) (j : nat) (self : RateLimiter)
  : Prop := {
  b_config : config self = cfg;
  b_tokens : (tokens self == inject_Z (burst_limit cfg - Z.of_nat j))%Q;
  b_refill : last_refill self = t0;
  b_times : Forall (fun x => x = t0) (request_times self);
  b_length : length (request_times self) = j;
  b_failures : consecutive_failures self = 0%nat
}.

End RateLimit.

(** ** The batch orchestrator: [src/workflow_orchestrator.py] *)

Module Workflow.

(** [ProcessingStatus] *)
Inductive ProcessingStatus :=
| PENDING
| IN_PROGRESS
| COMPLETED
| FAILED
| SKIPPED.

#[global] Instance ProcessingStatus_eq_dec : EqDecision ProcessingStatus.
Proof. solve_decision. Defined.

(** [ProcessingStatus.value] *)
Definition status_value (s : ProcessingStatus) : string :=
  match s with
  | PENDING => "pending"
  | IN_PROGRESS => "in_progress"
  | COMPLETED => "completed"
  | FAILED => "failed"
  | SKIPPED => "skipped"
  end.

(** [WorkflowStep]. The timestamps and the [result_data] summary are written
    and never read by the orchestrator; they are left out. *)
Record WorkflowStep := {
  name : string;
  status : ProcessingStatus;
  error_message : option string
}.

(** *** What the collaborators exchange with the orchestrator *)

(** The row of the [jobs] table that [_get_job_data] turns into a dict *)
Record JobData := {
  row_id : Z;
  title : string;
  company : string;
  description : string
}.

Record FilterCriteria := { criteria_name : string }.

(** [FilterResult], with [decision] the [decision.value] string *)
Record FilterResult := { decision : string }.

Record CustomizationRequest := { cr_job_id : Z; cr_job : JobData }.

Record CustomizationResult := { customized_resume : string }.

Record Contact := { contact_email : string }.

Record ContactSearchResult := {
  contacts : list Contact;
  total_found : Z
}.

Record EmailGenerationRequest := {
  eg_job_id : Z;
  eg_job_title : string;
  eg_company_name : string;
  eg_job_description : string;
  eg_contact : Contact;
  eg_customization_result : option CustomizationResult;
  eg_template_name : string
}.

Record GeneratedEmail := { email_to : Contact; email_body : string }.

Record DocumentGenerationRequest := {
  dg_job_id : Z;
  dg_job_title : string;
  dg_company_name : string;
  dg_resume_data : string;
  dg_output_formats : list string
}.

Record DocumentPackage := { documents : list string }.

(** [JobProcessingResult]; [total_processing_time] and [created_at] are clock
    readings that nothing reads back, and are left out. *)
Record JobProcessingResult := {
  job_id : Z;
  job_title : string;
  company_name : string;
  overall_status : ProcessingStatus;
  steps : gmap string WorkflowStep;
  filter_result : option string;
  customization_result : option CustomizationResult;
  contact_result : option ContactSearchResult;
  email_results : list GeneratedEmail;
  document_package : option DocumentPackage
}.

(** [BatchProcessingRequest] *)
Record BatchProcessingRequest := {
  job_ids : list Z;
  enable_filtering : bool;
  enable_resume_customization : bool;
  enable_contact_finding : bool;
  enable_email_generation : bool;
  enable_document_generation : bool;
  filter_criteria : option FilterCriteria;
  email_template : string;
  document_formats : list string;
  max_concurrent_jobs : Z
}.

(** [BatchProcessingResult]; the class has no counter for skipped jobs. *)
Record BatchProcessingResult := {
  request_id : string;
  total_jobs : Z;
  successful_jobs : Z;
  failed_jobs : Z;
  job_results : gmap Z JobProcessingResult;
  batch_overall_status : ProcessingStatus
}.

(** *** The environment of the orchestrator *)

(** What a [SELECT ... LIMIT 1] through [db_manager.get_connection()] comes
    to: the connection cannot be opened, the query raises, no row, a row. *)
Inductive DbQuery (A : Type) : Type :=
| ConnectFails
| QueryFails
| NoRow
| Row (a : A).
Arguments ConnectFails {A}.
Arguments QueryFails {A}.
Arguments NoRow {A}.
Arguments Row {A} a.

(** The two places [process_jobs_batch] saves the batch result from *)
Inductive SaveSite :=
| SaveNormal
| SaveAfterCriticalError.

(** The external collaborators, as the answers they give. *)
Record Env := {
  db_jobs : Z -> DbQuery JobData;
  db_filter_results : Z -> DbQuery string;
  load_default_filter_criteria : outcome FilterCriteria;
  filter_jobs_batch : list Z -> FilterCriteria -> outcome (list FilterResult);
  get_customization_for_job : Z -> outcome (option CustomizationResult);
  customize_resume_for_job : CustomizationRequest -> outcome (option CustomizationResult);
  find_contacts_for_company : string -> option string -> outcome ContactSearchResult;
  generate_email : EmailGenerationRequest -> outcome (option GeneratedEmail);
  generate_documents_for_job : DocumentGenerationRequest -> outcome (option DocumentPackage);
  db_save_connects : SaveSite -> bool
}.

(** What the orchestrator did to the outside, in order: a collaborator call
    or a progress notification. *)
Inductive Event :=
| DbLoadJob (jid : Z)
| DbLoadFilterResult (jid : Z)
| CallLoadDefaultCriteria
| CallFilterJobsBatch (jids : list Z)
| CallGetCustomization (jid : Z)
| CallCustomizeResume (jid : Z)
| CallFindContacts (company : string)
| CallGenerateEmail (req : EmailGenerationRequest)
| CallGenerateDocuments (req : DocumentGenerationRequest)
| DbSaveBatch (request : string)
| Progress (event_type : string).

(** The stages after Filter: résumé customizer, contact finder, e-mail
    generator, document generator. *)
Definition later_stage_call (e : Event) : bool :=
  match e with
  | CallGetCustomization _ | CallCustomizeResume _ | CallFindContacts _
  | CallGenerateEmail _ | CallGenerateDocuments _ => true
  | _ => false
  end.

(** *** Computations that return or raise, over a mutable state *)

Definition M (S A : Type) : Type := S -> outcome A * S.

#[global] Instance M_ret {S} : MRet (M S) := fun A a s => (Return a, s).

#[global] Instance M_bind {S} : MBind (M S) := fun A B f m s =>
  match m s with
  | (Return a, s') => f a s'
  | (Raise e, s') => (Raise e, s')
  end.

Definition raise {S A} (e : exn) : M S A := fun s => (Raise e, s).

(** [try: body except Exception as e: handler(e)]; the handler runs in the
    state the body left behind. *)
Definition try_except {S A} (body : M S A) (handler : exn -> M S A) : M S A :=
  fun s =>
    match body s with
    | (Return a, s') => (Return a, s')
    | (Raise e, s') => handler e s'
    end.

Definition get {S} : M S S := fun s => (Return s, s).
Definition modify {S} (f : S -> S) : M S unit := fun s => (Return tt, f s).

(** The state of one job's pipeline: its [job_result] object and the trace *)
Record PState := {
  jr : JobProcessingResult;
  trace : list Event
}.

(** A call to a collaborator: logged, then it returns or raises. *)
Definition call {A} (e : Event) (answer : outcome A) : M PState A :=
  fun s => (answer, {| jr := jr s; trace := trace s ++ [e] |}).

Definition update (f : JobProcessingResult -> JobProcessingResult) : M PState unit :=
  modify (fun s => {| jr := f (jr s); trace := trace s |}).

Definition job_result : M PState JobProcessingResult :=
  s ← get; mret (jr s).

Definition notify (event_type : string) : M PState unit :=
  modify (fun s => {| jr := jr s; trace := trace s ++ [Progress event_type] |}).

(** *** Assignments to the attributes of a [JobProcessingResult] *)

Definition set_overall_status (v : ProcessingStatus) (r : JobProcessingResult)
  : JobProcessingResult :=
  {| job_id := job_id r; job_title := job_title r; company_name := company_name r;
     overall_status := v; steps := steps r; filter_result := filter_result r;
     customization_result := customization_result r;
     contact_result := contact_result r; email_results := email_results r;
     document_package := document_package r |}.

Definition set_steps (v : gmap string WorkflowStep) (r : JobProcessingResult)
  : JobProcessingResult :=
  {| job_id := job_id r; job_title := job_title r; company_name := company_name r;
     overall_status := overall_status r; steps := v; filter_result := filter_result r;
     customization_result := customization_result r;
     contact_result := contact_result r; email_results := email_results r;
     document_package := document_package r |}.

Definition set_filter_result (v : option string) (r : JobProcessingResult)
  : JobProcessingResult :=
  {| job_id := job_id r; job_title := job_title r; company_name := company_name r;
     overall_status := overall_status r; steps := steps r; filter_result := v;
     customization_result := customization_result r;
     contact_result := contact_result r; email_results := email_results r;
     document_package := document_package r |}.

Definition set_customization_result (v : option CustomizationResult)
    (r : JobProcessingResult) : JobProcessingResult :=
  {| job_id := job_id r; job_title := job_title r; company_name := company_name r;
     overall_status := overall_status r; steps := steps r;
     filter_result := filter_result r; customization_result := v;
     contact_result := contact_result r; email_results := email_results r;
     document_package := document_package r |}.

Definition set_contact_result (v : option ContactSearchResult)
    (r : JobProcessingResult) : JobProcessingResult :=
  {| job_id := job_id r; job_title := job_title r; company_name := company_name r;
     overall_status := overall_status r; steps := steps r;
     filter_result := filter_result r;
     customization_result := customization_result r;
     contact_result := v; email_results := email_results r;
     document_package := document_package r |}.

Definition set_email_results (v : list GeneratedEmail) (r : JobProcessingResult)
  : JobProcessingResult :=
  {| job_id := job_id r; job_title := job_title r; company_name := company_name r;
     overall_status := overall_status r; steps := steps r;
     filter_result := filter_result r;
     customization_result := customization_result r;
     contact_result := contact_result r; email_results := v;
     document_package := document_package r |}.

Definition set_document_package (v : option DocumentPackage) (r : JobProcessingResult)
  : JobProcessingResult :=
  {| job_id := job_id r; job_title := job_title r; company_name := company_name r;
     overall_status := overall_status r; steps := steps r;
     filter_result := filter_result r;
     customization_result := customization_result r;
     contact_result := contact_result r; email_results := email_results r;
     document_package := v |}.

(** [step = WorkflowStep(nm, IN_PROGRESS, ...); job_result.steps[nm] = step] *)
Definition begin_step (nm : string) : M PState unit :=
  update (fun r =>
    set_steps (<[nm := {| name := nm; status := IN_PROGRESS; error_message := None |}]>
                 (steps r)) r).

(** [step.status = v], on the step object held in [job_result.steps] *)
Definition set_step_status (nm : string) (v : ProcessingStatus) : M PState unit :=
  update (fun r =>
    set_steps (alter (fun st => {| name := name st; status := v;
                                   error_message := error_message st |}) nm (steps r)) r).

(** [step.error_message = msg] *)
Definition set_step_error (nm : string) (msg : string) : M PState unit :=
  update (fun r =>
    set_steps (alter (fun st => {| name := name st; status := status st;
                                   error_message := Some msg |}) nm (steps r)) r).

(** The [except Exception as e] clause every stage ends with *)
Definition fail_step (nm : string) (e : exn) : M PState unit :=
  set_step_status nm FAILED;; set_step_error nm (str_exn e).

(** *** Database helpers *)

(** The shape shared by [_get_job_data] and [_get_existing_filter_result]:
    [try: conn = get_connection(); ...; return row or None]
    [except Exception: return None]
    [finally: if conn: conn.close()].
    When [get_connection()] itself raises, [conn] is unbound in the
    [finally] clause and reading it raises [UnboundLocalError], which
    replaces the [return None] of the [except] clause. *)
Definition guarded_select {A} (q : DbQuery A) : outcome (option A) :=
  match q with
  | ConnectFails => Raise (UnboundLocalError "conn")
  | QueryFails => Return None
  | NoRow => Return None
  | Row a => Return (Some a)
  end.

(** [_get_job_data] *)
Definition _get_job_data (env : Env) (jid : Z) : M (list Event) (option JobData) :=
  fun tr => (guarded_select (db_jobs env jid), tr ++ [DbLoadJob jid]).

(** [_get_existing_filter_result] *)
Definition _get_existing_filter_result (env : Env) (jid : Z)
  : M PState (option string) :=
  call (DbLoadFilterResult jid) (guarded_select (db_filter_results env jid)).

(** [_load_default_filter_criteria] *)
Definition _load_default_filter_criteria (env : Env) : M PState FilterCriteria :=
  call CallLoadDefaultCriteria (load_default_filter_criteria env).

(** [_save_batch_result]: every error is logged and swallowed, except the
    unbound [conn] of the [finally] clause when the connection fails. *)
Definition _save_batch_result (env : Env) (site : SaveSite)
    (batch_result : BatchProcessingResult) : M (list Event) unit :=
  fun tr =>
    (if db_save_connects env site then Return tt
     else Raise (UnboundLocalError "conn"),
     tr ++ [DbSaveBatch (request_id batch_result)]).

(** Truth value of an optional string: [None] and [""] are false. *)
Definition truthy (o : option string) : bool :=
  match o with
  | Some s => negb (String.eqb s "")
  | None => false
  end.

(** *** The five stages *)

(** [_execute_filtering_step] *)
Definition _execute_filtering_step (env : Env) (job_data : JobData)
    (criteria : option FilterCriteria) : M PState unit :=
  begin_step "filtering";;
  try_except
    (r ← job_result;
     existing_filter ← _get_existing_filter_result env (job_id r);
     if truthy existing_filter then
       update (set_filter_result existing_filter);;
       set_step_status "filtering" COMPLETED
     else
       criteria ← match criteria with
                  | Some c => mret c
                  | None => _load_default_filter_criteria env
                  end;
       filter_results ← call (CallFilterJobsBatch [job_id r])
                             (filter_jobs_batch env [job_id r] criteria);
       match filter_results with
       | first :: _ =>
           update (set_filter_result (Some (decision first)));;
           set_step_status "filtering" COMPLETED
       | [] => raise (Exception "No filter result returned")
       end)
    (fail_step "filtering").

(** [create_customization_request_from_job], of [ai_processing] *)
Definition create_customization_request_from_job (job_data : JobData)
  : CustomizationRequest :=
  {| cr_job_id := row_id job_data; cr_job := job_data |}.

(** [_execute_resume_customization_step] *)
Definition _execute_resume_customization_step (env : Env) (job_data : JobData)
  : M PState unit :=
  begin_step "resume_customization";;
  try_except
    (r ← job_result;
     existing_customization ← call (CallGetCustomization (job_id r))
                                   (get_customization_for_job env (job_id r));
     match existing_customization with
     | Some existing =>
         update (set_customization_result (Some existing));;
         set_step_status "resume_customization" COMPLETED
     | None =>
         let customization_request := create_customization_request_from_job job_data in
         customization ← call (CallCustomizeResume (job_id r))
                              (customize_resume_for_job env customization_request);
         match customization with
         | Some customized =>
             update (set_customization_result (Some customized));;
             set_step_status "resume_customization" COMPLETED
         | None => raise (Exception "Resume customization failed")
         end
     end)
    (fail_step "resume_customization").

(** [_execute_contact_finding_step]; the job dict has no ["domain"] key, so
    [job_data.get('domain')] is [None]. *)
Definition _execute_contact_finding_step (env : Env) (job_data : JobData)
  : M PState unit :=
  begin_step "contact_finding";;
  try_except
    (found ← call (CallFindContacts (company job_data))
                  (find_contacts_for_company env (company job_data) None);
     update (set_contact_result (Some found));;
     set_step_status "contact_finding" COMPLETED)
    (fail_step "contact_finding").

(** The [for contact in top_contacts] loop of the e-mail stage *)
Fixpoint generate_emails (env : Env) (job_data : JobData) (template_name : string)
    (top_contacts : list Contact) : M PState unit :=
  match top_contacts with
  | [] => mret tt
  | contact :: rest =>
      r ← job_result;
      let email_request :=
        {| eg_job_id := job_id r;
           eg_job_title := title job_data;
           eg_company_name := company job_data;
           eg_job_description := description job_data;
           eg_contact := contact;
           eg_customization_result := customization_result r;
           eg_template_name := template_name |} in
      generated_email ← call (CallGenerateEmail email_request)
                             (generate_email env email_request);
      match generated_email with
      | Some email => update (fun r => set_email_results (email_results r ++ [email]) r)
      | None => mret tt
      end;;
      generate_emails env job_data template_name rest
  end.

Definition no_contacts_message : string := "No contacts available for email generation".
Definition no_resume_message : string :=
  "No customized resume available for document generation".

(** [_execute_email_generation_step] *)
Definition _execute_email_generation_step (env : Env) (job_data : JobData)
    (template_name : string) : M PState unit :=
  begin_step "email_generation";;
  try_except
    (r ← job_result;
     match contact_result r with
     | None => raise (Exception no_contacts_message)
     | Some found =>
         match contacts found with
         | [] => raise (Exception no_contacts_message)
         | _ :: _ =>
             let top_contacts := take 3 (contacts found) in
             generate_emails env job_data template_name top_contacts;;
             r ← job_result;
             match email_results r with
             | _ :: _ => set_step_status "email_generation" COMPLETED
             | [] => raise (Exception "No emails were generated")
             end
         end
     end)
    (fail_step "email_generation").

(** [_execute_document_generation_step] *)
Definition _execute_document_generation_step (env : Env) (job_data : JobData)
    (formats : list string) : M PState unit :=
  begin_step "document_generation";;
  try_except
    (r ← job_result;
     match customization_result r with
     | None => raise (Exception no_resume_message)
     | Some customized =>
         let doc_request :=
           {| dg_job_id := job_id r;
              dg_job_title := title job_data;
              dg_company_name := company job_data;
              dg_resume_data := customized_resume customized;
              dg_output_formats := formats |} in
         package ← call (CallGenerateDocuments doc_request)
                        (generate_documents_for_job env doc_request);
         match package with
         | Some pkg =>
             update (set_document_package (Some pkg));;
             set_step_status "document_generation" COMPLETED
         | None => raise (Exception "Document generation failed")
         end
     end)
    (fail_step "document_generation").

(** *** One job: [_process_single_job] *)

(** The steps of [job_result.steps] whose status is [FAILED] *)
Definition failed_steps (r : JobProcessingResult) : list WorkflowStep :=
  filter (fun st => status st = FAILED) (snd <$> map_to_list (steps r)).

(** Steps 2 to 5 of the [try] block, and the overall status decided after
    them. *)
Definition later_stages (env : Env) (request : BatchProcessingRequest)
    (job_data : JobData) : M PState bool :=
  (if enable_resume_customization request
   then _execute_resume_customization_step env job_data else mret tt);;
  (if enable_contact_finding request
   then _execute_contact_finding_step env job_data else mret tt);;
  (if enable_email_generation request
   then _execute_email_generation_step env job_data (email_template request)
   else mret tt);;
  (if enable_document_generation request
   then _execute_document_generation_step env job_data (document_formats request)
   else mret tt);;
  r ← job_result;
  update (set_overall_status
            (match failed_steps r with
             | _ :: _ => FAILED
             | [] => COMPLETED
             end));;
  notify "job_completed";;
  mret false.

(** The body of the [try] block. It answers [true] when it left through the
    [return job_result] of the rejection branch of step 1. *)
Definition pipeline (env : Env) (request : BatchProcessingRequest)
    (job_data : JobData) : M PState bool :=
  rejected ←
    (if enable_filtering request then
       _execute_filtering_step env job_data (filter_criteria request);;
       r ← job_result;
       if bool_decide (filter_result r = Some "reject") then
         update (set_overall_status SKIPPED);; mret true
       else mret false
     else mret false);
  if rejected : bool then mret true
  else later_stages env request job_data.

(** The [except Exception as e] clause of [_process_single_job] *)
Definition pipeline_failed (e : exn) : M PState bool :=
  update (set_overall_status FAILED);;
  r ← job_result;
  (if bool_decide (steps r = ∅) then
     update (set_steps
               (<["general_error" := {| name := "general_error"; status := FAILED;
                                        error_message := Some (str_exn e) |}]> (steps r)))
   else mret tt);;
  notify "job_failed";;
  mret false.

Definition job_not_found (jid : Z) : JobProcessingResult :=
  {| job_id := jid; job_title := "Unknown"; company_name := "Unknown";
     overall_status := FAILED;
     steps := {["data_loading" := {| name := "data_loading"; status := FAILED;
                                     error_message := Some "Job not found" |}]};
     filter_result := None; customization_result := None; contact_result := None;
     email_results := []; document_package := None |}.

Definition new_job_result (jid : Z) (job_data : JobData) : JobProcessingResult :=
  {| job_id := jid; job_title := title job_data; company_name := company job_data;
     overall_status := IN_PROGRESS; steps := ∅;
     filter_result := None; customization_result := None; contact_result := None;
     email_results := []; document_package := None |}.

(** [_process_single_job]. The call of [_get_job_data] comes before the [try]
    block, so what it raises leaves the function. *)
Definition _process_single_job (env : Env) (request : BatchProcessingRequest)
    (jid : Z) : M (list Event) JobProcessingResult :=
  fun tr =>
    match _get_job_data env jid tr with
    | (Raise e, tr) => (Raise e, tr)
    | (Return None, tr) => (Return (job_not_found jid), tr)
    | (Return (Some job_data), tr) =>
        let s := {| jr := new_job_result jid job_data;
                    trace := tr ++ [Progress "job_started"] |} in
        match try_except (pipeline env request job_data) pipeline_failed s with
        | (Return _, s) => (Return (jr s), trace s)
        | (Raise e, s) => (Raise e, trace s)
        end
    end.

(** *** The batch: [process_jobs_batch] *)

(** An element of [completed_tasks]: with [return_exceptions=True],
    [asyncio.gather] hands back what a task raised in place of its result. *)
Definition Task : Type := outcome (Z * JobProcessingResult).

(** [asyncio.gather] over the tasks, with [return_exceptions=True]. The collaborators
    answer as functions of their arguments, so the results do not depend on
    how the event loop interleaves the jobs; the jobs are run one after the
    other, in the order of [job_ids], which is also the order of the results. *)
Fixpoint gather (env : Env) (request : BatchProcessingRequest) (ids : list Z)
    (tr : list Event) : list Task * list Event :=
  match ids with
  | [] => ([], tr)
  | jid :: rest =>
      let '(o, tr) := _process_single_job env request jid tr in
      let '(tasks, tr) := gather env request rest tr in
      (match o with
       | Return r => Return (jid, r)
       | Raise e => Raise e
       end :: tasks, tr)
  end.

(** The local variables of the result loop *)
Record Tally := {
  t_successful_jobs : Z;
  t_failed_jobs : Z;
  t_job_results : gmap Z JobProcessingResult
}.

(** One iteration of [for task_result in completed_tasks] *)
Definition tally_task (acc : Tally) (task_result : Task) : Tally :=
  match task_result with
  | Raise _ =>
      {| t_successful_jobs := t_successful_jobs acc;
         t_failed_jobs := t_failed_jobs acc + 1;
         t_job_results := t_job_results acc |}
  | Return (jid, r) =>
      let results := <[jid := r]> (t_job_results acc) in
      if bool_decide (overall_status r = COMPLETED) then
        {| t_successful_jobs := t_successful_jobs acc + 1;
           t_failed_jobs := t_failed_jobs acc;
           t_job_results := results |}
      else
        {| t_successful_jobs := t_successful_jobs acc;
           t_failed_jobs := t_failed_jobs acc + 1;
           t_job_results := results |}
  end.

Definition tally (completed_tasks : list Task) : Tally :=
  fold_left tally_task completed_tasks
    {| t_successful_jobs := 0; t_failed_jobs := 0; t_job_results := ∅ |}.

(** The [except Exception as e] clause of [process_jobs_batch], entered with
    the values the local variables had when the exception was raised. *)
Definition critical_error (env : Env) (request : BatchProcessingRequest)
    (batch_id : string) (acc : Tally) : M (list Event) BatchProcessingResult :=
  let batch_result :=
    {| request_id := batch_id;
       total_jobs := Z.of_nat (length (job_ids request));
       successful_jobs := t_successful_jobs acc;
       failed_jobs := Z.of_nat (length (job_ids request));
       job_results := t_job_results acc;
       batch_overall_status := FAILED |} in
  _save_batch_result env SaveAfterCriticalError batch_result;;
  modify (fun tr => tr ++ [Progress "batch_failed"]);;
  mret batch_result.

(** [process_jobs_batch], with [batch_id] the identifier made from the clock.
    [None] stands for a call that never returns: a semaphore of size 0 with
    at least one job to run. A negative size makes [asyncio.Semaphore] raise
    [ValueError] inside the [try] block. *)
Definition process_jobs_batch (env : Env) (request : BatchProcessingRequest)
    (batch_id : string) (tr : list Event)
  : option (outcome BatchProcessingResult * list Event) :=
  let tr := tr ++ [Progress "batch_started"] in
  let start := {| t_successful_jobs := 0; t_failed_jobs := 0; t_job_results := ∅ |} in
  if max_concurrent_jobs request <? 0 then
    Some (critical_error env request batch_id start tr)
  else if (max_concurrent_jobs request =? 0)
          && negb (Nat.eqb (length (job_ids request)) 0) then
    None
  else
    let '(completed_tasks, tr) := gather env request (job_ids request) tr in
    let acc := tally completed_tasks in
    let overall :=
      if t_successful_jobs acc =? Z.of_nat (length (job_ids request)) then COMPLETED
      else if 0 <? t_successful_jobs acc then COMPLETED
      else FAILED in
    let batch_result :=
      {| request_id := batch_id;
         total_jobs := Z.of_nat (length (job_ids request));
         successful_jobs := t_successful_jobs acc;
         failed_jobs := t_failed_jobs acc;
         job_results := t_job_results acc;
         batch_overall_status := overall |} in
    match _save_batch_result env SaveNormal batch_result tr with
    | (Raise e, tr) => Some (critical_error env request batch_id acc tr)
    | (Return _, tr) => Some (Return batch_result, tr ++ [Progress "batch_completed"])
    end.

(** How many recorded job outcomes have a given overall status *)
Definition count_status (v : ProcessingStatus) (results : gmap Z JobProcessingResult)
  : Z :=
  Z.of_nat (length (filter (fun r => overall_status r = v)
                           (snd <$> map_to_list results))).

(** *** Vocabulary of the properties and sample jobs *)

(** A step after [step.status = FAILED; step.error_message = msg] *)
Definition failed_with (msg : string) (st : WorkflowStep) : WorkflowStep :=
  {| name := name st; status := FAILED; error_message := Some msg |}.

(** No collaborator of a later stage is called in [evs]. *)
Definition quiet (evs : list Event) : Prop :=
  Forall (fun e => later_stage_call e = false) evs.

(** The request the e-mail stage builds for a contact *)
Definition email_request_for (r : JobProcessingResult) (job_data : JobData)
    (template_name : string) (contact : Contact) : EmailGenerationRequest :=
  {| eg_job_id := job_id r;
     eg_job_title := title job_data;
     eg_company_name := company job_data;
     eg_job_description := description job_data;
     eg_contact := contact;
     eg_customization_result := customization_result r;
     eg_template_name := template_name |}.

(** The record of a stage that failed before calling its collaborator, for
    want of a prerequisite *)
Definition dependency_missing (nm msg : string) : WorkflowStep :=
  {| name := nm; status := FAILED; error_message := Some msg |}.

(** The state after the overall status was decided and [job_completed]
    notified *)
Definition finished (s : PState) : PState :=
  {| jr := set_overall_status
             (match failed_steps (jr s) with
              | _ :: _ => FAILED
              | [] => COMPLETED
              end) (jr s);
     trace := trace s ++ [Progress "job_completed"] |}.

(** A stage behind its [enable_...] flag *)
Definition optional (enabled : bool) (stage : M PState unit) : M PState unit :=
  if enabled then stage else mret tt.

(** What an optional stage leaves behind: nothing when it is disabled,
    otherwise its own step and its own artifact, and a longer trace. *)
Inductive stage_result (nm : string)
    (artifact : JobProcessingResult -> JobProcessingResult) (s s' : PState) : Prop :=
| stage_disabled : s' = s -> stage_result nm artifact s s'
| stage_ran (st : WorkflowStep) (evs : list Event) :
    s' = {| jr := artifact (set_steps (<[nm := st]> (steps (jr s))) (jr s));
            trace := trace s ++ evs |} ->
    name st = nm ->
    status st = COMPLETED \/ status st = FAILED ->
    stage_result nm artifact s s'.

(** The state in which the [try] block of [_process_single_job] starts *)
Definition started (jid : Z) (job_data : JobData) (tr : list Event) : PState :=
  {| jr := new_job_result jid job_data;
     trace := (tr ++ [DbLoadJob jid]) ++ [Progress "job_started"] |}.

(** The row of a sample job *)
Definition row_sample (jid : Z) : JobData :=
  {| row_id := jid; title := "Engineer"; company := "Acme"; description := "Build" |}.

(** Sample collaborators. Jobs 1 to 3 have a row in the [jobs] table; job 1
    is rejected by the filter, the résumé customizer raises for job 2, job 3
    goes through every stage; the database connection fails when the row of
    job 9 is read. *)
Definition env_sample : Env :=
  {| db_jobs := fun jid =>
       if jid =? 9 then ConnectFails
       else if (1 <=? jid) && (jid <=? 3) then Row (row_sample jid)
       else NoRow;
     db_filter_results := fun jid => if jid =? 1 then Row "reject"%string else NoRow;
     load_default_filter_criteria := Return {| criteria_name := "default" |};
     filter_jobs_batch := fun _ _ => Return [{| decision := "accept" |}];
     get_customization_for_job := fun _ => Return None;
     customize_resume_for_job := fun request =>
       if cr_job_id request =? 2 then Raise (Exception "LLM unavailable")
       else Return (Some {| customized_resume := "resume" |});
     find_contacts_for_company := fun _ _ =>
       Return {| contacts := [{| contact_email := "hr@acme.example" |}];
                 total_found := 1 |};
     generate_email := fun request =>
       Return (Some {| email_to := eg_contact request; email_body := "Hello" |});
     generate_documents_for_job := fun _ => Return (Some {| documents := ["html"] |});
     db_save_connects := fun _ => true |}.

(** A request with every stage enabled and the defaults of the dataclass *)
Definition request_sample (ids : list Z) : BatchProcessingRequest :=
  {| job_ids := ids;
     enable_filtering := true;
     enable_resume_customization := true;
     enable_contact_finding := true;
     enable_email_generation := true;
     enable_document_generation := true;
     filter_criteria := None;
     email_template := "professional";
     document_formats := ["html"; "pdf"; "markdown"];
     max_concurrent_jobs := 3 |}.

(** What [_process_single_job] returned, for a run that returned *)
Definition returned_result (run : outcome JobProcessingResult * list Event) (jid : Z)
  : JobProcessingResult :=
  match run with
  | (Return r, _) => r
  | (Raise _, _) => job_not_found jid
  end.

(** The tasks the result loop counts as successful *)
Definition completed_task (task : Task) : bool :=
  match task with
  | Return (_, r) => bool_decide (overall_status r = COMPLETED)
  | Raise _ => false
  end.

(** How many of the gathered tasks satisfy [keep] *)
Definition count_tasks (keep : Task -> bool) (tasks : list Task) : Z :=
  Z.of_nat (length (List.filter keep tasks)).

(** The sample collaborators, with a database that refuses the connection
    the first time the batch result is saved and accepts it the second time *)
Definition env_save_fails_once : Env :=
  {| db_jobs := db_jobs env_sample;
     db_filter_results := db_filter_results env_sample;
     load_default_filter_criteria := load_default_filter_criteria env_sample;
     filter_jobs_batch := filter_jobs_batch env_sample;
     get_customization_for_job := get_customization_for_job env_sample;
     customize_resume_for_job := customize_resume_for_job env_sample;
     find_contacts_for_company := find_contacts_for_company env_sample;
     generate_email := generate_email env_sample;
     generate_documents_for_job := generate_documents_for_job env_sample;
     db_save_connects := fun site =>
       match site with
       | SaveNormal => false
       | SaveAfterCriticalError => true
       end |}.

(** A request for job 3 with contact finding switched off *)
Definition request_without_contacts : BatchProcessingRequest :=
  {| job_ids := [3];
     enable_filtering := true;
     enable_resume_customization := true;
     enable_contact_finding := false;
     enable_email_generation := true;
     enable_document_generation := true;
     filter_criteria := None;
     email_template := "professional";
     document_formats := ["html"];
     max_concurrent_jobs := 1 |}.

(** *** What the answers of the collaborators make of a job *)

(** What the Filter stage of job [jid] resolves to: the decision stored for
    the job when there is one; otherwise the decision of the first result
    the filter returns for the job, under the criteria of the request or else
    the default ones; nothing when the stage fails. *)
Definition filter_decision (env : Env) (criteria : option FilterCriteria) (jid : Z)
  : option string :=
  match guarded_select (db_filter_results env jid) with
  | Raise _ => None
  | Return stored =>
      if truthy stored then stored
      else
        match (match criteria with
               | Some c => Return c
               | None => load_default_filter_criteria env
               end) with
        | Raise _ => None
        | Return c =>
            match filter_jobs_batch env [jid] c with
            | Return (first :: _) => Some (decision first)
            | _ => None
            end
        end
  end.

(** The job is rejected: filtering is enabled and the Filter stage resolves
    to ["reject"]. *)
Definition rejected (env : Env) (request : BatchProcessingRequest) (jid : Z) : bool :=
  enable_filtering request
  && bool_decide (filter_decision env (filter_criteria request) jid = Some "reject").

(** The output of the CustomizeResume stage, if it delivers one: the
    customization stored for the job, or else a fresh one *)
Definition resume_output (env : Env) (request : BatchProcessingRequest) (jid : Z)
    (job_data : JobData) : option CustomizationResult :=
  if enable_resume_customization request then
    match get_customization_for_job env jid with
    | Return (Some existing) => Some existing
    | Return None =>
        match customize_resume_for_job env
                (create_customization_request_from_job job_data) with
        | Return (Some customized) => Some customized
        | _ => None
        end
    | Raise _ => None
    end
  else None.

(** The contacts the FindContacts stage delivers *)
Definition contacts_output (env : Env) (request : BatchProcessingRequest)
    (job_data : JobData) : list Contact :=
  if enable_contact_finding request then
    match find_contacts_for_company env (company job_data) None with
    | Return found => contacts found
    | Raise _ => []
    end
  else [].

(** The request the e-mail stage builds for a contact of job [jid], with
    the customized résumé [customized], present or not *)
Definition email_request_of (jid : Z) (job_data : JobData) (template_name : string)
    (customized : option CustomizationResult) (contact : Contact)
  : EmailGenerationRequest :=
  {| eg_job_id := jid;
     eg_job_title := title job_data;
     eg_company_name := company job_data;
     eg_job_description := description job_data;
     eg_contact := contact;
     eg_customization_result := customized;
     eg_template_name := template_name |}.

(** The request the document stage builds from a customized résumé *)
Definition document_request_of (jid : Z) (job_data : JobData) (formats : list string)
    (customized : CustomizationResult) : DocumentGenerationRequest :=
  {| dg_job_id := jid;
     dg_job_title := title job_data;
     dg_company_name := company job_data;
     dg_resume_data := customized_resume customized;
     dg_output_formats := formats |}.

(** The e-mail generator, respectively the document generator, is called in
    [evs]. *)
Definition calls_email_generator (evs : list Event) : Prop :=
  exists req, CallGenerateEmail req ∈ evs.

Definition calls_document_generator (evs : list Event) : Prop :=
  exists req, CallGenerateDocuments req ∈ evs.

(** The sample collaborators, with a filter that rejects every job it is
    asked about *)
Definition env_rejecting : Env :=
  {| db_jobs := db_jobs env_sample;
     db_filter_results := fun _ => NoRow;
     load_default_filter_criteria := load_default_filter_criteria env_sample;
     filter_jobs_batch := fun _ _ => Return [{| decision := "reject" |}];
     get_customization_for_job := get_customization_for_job env_sample;
     customize_resume_for_job := customize_resume_for_job env_sample;
     find_contacts_for_company := find_contacts_for_company env_sample;
     generate_email := generate_email env_sample;
     generate_documents_for_job := generate_documents_for_job env_sample;
     db_save_connects := db_save_connects env_sample |}.

(** *** The store of batch results, and more vocabulary *)

(** Every recorded step carries the name it is filed under and has ended,
    Completed or Failed. *)
Definition steps_ended (m : gmap string WorkflowStep) : Prop :=
  forall nm st, m !! nm = Some st ->
    name st = nm /\ (status st = COMPLETED \/ status st = FAILED).

(** [ProcessingStatus(value)] *)
Definition status_of_value (v : string) : outcome ProcessingStatus :=
  if String.eqb v "pending" then Return PENDING
  else if String.eqb v "in_progress" then Return IN_PROGRESS
  else if String.eqb v "completed" then Return COMPLETED
  else if String.eqb v "failed" then Return FAILED
  else if String.eqb v "skipped" then Return SKIPPED
  else Raise (ValueError ("'" ++ v ++ "' is not a valid ProcessingStatus")).

(** One step in the JSON of a saved job *)
Record StepSummary := {
  ss_name : string;
  ss_status : string;
  ss_error_message : option string
}.

(** One job in the JSON of a saved batch. The keys of the JSON object are
    [str(job_id)] and are read back with [int]; they are kept as integers. *)
Record JobSummary := {
  js_job_id : Z;
  js_job_title : string;
  js_company_name : string;
  js_overall_status : string;
  js_steps : list (string * StepSummary)
}.

(** A row of [batch_processing_results]; the times are left out. *)
Record BatchRow := {
  row_request_id : string;
  row_total_jobs : Z;
  row_successful_jobs : Z;
  row_failed_jobs : Z;
  row_overall_status : string;
  row_result_data : list (Z * JobSummary)
}.

Definition step_summary (st : WorkflowStep) : StepSummary :=
  {| ss_name := name st; ss_status := status_value (status st);
     ss_error_message := error_message st |}.

Definition job_summary (r : JobProcessingResult) : JobSummary :=
  {| js_job_id := job_id r;
     js_job_title := job_title r;
     js_company_name := company_name r;
     js_overall_status := status_value (overall_status r);
     js_steps := prod_map id step_summary <$> map_to_list (steps r) |}.

(** The row [_save_batch_result] inserts *)
Definition batch_row_of (b : BatchProcessingResult) : BatchRow :=
  {| row_request_id := request_id b;
     row_total_jobs := total_jobs b;
     row_successful_jobs := successful_jobs b;
     row_failed_jobs := failed_jobs b;
     row_overall_status := status_value (batch_overall_status b);
     row_result_data := prod_map id job_summary <$> map_to_list (job_results b) |}.

(** [INSERT OR REPLACE] into a table whose [request_id] is unique *)
Definition insert_or_replace (row : BatchRow) (table : gmap string BatchRow)
  : gmap string BatchRow :=
  <[row_request_id row := row]> table.

(** [SELECT ... WHERE request_id = ?] and [fetchone], on an open connection *)
Definition select_batch_row (table : gmap string BatchRow) (request : string)
  : DbQuery BatchRow :=
  match table !! request with
  | Some row => Row row
  | None => NoRow
  end.

(** The job result [get_batch_result] rebuilds from the JSON of a job *)
Definition job_of_summary (js : JobSummary) (v : ProcessingStatus)
  : JobProcessingResult :=
  {| job_id := js_job_id js; job_title := js_job_title js;
     company_name := js_company_name js; overall_status := v; steps := ∅;
     filter_result := None; customization_result := None; contact_result := None;
     email_results := []; document_package := None |}.

(** The loop of [get_batch_result] over the items of the JSON object *)
Fixpoint rebuild_jobs (acc : gmap Z JobProcessingResult) (data : list (Z * JobSummary))
  : outcome (gmap Z JobProcessingResult) :=
  match data with
  | [] => Return acc
  | (jid, js) :: rest =>
      match status_of_value (js_overall_status js) with
      | Return v => rebuild_jobs (<[jid := job_of_summary js v]> acc) rest
      | Raise e => Raise e
      end
  end.

(** [get_batch_result], given what its [SELECT] comes to. Whatever is raised
    inside the [try] block is logged and answered with [None]; a connection
    that cannot be opened leaves [conn] unbound in the [finally] clause. *)
Definition get_batch_result (q : DbQuery BatchRow) : outcome (option BatchProcessingResult) :=
  match q with
  | ConnectFails => Raise (UnboundLocalError "conn")
  | QueryFails => Return None
  | NoRow => Return None
  | Row row =>
      match rebuild_jobs ∅ (row_result_data row) with
      | Raise _ => Return None
      | Return jobs =>
          match status_of_value (row_overall_status row) with
          | Raise _ => Return None
          | Return v =>
              Return (Some {| request_id := row_request_id row;
                              total_jobs := row_total_jobs row;
                              successful_jobs := row_successful_jobs row;
                              failed_jobs := row_failed_jobs row;
                              job_results := jobs;
                              batch_overall_status := v |})
          end
      end
  end.

(** A job result as it comes back from the store: the status and the
    identification of the job, without steps and without artifacts *)
Definition summary_only (r : JobProcessingResult) : JobProcessingResult :=
  job_of_summary (job_summary r) (overall_status r).

(** The sample collaborators, with a résumé customization already stored for
    every job *)
Definition env_stored_resume : Env :=
  {| db_jobs := db_jobs env_sample;
     db_filter_results := db_filter_results env_sample;
     load_default_filter_criteria := load_default_filter_criteria env_sample;
     filter_jobs_batch := filter_jobs_batch env_sample;
     get_customization_for_job := fun _ =>
       Return (Some {| customized_resume := "stored resume" |});
     customize_resume_for_job := customize_resume_for_job env_sample;
     find_contacts_for_company := find_contacts_for_company env_sample;
     generate_email := generate_email env_sample;
     generate_documents_for_job := generate_documents_for_job env_sample;
     db_save_connects := db_save_connects env_sample |}.

End Workflow.

(** * Properties of the rate governor *)

Module RateLimitFacts.
Import RateLimit.

Lemma Qltb_lt a b : Qltb a b = true <-> (a < b)%Q.
Proof.
  unfold Qltb. rewrite negb_true_iff.
  split.
  - intros H. apply Qnot_le_lt. intros Hle.
    apply Qle_bool_iff in Hle. congruence.
  - intros H. destruct (Qle_bool b a) eqn:E; [|reflexivity].
    apply Qle_bool_iff in E. exfalso. exact (Qlt_not_le _ _ H E).
Qed.

Lemma Qltb_ge a b : Qltb a b = false <-> (b <= a)%Q.
Proof.
  unfold Qltb. rewrite negb_false_iff. apply Qle_bool_iff.
Qed.

Lemma py_min_Qmin a b : (py_min a b == Qmin a b)%Q.
Proof.
  unfold py_min. destruct (Qltb b a) eqn:E.
  - apply Qltb_lt in E. symmetry. apply Q.min_r. apply Qlt_le_weak. exact E.
  - apply Qltb_ge in E. symmetry. apply Q.min_l. exact E.
Qed.

Lemma py_min_le_l a b : (py_min a b <= a)%Q.
Proof. rewrite py_min_Qmin. apply Q.le_min_l. Qed.

Lemma py_min_le_r a b : (py_min a b <= b)%Q.
Proof. rewrite py_min_Qmin. apply Q.le_min_r. Qed.

Lemma py_min_glb a b c : (c <= a)%Q -> (c <= b)%Q -> (c <= py_min a b)%Q.
Proof. intros. rewrite py_min_Qmin. apply Q.min_glb; assumption. Qed.

(** *** Backoff *)

Lemma float_pow_in_range x n :
  Qle_bool float_overflow (Qabs (x ^ Z.of_nat n)) = false ->
  float_pow x n = Return (x ^ Z.of_nat n)%Q.
Proof. intros H. unfold float_pow. cbv zeta. rewrite H. reflexivity. Qed.

Lemma float_pow_overflow x n :
  Qle_bool float_overflow (Qabs (x ^ Z.of_nat n)) = true ->
  float_pow x n = Raise OverflowError.
Proof. intros H. unfold float_pow. cbv zeta. rewrite H. reflexivity. Qed.

Lemma backoff_time_in_range self :
  backoff_overflows self = false -> _get_backoff_time self = Return (capped_backoff self).
Proof.
  intros H. unfold _get_backoff_time. rewrite (float_pow_in_range _ _ H). reflexivity.
Qed.

Lemma backoff_time_overflow self :
  backoff_overflows self = true -> _get_backoff_time self = Raise OverflowError.
Proof.
  intros H. unfold _get_backoff_time. rewrite (float_pow_overflow _ _ H). reflexivity.
Qed.

(** With no failure recorded the power is [1]. *)
Lemma no_failure_no_overflow self :
  consecutive_failures self = 0%nat -> backoff_overflows self = false.
Proof.
  intros H. unfold backoff_overflows. rewrite H. cbn [Z.of_nat Qpower].
  vm_compute. reflexivity.
Qed.

Lemma overflow_after_failure self :
  backoff_overflows self = true -> consecutive_failures self <> 0%nat.
Proof.
  intros H H0. rewrite (no_failure_no_overflow _ H0) in H. discriminate.
Qed.

Lemma is_in_backoff_in_range self now :
  backoff_overflows self = false ->
  _is_in_backoff self now
  = Return (negb (Nat.eqb (consecutive_failures self) 0)
            && Qltb (now - last_failure_time self)%Q (capped_backoff self)).
Proof.
  intros H. unfold _is_in_backoff. rewrite (backoff_time_in_range _ H).
  destruct (Nat.eqb _ 0); reflexivity.
Qed.

Lemma is_in_backoff_overflow self now :
  backoff_overflows self = true -> _is_in_backoff self now = Raise OverflowError.
Proof.
  intros H. unfold _is_in_backoff. rewrite (backoff_time_overflow _ H).
  destruct (Nat.eqb _ 0) eqn:E; [|reflexivity].
  apply Nat.eqb_eq in E. contradiction (overflow_after_failure _ H).
Qed.

(** The backoff check answers exactly when the power is in range. *)
Lemma is_in_backoff_answers self now b :
  _is_in_backoff self now = Return b -> backoff_overflows self = false.
Proof.
  intros H. destruct (backoff_overflows self) eqn:E; [|reflexivity].
  rewrite (is_in_backoff_overflow _ _ E) in H. discriminate.
Qed.

Lemma is_in_backoff_raises self now e :
  _is_in_backoff self now = Raise e -> backoff_overflows self = true /\ e = OverflowError.
Proof.
  intros H. destruct (backoff_overflows self) eqn:E.
  - rewrite (is_in_backoff_overflow _ _ E) in H. split; congruence.
  - rewrite (is_in_backoff_in_range _ _ E) in H. discriminate.
Qed.

Lemma acquire_in_backoff self now :
  _is_in_backoff self now = Return true ->
  acquire now self =
    {| result := Return false; slept := Some (capped_backoff self); limiter := self |}.
Proof.
  intros H. unfold acquire. rewrite H.
  rewrite (backoff_time_in_range _ (is_in_backoff_answers _ _ _ H)). reflexivity.
Qed.

Lemma acquire_backoff_raises self now e :
  _is_in_backoff self now = Raise e ->
  acquire now self = {| result := Raise e; slept := None; limiter := self |}.
Proof. intros H. unfold acquire. rewrite H. reflexivity. Qed.

(** Inside the backoff window, and when the backoff check raises, [acquire]
    leaves the limiter as it was and admits nothing. *)
Lemma acquire_untouched self now :
  _is_in_backoff self now <> Return false ->
  limiter (acquire now self) = self /\ result (acquire now self) <> Return true.
Proof.
  intros H. destruct (_is_in_backoff self now) as [[|]|e] eqn:Hb.
  - rewrite (acquire_in_backoff _ _ Hb). split; [reflexivity | discriminate].
  - contradiction.
  - rewrite (acquire_backoff_raises _ _ _ Hb). split; [reflexivity | discriminate].
Qed.

(** C7 fails on the code. The claim holds of every limiter state whose power
    [backoff_multiplier ^ consecutive_failures] is in the range of a float:
    the delay is [min(cooldown_seconds * backoff_multiplier ^
    consecutive_failures, max_backoff_seconds)], and it is the delay [acquire]
    sleeps for inside the backoff window. In the other states the power
    raises [OverflowError] before [min] can cap the delay, and so do
    [_is_in_backoff], [acquire] and [get_status], although the delay of the
    claim is [max_backoff_seconds] at most. [record_success] resets
    [consecutive_failures] to 0; [record_failure] adds one to it and stamps
    [last_failure_time] with the current time. *)
Theorem backoff_delay_and_failure_count (self : RateLimiter) (now : Q) :
  (backoff_overflows self = false ->
   exists delay,
     _get_backoff_time self = Return delay
     /\ (delay == Qmin (cooldown_seconds (config self)
                        * backoff_multiplier (config self)
                          ^ Z.of_nat (consecutive_failures self))
                       (max_backoff_seconds (config self)))%Q
     /\ (_is_in_backoff self now = Return true ->
         slept (acquire now self) = Some delay))
  /\ (backoff_overflows self = true ->
      _get_backoff_time self = Raise OverflowError
      /\ _is_in_backoff self now = Raise OverflowError
      /\ result (acquire now self) = Raise OverflowError
      /\ fst (get_status now self) = Raise OverflowError
      /\ (Qmin (cooldown_seconds (config self)
                * backoff_multiplier (config self)
                  ^ Z.of_nat (consecutive_failures self))
               (max_backoff_seconds (config self))
          <= max_backoff_seconds (config self))%Q)
  /\ consecutive_failures (record_success self) = 0%nat
  /\ consecutive_failures (record_failure now self) = S (consecutive_failures self)
  /\ last_failure_time (record_failure now self) = now.
Proof.
  split; [|split; [|split; [|split]]].
  - intros H. exists (capped_backoff self).
    split; [apply backoff_time_in_range; exact H|].
    split; [apply py_min_Qmin|].
    intros Hb. rewrite (acquire_in_backoff _ _ Hb). reflexivity.
  - intros H. pose proof (is_in_backoff_overflow self now H) as Hb.
    split; [apply backoff_time_overflow; exact H|]. split; [exact Hb|].
    split; [rewrite (acquire_backoff_raises _ _ _ Hb); reflexivity|].
    split; [|apply Q.le_min_r].
    unfold get_status. cbn [fst].
    change (_is_in_backoff (_refill_tokens self now) now) with (_is_in_backoff self now).
    rewrite Hb. reflexivity.
  - reflexivity.
  - cbn. lia.
  - reflexivity.
Qed.

Example failed_thrice_backoff : _get_backoff_time failed_thrice = Return 8%Q.
Proof. vm_compute. reflexivity. Qed.

Example failed_thrice_then_success :
  _is_in_backoff (record_success failed_thrice) 13 = Return false.
Proof. reflexivity. Qed.

(** After 1023 failures in a row the delay is the ceiling of 300 s; after
    1024 the power [2.0 ** 1024] is out of range and nothing is answered. *)
Lemma backoff_delay_and_failure_count_witness :
  _get_backoff_time (failed_times 1023 0) = Return 300%Q
  /\ consecutive_failures (failed_times 1024 0) = 1024%nat
  /\ _get_backoff_time (failed_times 1024 0) = Raise OverflowError
  /\ result (acquire 1 (failed_times 1024 0)) = Raise OverflowError.
Proof.
  split; [vm_compute; reflexivity|]. split; [vm_compute; reflexivity|].
  pose proof (backoff_delay_and_failure_count (failed_times 1024 0) 1)
    as (_ & Hraise & _).
  assert (backoff_overflows (failed_times 1024 0) = true) as Hover
      by (vm_compute; reflexivity).
  destruct (Hraise Hover) as (Hd & _ & Ha & _).
  split; [exact Hd | exact Ha].
Defined.

(** *** The token bucket *)

Lemma refill_caps self now :
  (tokens (_refill_tokens self now) <= inject_Z (burst_limit (config self)))%Q.
Proof. cbn. apply py_min_le_l. Qed.

Lemma init_bucket_ok cfg t0 :
  0 <= burst_limit cfg -> 0 <= requests_per_minute cfg ->
  bucket_ok cfg t0 (init cfg t0).
Proof.
  intros Hb Hr. split; cbn.
  - reflexivity.
  - apply Qle_shift_div_l; [reflexivity|]. rewrite Qmult_0_l.
    rewrite <- (Zle_Qle 0). exact Hr.
  - rewrite <- (Zle_Qle 0). exact Hb.
  - apply Qle_refl.
  - apply Qle_refl.
Qed.

Lemma refill_bucket_ok cfg t now self :
  0 <= burst_limit cfg -> (t <= now)%Q ->
  bucket_ok cfg t self -> bucket_ok cfg now (_refill_tokens self now).
Proof.
  intros Hb Hle [Hc Hr Hl Hh Hf]. split; cbn.
  - exact Hc.
  - exact Hr.
  - apply py_min_glb.
    + rewrite Hc. rewrite <- (Zle_Qle 0). exact Hb.
    + assert (0 <= (now - last_refill self) * refill_rate self)%Q as Hadd.
      { apply Qmult_le_0_compat; [lra | exact Hr]. }
      lra.
  - rewrite <- Hc. apply py_min_le_l.
  - apply Qle_refl.
Qed.

Lemma bucket_ok_later cfg t t' self :
  (t <= t')%Q -> bucket_ok cfg t self -> bucket_ok cfg t' self.
Proof.
  intros Hle [Hc Hr Hl Hh Hf]. split; try assumption. lra.
Qed.

Lemma acquire_bucket_ok cfg t now self :
  0 <= burst_limit cfg -> (t <= now)%Q ->
  bucket_ok cfg t self -> bucket_ok cfg now (limiter (acquire now self)).
Proof.
  intros Hb Hle Hok.
  destruct (_is_in_backoff self now) as [[|]|e] eqn:Hbk.
  1,3: rewrite (proj1 (acquire_untouched self now ltac:(rewrite Hbk; discriminate)));
       apply (bucket_ok_later _ t); assumption.
  unfold acquire. rewrite Hbk.
  pose proof (refill_bucket_ok _ _ _ _ Hb Hle Hok) as [Hc Hr Hl Hh Hf].
  unfold _check_hourly_limit.
  set (r := _refill_tokens self now) in *. clearbody r.
  cbn [negb set_request_times request_times tokens config].
  destruct (negb _); [split; assumption|].
  destruct (Qle_bool 1 (tokens r)) eqn:E.
  - apply Qle_bool_iff in E. split; cbn; try assumption; lra.
  - destruct (Qeq_bool _ 0); split; assumption.
Qed.

Lemma step_bucket_ok cfg t o self :
  0 <= burst_limit cfg -> bucket_ok cfg t self ->
  match o with
  | OpRecordSuccess => bucket_ok cfg t (step self o)
  | OpAcquire now | OpRecordFailure now | OpGetStatus now =>
      (t <= now)%Q -> bucket_ok cfg now (step self o)
  end.
Proof.
  intros Hb Hok. destruct o as [now| |now|now]; cbn [step].
  - intros Hle. apply (acquire_bucket_ok _ t); assumption.
  - destruct Hok. split; assumption.
  - intros Hle. apply (bucket_ok_later _ t); [exact Hle|].
    destruct Hok. split; assumption.
  - intros Hle. cbn [get_status snd]. apply (refill_bucket_ok _ t); assumption.
Qed.

Lemma run_bucket_ok cfg ops : forall t self,
  0 <= burst_limit cfg -> clock_monotone t ops -> bucket_ok cfg t self ->
  exists t', bucket_ok cfg t' (run ops self).
Proof.
  induction ops as [|o ops IH]; intros t self Hb Hm Hok.
  - exists t. exact Hok.
  - pose proof (step_bucket_ok cfg t o self Hb Hok) as Hs.
    destruct o as [now| |now|now]; cbn [clock_monotone] in Hm;
      try (destruct Hm as [Hle Hm]; specialize (Hs Hle));
      apply (IH _ _ Hb Hm Hs).
Qed.

(** C9, as stated, fails. A limiter created at time 100 whose next clock
    reading is 80 (the wall clock was set back) is refilled with a negative
    number of tokens by [get_status], and the call after it is refused for
    want of a token; and a limiter configured with a negative [burst_limit]
    starts below 0. *)
Lemma tokens_leave_the_bucket :
  (tokens clock_set_back < 0)%Q
  /\ result (acquire 80 clock_set_back) = Return false
  /\ (tokens (init cfg_negative_burst 0) < 0)%Q.
Proof. repeat split. Qed.

(** C9, amended. With a bucket capacity and a refill rate that are not negative and a
    clock that does not run backwards, after any finite sequence of
    [acquire], [record_success], [record_failure] and [get_status] the token
    count is between 0 and [burst_limit]; a refill never leaves more than
    [burst_limit] tokens, and [acquire] takes a token only when the refilled
    bucket holds at least one. *)
Theorem tokens_stay_in_bucket (cfg : RateLimitConfig) (t0 : Q) (ops : list Op) :
  0 <= burst_limit cfg ->
  0 <= requests_per_minute cfg ->
  clock_monotone t0 ops ->
  (0 <= tokens (run ops (init cfg t0)))%Q
  /\ (tokens (run ops (init cfg t0)) <= inject_Z (burst_limit cfg))%Q
  /\ (forall self now,
        (tokens (_refill_tokens self now) <= inject_Z (burst_limit (config self)))%Q)
  /\ (forall self now,
        result (acquire now self) = Return true ->
        (1 <= tokens (_refill_tokens self now))%Q
        /\ tokens (limiter (acquire now self))
           = (tokens (_refill_tokens self now) - 1)%Q).
Proof.
  intros Hb Hr Hm.
  destruct (run_bucket_ok cfg ops t0 (init cfg t0) Hb Hm (init_bucket_ok _ _ Hb Hr))
    as [t' [_ _ Hl Hh _]].
  split; [exact Hl|]. split; [exact Hh|]. split; [apply refill_caps|].
  intros self now.
  destruct (_is_in_backoff self now) as [[|]|e] eqn:Hbk.
  1,3: intros Hres;
       contradiction (proj2 (acquire_untouched self now ltac:(rewrite Hbk; discriminate))).
  unfold acquire. rewrite Hbk.
  unfold _check_hourly_limit. cbn [negb].
  destruct (negb _); [discriminate|].
  cbn [tokens set_request_times].
  destruct (Qle_bool 1 _) eqn:E.
  - intros _. split; [apply Qle_bool_iff in E; exact E | reflexivity].
  - destruct (Qeq_bool _ 0); discriminate.
Qed.

Lemma tokens_stay_in_bucket_witness :
  (0 <= tokens (run ops_sample (init default_config 0)))%Q
  /\ (tokens (run ops_sample (init default_config 0)) <= 5)%Q.
Proof.
  assert (clock_monotone 0 ops_sample) as Hm.
  { cbn. repeat split; discriminate. }
  destruct (tokens_stay_in_bucket default_config 0 ops_sample
              ltac:(cbn; lia) ltac:(cbn; lia) Hm) as (Hl & Hh & _).
  split; [exact Hl | exact Hh].
Defined.

(** *** What [acquire] answers *)

Lemma acquire_not_in_backoff self now :
  _is_in_backoff self now = Return false ->
  let r := _refill_tokens self now in
  let p := snd (_check_hourly_limit r now) in
  acquire now self =
    if negb (fst (_check_hourly_limit r now)) then
      {| result := Return false; slept := None; limiter := p |}
    else if Qle_bool 1 (tokens r) then
      {| result := Return true;
         slept := if Qltb 0 (cooldown_seconds (config self))
                  then Some (cooldown_seconds (config self)) else None;
         limiter := set_request_times (set_tokens p (tokens r - 1)%Q now)
                                      (request_times p ++ [now]) |}
    else if Qeq_bool (refill_rate self) 0 then
      {| result := Raise ZeroDivisionError; slept := None; limiter := p |}
    else
      {| result := Return false; slept := Some (1 / refill_rate self)%Q; limiter := p |}.
Proof. intros H. unfold acquire. rewrite H. reflexivity. Qed.

Example acquire_divides_by_zero :
  result (acquire 1 (limiter (acquire 0 (init cfg_no_refill 0)))) = Raise ZeroDivisionError.
Proof. reflexivity. Qed.

(** C2, as stated, fails: with the bucket empty [acquire] sleeps for the time
    to the next token and then answers [False]; with the hourly window full
    it answers [False] at once. In neither case does it re-evaluate. *)
Lemma acquire_reports_refusal :
  result (acquire 0 drained) = Return false
  /\ match slept (acquire 0 drained) with
     | Some wait_time => (wait_time == 1)%Q
     | None => False
     end
  /\ result (acquire 2 hour_used_up) = Return false
  /\ slept (acquire 2 hour_used_up) = None.
Proof. repeat split; reflexivity. Qed.

(** C2, amended. [acquire] runs once, without a loop. With a refill rate
    that is not zero and a backoff power in the range of a float it never
    raises. It answers [True] exactly when the limiter is outside its backoff
    window, the pruned hourly window has room and the refilled bucket holds a
    token. Otherwise it answers [False]: after sleeping for the backoff time
    inside the backoff window, at once when the hourly window is full, after
    sleeping for [1 / refill_rate] when the bucket is empty. *)
Theorem acquire_answers_once (self : RateLimiter) (now : Q) :
  ~ (refill_rate self == 0)%Q ->
  backoff_overflows self = false ->
  let r := _refill_tokens self now in
  let within := fst (_check_hourly_limit r now) in
  (exists b, result (acquire now self) = Return b)
  /\ (exists b, _is_in_backoff self now = Return b)
  /\ (result (acquire now self) = Return true <->
      _is_in_backoff self now = Return false /\ within = true /\ (1 <= tokens r)%Q)
  /\ (_is_in_backoff self now = Return true ->
      result (acquire now self) = Return false
      /\ _get_backoff_time self = Return (capped_backoff self)
      /\ slept (acquire now self) = Some (capped_backoff self))
  /\ (_is_in_backoff self now = Return false -> within = false ->
      result (acquire now self) = Return false /\ slept (acquire now self) = None)
  /\ (_is_in_backoff self now = Return false -> within = true -> (tokens r < 1)%Q ->
      result (acquire now self) = Return false
      /\ slept (acquire now self) = Some (1 / refill_rate self)%Q).
Proof.
  intros Hrate Hrange r within.
  assert (Qeq_bool (refill_rate self) 0 = false) as Hz.
  { destruct (Qeq_bool _ 0) eqn:E; [|reflexivity].
    apply Qeq_bool_iff in E. contradiction. }
  pose proof (is_in_backoff_in_range self now Hrange) as Hcheck.
  destruct (negb _ && _) eqn:Hin in Hcheck.
  - rewrite (acquire_in_backoff _ _ Hcheck), Hcheck. cbn [result slept].
    split; [eauto|]. split; [eauto|].
    split; [split; [discriminate | intros (? & _); discriminate]|].
    split; [intros _; rewrite (backoff_time_in_range _ Hrange); auto|].
    split; discriminate.
  - rewrite (acquire_not_in_backoff _ _ Hcheck), Hcheck. fold r. fold within.
    split; [|split; [eauto|split; [|split; [discriminate|]]]].
    + destruct within; cbn [negb]; [|cbn; eauto].
      destruct (Qle_bool 1 (tokens r)); [cbn; eauto|].
      rewrite Hz. cbn. eauto.
    + destruct within; cbn [negb].
      * destruct (Qle_bool 1 (tokens r)) eqn:Ht.
        -- apply Qle_bool_iff in Ht. cbn. tauto.
        -- rewrite Hz. cbn. split; [discriminate|].
           intros (_ & _ & Hle). apply Qle_bool_iff in Hle.
           change (Qle_bool 1 (tokens r) = true) in Hle.
           rewrite Hle in Ht. discriminate.
      * cbn. split; [discriminate | intros (_ & ? & _); discriminate].
    + split.
      * intros _ Hw. rewrite Hw. cbn. auto.
      * intros _ Hw Hlt. rewrite Hw. cbn [negb].
        destruct (Qle_bool 1 (tokens r)) eqn:Ht.
        -- apply Qle_bool_iff in Ht. exfalso. lra.
        -- rewrite Hz. cbn. auto.
Qed.

Lemma acquire_answers_once_witness :
  (exists b, result (acquire 0 drained) = Return b)
  /\ (result (acquire 0 drained) = Return true <->
      _is_in_backoff drained 0 = Return false
      /\ fst (_check_hourly_limit (_refill_tokens drained 0) 0) = true
      /\ (1 <= tokens (_refill_tokens drained 0))%Q).
Proof.
  assert (~ (refill_rate drained == 0)%Q) as Hrate by discriminate.
  assert (backoff_overflows drained = false) as Hrange by (vm_compute; reflexivity).
  pose proof (acquire_answers_once drained 0 Hrate Hrange) as (H1 & _ & H2 & _).
  split; [exact H1 | exact H2].
Defined.

(** *** The hourly window *)

Lemma in_window_spec a t :
  in_window a t = true <-> (a <= t)%Q /\ (t <= a + 3600)%Q.
Proof.
  unfold in_window. rewrite andb_true_iff, !Qle_bool_iff. reflexivity.
Qed.

Lemma window_count_app a xs ys :
  window_count a (xs ++ ys) = (window_count a xs + window_count a ys)%nat.
Proof. unfold window_count. rewrite filter_app, length_app. reflexivity. Qed.

Lemma window_count_le_length a xs : (window_count a xs <= length xs)%nat.
Proof. unfold window_count. apply length_filter. Qed.

Lemma window_count_older a c xs :
  (c <= a)%Q -> Forall (fun x => (x < c)%Q) xs -> window_count a xs = 0%nat.
Proof.
  intros Hc Hall. unfold window_count.
  induction Hall as [|x xs Hx _ IH]; [reflexivity|].
  rewrite filter_cons_False; [exact IH|].
  intros Hin. apply in_window_spec in Hin. lra.
Qed.

(** The deque splits into the entries the loop popped, all older than the
    cutoff, and the entries it kept. *)
Lemma popleft_older_split c times :
  exists popped, times = popped ++ popleft_older c times
                 /\ Forall (fun x => (x < c)%Q) popped.
Proof.
  induction times as [|t rest (popped & Heq & Hall)]; cbn.
  - exists []. split; [reflexivity | constructor].
  - destruct (Qltb t c) eqn:E.
    + exists (t :: popped). split; [cbn; congruence|].
      constructor; [apply Qltb_lt; exact E | exact Hall].
    + exists []. split; [reflexivity | constructor].
Qed.

Lemma popleft_older_sorted c times :
  StronglySorted Qle times -> StronglySorted Qle (popleft_older c times).
Proof.
  induction 1 as [|t rest Hs IH Hall]; cbn; [constructor|].
  destruct (Qltb t c); [exact IH | constructor; assumption].
Qed.

Lemma popleft_older_recent c times :
  StronglySorted Qle times -> Forall (fun x => (c <= x)%Q) (popleft_older c times).
Proof.
  induction 1 as [|t rest Hs IH Hall]; cbn; [constructor|].
  destruct (Qltb t c) eqn:E; [exact IH|].
  apply Qltb_ge in E. constructor; [exact E|].
  eapply Forall_impl; [exact Hall|]. cbn. intros x Hx. lra.
Qed.

Lemma popleft_older_bound c t times :
  Forall (fun x => (x <= t)%Q) times -> Forall (fun x => (x <= t)%Q) (popleft_older c times).
Proof.
  induction 1 as [|x rest Hx Hall IH]; cbn; [constructor|].
  destruct (Qltb x c); [exact IH | constructor; assumption].
Qed.

Lemma sorted_snoc times now :
  StronglySorted Qle times -> Forall (fun x => (x <= now)%Q) times ->
  StronglySorted Qle (times ++ [now]).
Proof.
  induction 1 as [|t rest Hs IH Hall]; intros Hb; cbn.
  - repeat constructor.
  - apply Forall_cons_1 in Hb as [Ht Hb]. constructor; [apply IH; exact Hb|].
    apply Forall_app. split; [exact Hall | repeat constructor; exact Ht].
Qed.

Lemma window_ok_later cfg t t' adm self :
  (t <= t')%Q -> window_ok cfg t adm self -> window_ok cfg t' adm self.
Proof.
  intros Hle [Hc (old & Heq & Hold) Hp Hs Hcap]. split; try assumption.
  - exists old. split; [exact Heq|].
    eapply Forall_impl; [exact Hold|]. cbn. intros x Hx. lra.
  - eapply Forall_impl; [exact Hp|]. cbn. intros x Hx. lra.
Qed.

Lemma window_ok_same_times cfg t adm self self' :
  config self' = config self -> request_times self' = request_times self ->
  window_ok cfg t adm self -> window_ok cfg t adm self'.
Proof.
  intros Hc Hr [Hcfg Hsuf Hp Hs Hcap]. split; rewrite ?Hr, ?Hc; assumption.
Qed.

Lemma window_ok_pruned cfg t adm self now :
  (t <= now)%Q -> window_ok cfg t adm self ->
  window_ok cfg now adm
    (set_request_times self (popleft_older (now - 3600) (request_times self))).
Proof.
  intros Hle Hok. apply (window_ok_later _ _ now) in Hok; [|exact Hle].
  destruct Hok as [Hc (old & Heq & Hold) Hp Hs Hcap].
  destruct (popleft_older_split (now - 3600) (request_times self))
    as (popped & Hsplit & Hpopped).
  split; cbn; try assumption.
  - exists (old ++ popped). split.
    + rewrite <- app_assoc, <- Hsplit. exact Heq.
    + apply Forall_app. split; assumption.
  - apply popleft_older_bound. exact Hp.
  - apply popleft_older_sorted. exact Hs.
Qed.

Lemma acquire_window_ok cfg t adm self now :
  (t <= now)%Q -> window_ok cfg t adm self ->
  window_ok cfg now (adm ++ admitted_now now self) (limiter (acquire now self)).
Proof.
  intros Hle Hok. unfold admitted_now.
  destruct (_is_in_backoff self now) as [[|]|e] eqn:Hb.
  1,3: destruct (acquire_untouched self now ltac:(rewrite Hb; discriminate)) as [-> Hres];
       destruct (result (acquire now self)) as [[|]|]; try contradiction;
       rewrite app_nil_r; apply (window_ok_later _ t); assumption.
  rewrite (acquire_not_in_backoff _ _ Hb). cbn zeta.
  set (r := _refill_tokens self now).
  assert (window_ok cfg t adm r) as Hr.
  { apply (window_ok_same_times _ _ _ self); [reflexivity | reflexivity | exact Hok]. }
  pose proof (window_ok_pruned _ _ _ _ _ Hle Hr) as Hp.
  unfold _check_hourly_limit. cbn [fst snd].
  set (p := set_request_times r _) in *.
  destruct (Z.of_nat (length (request_times p)) <? requests_per_hour (config r)) eqn:Hroom;
    cbn [negb]; [|cbn; rewrite app_nil_r; exact Hp].
  destruct (Qle_bool 1 (tokens r)).
  2:{ destruct (Qeq_bool _ 0); cbn; rewrite app_nil_r; exact Hp. }
  cbn [result limiter].
  apply Z.ltb_lt in Hroom.
  destruct Hp as [Hc (old & Heq & Hold) Hpast Hs Hcap].
  change (config r) with (config p) in Hroom. rewrite Hc in Hroom.
  split; cbn.
  - exact Hc.
  - exists old. split; [rewrite Heq, app_assoc; reflexivity | exact Hold].
  - apply Forall_app. split; [exact Hpast | repeat constructor; lra].
  - apply sorted_snoc; assumption.
  - intros a. rewrite window_count_app.
    destruct (in_window a now) eqn:Hin.
    + apply in_window_spec in Hin.
      rewrite Heq, window_count_app.
      rewrite (window_count_older a (now - 3600) old); [|lra | exact Hold].
      pose proof (window_count_le_length a (request_times p)).
      pose proof (window_count_le_length a [now]). cbn in *. lia.
    + specialize (Hcap a).
      assert (window_count a [now] = 0%nat) as ->; [|lia].
      unfold window_count. rewrite filter_cons_False; [reflexivity|].
      rewrite Hin. discriminate.
Qed.

Lemma step_window_ok cfg t adm o self :
  window_ok cfg t adm self ->
  match o with
  | OpRecordSuccess => window_ok cfg t adm (step self o)
  | OpAcquire now =>
      (t <= now)%Q -> window_ok cfg now (adm ++ admitted_now now self) (step self o)
  | OpRecordFailure now | OpGetStatus now =>
      (t <= now)%Q -> window_ok cfg now adm (step self o)
  end.
Proof.
  intros Hok. destruct o as [now| |now|now]; cbn [step].
  - intros Hle. apply (acquire_window_ok _ t); assumption.
  - apply (window_ok_same_times _ _ _ self); [reflexivity | reflexivity | exact Hok].
  - intros Hle. apply (window_ok_later _ t); [exact Hle|].
    apply (window_ok_same_times _ _ _ self); [reflexivity | reflexivity | exact Hok].
  - intros Hle. cbn [get_status snd]. apply (window_ok_later _ t); [exact Hle|].
    apply (window_ok_same_times _ _ _ self); [reflexivity | reflexivity | exact Hok].
Qed.

Lemma run_window_ok cfg ops : forall t adm self,
  clock_monotone t ops -> window_ok cfg t adm self ->
  exists t', window_ok cfg t' (adm ++ admitted_times ops self) (run ops self).
Proof.
  induction ops as [|o ops IH]; intros t adm self Hm Hok; cbn [admitted_times run fold_left].
  - exists t. rewrite app_nil_r. exact Hok.
  - pose proof (step_window_ok cfg t adm o self Hok) as Hs.
    destruct o as [now| |now|now]; cbn [clock_monotone] in Hm;
      try (destruct Hm as [Hle Hm]; specialize (Hs Hle)).
    + rewrite app_assoc. apply (IH _ _ _ Hm Hs).
    + apply (IH _ _ _ Hm Hs).
    + apply (IH _ _ _ Hm Hs).
    + apply (IH _ _ _ Hm Hs).
Qed.

Lemma init_window_ok cfg t0 :
  0 <= requests_per_hour cfg -> window_ok cfg t0 [] (init cfg t0).
Proof.
  intros Hrph. split; cbn.
  - reflexivity.
  - exists []. split; [reflexivity | constructor].
  - constructor.
  - constructor.
  - intros a. exact Hrph.
Qed.

(** C6, as stated, fails: at time 2 the window of [hour_used_up] holds its
    two allowed entries, both younger than an hour, and [acquire] answers
    [False] without sleeping; the call is dropped, not retried. *)
Lemma full_hour_drops_the_call :
  Z.of_nat (length (request_times hour_used_up)) = requests_per_hour (config hour_used_up)
  /\ _is_in_backoff hour_used_up 2 = Return false
  /\ result (acquire 2 hour_used_up) = Return false
  /\ slept (acquire 2 hour_used_up) = None
  /\ request_times (limiter (acquire 2 hour_used_up)) = [0%Q; 1%Q].
Proof. repeat split; reflexivity. Qed.

(** C6, amended. For a limiter whose [requests_per_hour] is not negative and
    whose clock does not run backwards, no window of 60 minutes holds more
    than [requests_per_hour] admitted calls. An [acquire] outside the backoff
    window leaves in the sliding window only entries that are at most an hour
    old; when the pruned window already holds [requests_per_hour] entries it
    answers [False] at once, without suspending and without retrying. *)
Theorem hourly_window_cap (cfg : RateLimitConfig) (t0 : Q) (ops : list Op) :
  0 <= requests_per_hour cfg ->
  clock_monotone t0 ops ->
  (forall a,
      Z.of_nat (window_count a (admitted_times ops (init cfg t0)))
      <= requests_per_hour cfg)
  /\ (forall now,
        _is_in_backoff (run ops (init cfg t0)) now = Return false ->
        Forall (fun x => (now - 3600 <= x)%Q)
               (request_times (limiter (acquire now (run ops (init cfg t0))))))
  /\ (forall now,
        _is_in_backoff (run ops (init cfg t0)) now = Return false ->
        requests_per_hour cfg
        <= Z.of_nat (length (popleft_older (now - 3600)
                               (request_times (run ops (init cfg t0))))) ->
        result (acquire now (run ops (init cfg t0))) = Return false
        /\ slept (acquire now (run ops (init cfg t0))) = None).
Proof.
  intros Hrph Hm.
  destruct (run_window_ok cfg ops t0 [] (init cfg t0) Hm (init_window_ok _ _ Hrph))
    as (t' & Hok).
  cbn [app] in Hok. destruct Hok as [Hc _ _ Hs Hcap].
  set (self := run ops (init cfg t0)) in *.
  split; [exact Hcap|]. split.
  - intros now Hb. rewrite (acquire_not_in_backoff _ _ Hb). cbn zeta.
    pose proof (popleft_older_recent (now - 3600) _ Hs) as Hrecent.
    unfold _check_hourly_limit. cbn [fst snd].
    destruct (negb _); [exact Hrecent|].
    destruct (Qle_bool 1 _).
    + cbn. apply Forall_app. split; [exact Hrecent | repeat constructor; lra].
    + destruct (Qeq_bool _ 0); exact Hrecent.
  - intros now Hb Hfull. rewrite (acquire_not_in_backoff _ _ Hb). cbn zeta.
    unfold _check_hourly_limit. cbn [fst snd].
    cbn [request_times set_request_times config _refill_tokens set_tokens].
    rewrite Hc.
    assert ((Z.of_nat (length (popleft_older (now - 3600) (request_times self)))
             <? requests_per_hour cfg) = false) as ->.
    { apply Z.ltb_ge. exact Hfull. }
    cbn. split; reflexivity.
Qed.

Lemma hourly_window_cap_witness :
  Z.of_nat (window_count 0 (admitted_times [OpAcquire 0; OpAcquire 1; OpAcquire 2]
                              (init cfg_two_per_hour 0)))
  <= 2
  /\ result (acquire 2 hour_used_up) = Return false.
Proof.
  assert (clock_monotone 0 [OpAcquire 0; OpAcquire 1; OpAcquire 2]) as Hm.
  { cbn. repeat split; discriminate. }
  assert (clock_monotone 0 [OpAcquire 0; OpAcquire 1]) as Hm2.
  { cbn. repeat split; discriminate. }
  split.
  - apply (hourly_window_cap cfg_two_per_hour 0 _ ltac:(cbn; lia) Hm).
  - apply (hourly_window_cap cfg_two_per_hour 0 [OpAcquire 0; OpAcquire 1]
             ltac:(cbn; lia) Hm2); [reflexivity | vm_compute; discriminate].
Defined.

(** *** Rate-limited calls *)

(** C10, as stated, fails for a plain function behind the decorator. The
    call is admitted and the function runs and returns [None], but the
    wrapper awaits that [None]: the caller gets a [TypeError], not [None], and
    a failure is recorded. For such a function a [None] from the wrapper can
    only mean that the call was dropped. *)
Lemma plain_function_none_is_not_returned :
  result (fst (global_acquire noon "linkedin" global_init)) = Return true
  /\ body_of plain_counting 0%nat = (Return PyNone, 1%nat)
  /\ seen (rate_limited "linkedin" plain_counting noon global_init 0%nat)
     = Raise (TypeError "object NoneType can't be used in 'await' expression")
  /\ seen (rate_limited "linkedin" plain_counting noon global_init 0%nat)
     <> Return PyNone
  /\ world (rate_limited "linkedin" plain_counting noon global_init 0%nat) = 1%nat
  /\ consecutive_failures
       <$> limiters (registry (rate_limited "linkedin" plain_counting noon
                                 global_init 0%nat)) !! "linkedin"
     = Some 1%nat
  /\ seen (rate_limited "probe" plain_counting noon registry_drained 0%nat)
     = Return PyNone.
Proof.
  split; [vm_compute; reflexivity|]. split; [reflexivity|].
  split; [vm_compute; reflexivity|]. split; [vm_compute; discriminate|].
  split; [vm_compute; reflexivity|]. split; vm_compute; reflexivity.
Qed.

(** C10, amended. Whenever [acquire] does not admit the call,
    [with_rate_limit] and the wrapper made by [rate_limited] return [None] and
    leave the world of the callable as it was: the callable is not invoked,
    whatever it is. When the call is admitted and the callable itself returns
    [None], the caller of [with_rate_limit] sees the same [None], and so does
    the caller of the wrapper of a coroutine function. *)
Theorem refused_call_returns_none {W : Type} (clk : Clock) (service : string)
    (func : Callable W) (g : GlobalRateLimiter) (w : W) :
  (result (fst (global_acquire clk service g)) = Return false ->
   with_rate_limit clk service func g w
     = {| seen := Return PyNone; world := w;
          registry := snd (global_acquire clk service g) |}
   /\ rate_limited service func clk g w
     = {| seen := Return PyNone; world := w;
          registry := snd (global_acquire clk service g) |})
  /\ (result (fst (global_acquire clk service g)) = Return true ->
      forall w', body_of func w = (Return PyNone, w') ->
      seen (with_rate_limit clk service func g w) = Return PyNone
      /\ (iscoroutinefunction func = true ->
          seen (rate_limited service func clk g w) = Return PyNone)).
Proof.
  unfold with_rate_limit, rate_limited.
  destruct (global_acquire clk service g) as [a g']. cbn [fst snd].
  split.
  - intros ->. split; reflexivity.
  - intros -> w' Hbody.
    destruct func as [body|body]; unfold await_call, py_call;
      cbn [body_of iscoroutinefunction await] in *;
      rewrite Hbody; cbn [seen].
    + split; reflexivity.
    + split; [reflexivity | discriminate].
Qed.

Lemma refused_call_returns_none_witness :
  seen (with_rate_limit noon "probe" counting registry_drained 0%nat) = Return PyNone
  /\ world (with_rate_limit noon "probe" counting registry_drained 0%nat) = 0%nat
  /\ world (rate_limited "probe" plain_counting noon registry_drained 0%nat) = 0%nat.
Proof.
  assert (result (fst (global_acquire noon "probe" registry_drained)) = Return false)
    as Hrefused by (vm_compute; reflexivity).
  destruct (refused_call_returns_none noon "probe" counting registry_drained 0%nat)
    as [Hdrop _].
  destruct (refused_call_returns_none noon "probe" plain_counting registry_drained 0%nat)
    as [Hplain _].
  destruct (Hdrop Hrefused) as [-> _]. destruct (Hplain Hrefused) as [_ ->].
  repeat split.
Defined.

End RateLimitFacts.

(** * Properties of the batch orchestrator *)

Module WorkflowFacts.
Import Workflow.

(** Unfolding of the monad of the pipeline *)
Ltac run_m :=
  cbv beta iota zeta delta
    [mbind M_bind mret M_ret try_except raise call update modify get job_result notify
     begin_step set_step_status set_step_error fail_step
     _get_existing_filter_result _load_default_filter_criteria];
  cbn [jr trace].

Ltac simpl_result :=
  unfold set_overall_status, set_steps, set_filter_result, set_customization_result,
    set_contact_result, set_email_results, set_document_package, failed_with;
  cbn [jr trace job_id job_title company_name overall_status steps filter_result
       customization_result contact_result email_results document_package
       name status error_message str_exn exn_msg Exception].

(** Every stage has the same frame: the step is entered in
    [job_result.steps], the body runs, and what the body raises is turned
    into a failed step. A stage never raises. *)
Lemma stage_outcome (nm : string) (body : M PState unit) (s : PState) :
  (begin_step nm;; try_except body (fail_step nm)) s =
  match body {| jr := set_steps
                        (<[nm := {| name := nm; status := IN_PROGRESS;
                                    error_message := None |}]> (steps (jr s))) (jr s);
                trace := trace s |} with
  | (Return a, s1) => (Return a, s1)
  | (Raise e, s1) =>
      (Return tt,
       {| jr := set_steps (alter (failed_with (str_exn e)) nm (steps (jr s1))) (jr s1);
          trace := trace s1 |})
  end.
Proof.
  run_m. destruct (body _) as [[a|e] s1]; [reflexivity|].
  simpl_result. rewrite alter_alter_eq. reflexivity.
Qed.

Ltac simpl_result_in H :=
  unfold set_overall_status, set_steps, set_filter_result, set_customization_result,
    set_contact_result, set_email_results, set_document_package, failed_with in H;
  cbn [jr trace job_id job_title company_name overall_status steps filter_result
       customization_result contact_result email_results document_package
       name status error_message str_exn exn_msg Exception] in H.

(** Case analysis on what the collaborators answer *)
Ltac split_answer :=
  match goal with
  | |- context [match ?x with _ => _ end] =>
      lazymatch x with
      | context [match _ with _ => _ end] => fail
      | _ => destruct x eqn:?
      end
  end;
  cbv beta iota; cbn [jr trace].

Ltac split_answers := repeat split_answer.

Ltac tidy_state :=
  simpl_result; rewrite ?alter_insert_eq; simpl_result; rewrite <- ?app_assoc.

(** The Filter stage: it writes its own step and [filter_result], and calls
    no collaborator of a later stage. *)
Lemma filtering_step_spec env job_data criteria s :
  exists st fr evs,
    _execute_filtering_step env job_data criteria s =
      (Return tt,
       {| jr := set_filter_result fr
                  (set_steps (<["filtering" := st]> (steps (jr s))) (jr s));
          trace := trace s ++ evs |})
    /\ name st = "filtering"
    /\ quiet evs
    /\ ((status st = COMPLETED /\ error_message st = None /\ fr <> None)
        \/ (status st = FAILED /\ fr = filter_result (jr s))).
Proof.
  unfold _execute_filtering_step. rewrite stage_outcome. run_m.
  split_answers; tidy_state.
  all: eexists _, _, _; split; [reflexivity|]; split; [reflexivity|].
  all: split; [repeat constructor|].
  all: try (right; split; reflexivity).
  all: left; repeat split; try discriminate.
  all: intros ->; discriminate.
Qed.

(** The résumé stage *)
Lemma resume_step_spec env job_data s :
  exists st cr evs,
    _execute_resume_customization_step env job_data s =
      (Return tt,
       {| jr := set_customization_result cr
                  (set_steps (<["resume_customization" := st]> (steps (jr s))) (jr s));
          trace := trace s ++ evs |})
    /\ name st = "resume_customization"
    /\ ((status st = COMPLETED /\ error_message st = None /\ cr <> None)
        \/ (status st = FAILED /\ cr = customization_result (jr s))).
Proof.
  unfold _execute_resume_customization_step. rewrite stage_outcome. run_m.
  split_answers; tidy_state.
  all: eexists _, _, _; split; [reflexivity|]; split; [reflexivity|].
  all: try (right; split; reflexivity).
  all: left; repeat split; discriminate.
Qed.

(** The contact stage *)
Lemma contact_step_spec env job_data s :
  exists st found evs,
    _execute_contact_finding_step env job_data s =
      (Return tt,
       {| jr := set_contact_result found
                  (set_steps (<["contact_finding" := st]> (steps (jr s))) (jr s));
          trace := trace s ++ evs |})
    /\ name st = "contact_finding"
    /\ ((status st = COMPLETED /\ error_message st = None /\ found <> None)
        \/ (status st = FAILED /\ found = contact_result (jr s))).
Proof.
  unfold _execute_contact_finding_step. rewrite stage_outcome. run_m.
  split_answers; tidy_state.
  all: eexists _, _, _; split; [reflexivity|]; split; [reflexivity|].
  all: try (right; split; reflexivity).
  all: left; repeat split; discriminate.
Qed.

(** The loop of the e-mail stage only appends to [email_results]; it calls
    the generator once per contact, in order, until a call raises, each time
    with the résumé customization the job has at that point, present or not. *)
Lemma generate_emails_spec env job_data template_name top_contacts : forall s,
  exists o emails called,
    generate_emails env job_data template_name top_contacts s =
      (o, {| jr := set_email_results (email_results (jr s) ++ emails) (jr s);
             trace := trace s ++ ((fun c => CallGenerateEmail
                                     (email_request_for (jr s) job_data template_name c))
                                  <$> called) |})
    /\ called `prefix_of` top_contacts
    /\ head called = head top_contacts
    /\ (o = Return tt -> called = top_contacts).
Proof.
  induction top_contacts as [|c rest IH]; intros s.
  - exists (Return tt), [], []. cbn. rewrite !app_nil_r.
    split; [destruct s as [[] ?]; reflexivity|]. repeat split; reflexivity.
  - cbn [generate_emails]. run_m. fold (email_request_for (jr s) job_data template_name c).
    destruct (generate_email env _) as [[email|]|e]; cbn [jr trace].
    + destruct (IH {| jr := set_email_results (email_results (jr s) ++ [email]) (jr s);
                      trace := trace s ++ [CallGenerateEmail
                                 (email_request_for (jr s) job_data template_name c)] |})
        as (o & emails & called & Heq & Hpre & _ & Hall).
      rewrite Heq. exists o, (email :: emails), (c :: called).
      simpl_result. rewrite <- !app_assoc. cbn [fmap list_fmap app].
      split; [reflexivity|]. split; [apply prefix_cons; exact Hpre|].
      split; [reflexivity|].
      intros Ho. rewrite (Hall Ho). reflexivity.
    + destruct (IH {| jr := jr s;
                      trace := trace s ++ [CallGenerateEmail
                                 (email_request_for (jr s) job_data template_name c)] |})
        as (o & emails & called & Heq & Hpre & _ & Hall).
      rewrite Heq. exists o, emails, (c :: called).
      simpl_result. rewrite <- !app_assoc. cbn [fmap list_fmap app].
      split; [reflexivity|]. split; [apply prefix_cons; exact Hpre|].
      split; [reflexivity|].
      intros Ho. rewrite (Hall Ho). reflexivity.
    + exists (Raise e), [], [c]. simpl_result. rewrite app_nil_r. cbn [fmap list_fmap].
      split; [destruct s as [[] ?]; reflexivity|].
      split; [apply prefix_cons, prefix_nil|]. split; [reflexivity | discriminate].
Qed.

Lemma generate_emails_all_generated env job_data template_name top_contacts : forall s,
  (forall c, c ∈ top_contacts ->
     exists email, generate_email env (email_request_for (jr s) job_data template_name c)
                   = Return (Some email)) ->
  exists emails,
    generate_emails env job_data template_name top_contacts s =
      (Return tt,
       {| jr := set_email_results (email_results (jr s) ++ emails) (jr s);
          trace := trace s ++ ((fun c => CallGenerateEmail
                                  (email_request_for (jr s) job_data template_name c))
                               <$> top_contacts) |})
    /\ length emails = length top_contacts.
Proof.
  induction top_contacts as [|c rest IH]; intros s Hall.
  - exists []. cbn. rewrite !app_nil_r. split; [destruct s as [[] ?]; reflexivity|reflexivity].
  - cbn [generate_emails]. run_m. fold (email_request_for (jr s) job_data template_name c).
    destruct (Hall c) as [email ->]; [left|]. cbn [jr trace].
    destruct (IH {| jr := set_email_results (email_results (jr s) ++ [email]) (jr s);
                    trace := trace s ++ [CallGenerateEmail
                               (email_request_for (jr s) job_data template_name c)] |})
      as (emails & Heq & Hlen).
    { intros c' Hc'. apply Hall. right. exact Hc'. }
    rewrite Heq. exists (email :: emails).
    simpl_result. rewrite <- !app_assoc. cbn [fmap list_fmap app length].
    split; [reflexivity | congruence].
Qed.

(** The e-mail stage without a contact: the step fails on the spot and the
    generator is not called. *)
Lemma email_step_no_contacts env job_data template_name s :
  (contact_result (jr s) = None
   \/ exists found, contact_result (jr s) = Some found /\ contacts found = []) ->
  _execute_email_generation_step env job_data template_name s =
    (Return tt,
     {| jr := set_steps (<["email_generation" :=
                            dependency_missing "email_generation" no_contacts_message]>
                           (steps (jr s))) (jr s);
        trace := trace s |}).
Proof.
  intros H. unfold _execute_email_generation_step. rewrite stage_outcome. run_m.
  simpl_result.
  destruct H as [-> | (found & -> & ->)]; tidy_state; reflexivity.
Qed.

(** The e-mail stage with contacts: the generator is called for the first
    three contacts at most, in order, stopping at the first call that raises;
    only the step and [email_results] change. *)
Lemma email_step_with_contacts env job_data template_name s found c rest :
  contact_result (jr s) = Some found -> contacts found = c :: rest ->
  exists st emails called,
    _execute_email_generation_step env job_data template_name s =
      (Return tt,
       {| jr := set_email_results (email_results (jr s) ++ emails)
                  (set_steps (<["email_generation" := st]> (steps (jr s))) (jr s));
          trace := trace s ++ ((fun c => CallGenerateEmail
                                  (email_request_for (jr s) job_data template_name c))
                               <$> called) |})
    /\ name st = "email_generation"
    /\ called `prefix_of` take 3 (c :: rest)
    /\ head called = Some c
    /\ (status st = COMPLETED \/ status st = FAILED)
    /\ (status st = COMPLETED ->
        called = take 3 (c :: rest) /\ email_results (jr s) ++ emails <> []).
Proof.
  intros Hfound Hcontacts.
  unfold _execute_email_generation_step. rewrite stage_outcome. run_m.
  simpl_result. rewrite Hfound, Hcontacts.
  match goal with
  | |- context [generate_emails _ _ _ _ ?s0] =>
      destruct (generate_emails_spec env job_data template_name (take 3 (c :: rest)) s0)
        as (o & emails & called & Heq & Hpre & Hhead & Hall); rewrite Heq
  end.
  destruct o as [[]|e]; cbv beta iota; cbn [jr trace].
  - simpl_result.
    destruct (email_results (jr s) ++ emails) eqn:Hemails; tidy_state.
    + eexists _, emails, called. rewrite Hemails.
      split; [reflexivity|]. split; [reflexivity|]. split; [exact Hpre|].
      split; [exact Hhead|]. split; [right; reflexivity | discriminate].
    + eexists _, emails, called. rewrite Hemails.
      split; [reflexivity|]. split; [reflexivity|]. split; [exact Hpre|].
      split; [exact Hhead|].
      split; [left; reflexivity|]. intros _. split; [auto | discriminate].
  - tidy_state. eexists _, emails, called.
    split; [reflexivity|]. split; [reflexivity|]. split; [exact Hpre|].
    split; [exact Hhead|]. split; [right; reflexivity | discriminate].
Qed.

(** The e-mail stage when the generator answers with an e-mail for each of
    the first three contacts: the step completes, whether or not the résumé
    customization is there. *)
Lemma email_step_generated env job_data template_name s found c rest :
  contact_result (jr s) = Some found -> contacts found = c :: rest ->
  (forall c', c' ∈ take 3 (c :: rest) ->
     exists email, generate_email env (email_request_for (jr s) job_data template_name c')
                   = Return (Some email)) ->
  exists emails,
    _execute_email_generation_step env job_data template_name s =
      (Return tt,
       {| jr := set_email_results (email_results (jr s) ++ emails)
                  (set_steps (<["email_generation" :=
                                 {| name := "email_generation"; status := COMPLETED;
                                    error_message := None |}]> (steps (jr s))) (jr s));
          trace := trace s ++ ((fun c => CallGenerateEmail
                                  (email_request_for (jr s) job_data template_name c))
                               <$> take 3 (c :: rest)) |})
    /\ length emails = length (take 3 (c :: rest)).
Proof.
  intros Hfound Hcontacts Hall.
  unfold _execute_email_generation_step. rewrite stage_outcome. run_m.
  simpl_result. rewrite Hfound, Hcontacts.
  match goal with
  | |- context [generate_emails _ _ _ _ ?s0] =>
      destruct (generate_emails_all_generated env job_data template_name
                  (take 3 (c :: rest)) s0 Hall) as (emails & Heq & Hlen); rewrite Heq
  end.
  cbv beta iota; cbn [jr trace]. simpl_result.
  exists emails. split; [|exact Hlen].
  destruct emails as [|e emails]; [discriminate Hlen|].
  destruct (email_results (jr s)); cbn [app]; tidy_state; reflexivity.
Qed.

(** The document stage without a customized résumé: the step fails on the
    spot and the document generator is not called. *)
Lemma document_step_no_resume env job_data formats s :
  customization_result (jr s) = None ->
  _execute_document_generation_step env job_data formats s =
    (Return tt,
     {| jr := set_steps (<["document_generation" :=
                            dependency_missing "document_generation" no_resume_message]>
                           (steps (jr s))) (jr s);
        trace := trace s |}).
Proof.
  intros H. unfold _execute_document_generation_step. rewrite stage_outcome. run_m.
  simpl_result. rewrite H. tidy_state. reflexivity.
Qed.

(** The document stage *)
Lemma document_step_spec env job_data formats s :
  exists st pkg evs,
    _execute_document_generation_step env job_data formats s =
      (Return tt,
       {| jr := set_document_package pkg
                  (set_steps (<["document_generation" := st]> (steps (jr s))) (jr s));
          trace := trace s ++ evs |})
    /\ name st = "document_generation"
    /\ (status st = COMPLETED \/ status st = FAILED).
Proof.
  unfold _execute_document_generation_step. rewrite stage_outcome. run_m.
  split_answers; tidy_state.
  all: try (eexists _, _, []; rewrite app_nil_r; split; [reflexivity|]; split;
            [reflexivity|]; auto; fail).
  all: eexists _, _, _; split; [reflexivity|]; split; [reflexivity|]; auto.
Qed.

(** The e-mail stage, whatever the contacts *)
Lemma email_step_spec env job_data template_name s :
  exists st emails evs,
    _execute_email_generation_step env job_data template_name s =
      (Return tt,
       {| jr := set_email_results emails
                  (set_steps (<["email_generation" := st]> (steps (jr s))) (jr s));
          trace := trace s ++ evs |})
    /\ name st = "email_generation"
    /\ (status st = COMPLETED \/ status st = FAILED).
Proof.
  destruct (contact_result (jr s)) as [found|] eqn:Hfound.
  - destruct (contacts found) as [|c rest] eqn:Hcontacts.
    + rewrite email_step_no_contacts; [|right; eauto].
      eexists _, (email_results (jr s)), []. rewrite app_nil_r.
      split; [destruct s as [[] ?]; reflexivity|]. split; [reflexivity | right; reflexivity].
    + destruct (email_step_with_contacts env job_data template_name s _ _ _
                  Hfound Hcontacts) as (st & emails & called & -> & Hn & _ & _ & Hst & _).
      eexists _, _, _. split; [reflexivity|]. split; assumption.
  - rewrite email_step_no_contacts; [|left; exact Hfound].
    eexists _, (email_results (jr s)), []. rewrite app_nil_r.
    split; [destruct s as [[] ?]; reflexivity|]. split; [reflexivity | right; reflexivity].
Qed.

(** *** The pipeline of one job, stage by stage *)

(** Steps 2 to 5 run one after the other, each from the state the previous
    one left, and none of them raises. *)
Lemma later_stages_run env request job_data s :
  exists s1 s2 s3 s4,
    optional (enable_resume_customization request)
      (_execute_resume_customization_step env job_data) s = (Return tt, s1)
    /\ optional (enable_contact_finding request)
         (_execute_contact_finding_step env job_data) s1 = (Return tt, s2)
    /\ optional (enable_email_generation request)
         (_execute_email_generation_step env job_data (email_template request)) s2
       = (Return tt, s3)
    /\ optional (enable_document_generation request)
         (_execute_document_generation_step env job_data (document_formats request)) s3
       = (Return tt, s4)
    /\ later_stages env request job_data s = (Return false, finished s4).
Proof.
  assert (exists s1, optional (enable_resume_customization request)
            (_execute_resume_customization_step env job_data) s = (Return tt, s1))
    as [s1 H1].
  { unfold optional. destruct (enable_resume_customization request); [|eexists; reflexivity].
    destruct (resume_step_spec env job_data s) as (? & ? & ? & -> & _). eauto. }
  assert (exists s2, optional (enable_contact_finding request)
            (_execute_contact_finding_step env job_data) s1 = (Return tt, s2))
    as [s2 H2].
  { unfold optional. destruct (enable_contact_finding request); [|eexists; reflexivity].
    destruct (contact_step_spec env job_data s1) as (? & ? & ? & -> & _). eauto. }
  assert (exists s3, optional (enable_email_generation request)
            (_execute_email_generation_step env job_data (email_template request)) s2
            = (Return tt, s3)) as [s3 H3].
  { unfold optional. destruct (enable_email_generation request); [|eexists; reflexivity].
    destruct (email_step_spec env job_data (email_template request) s2)
      as (? & ? & ? & -> & _). eauto. }
  assert (exists s4, optional (enable_document_generation request)
            (_execute_document_generation_step env job_data (document_formats request)) s3
            = (Return tt, s4)) as [s4 H4].
  { unfold optional. destruct (enable_document_generation request); [|eexists; reflexivity].
    destruct (document_step_spec env job_data (document_formats request) s3)
      as (? & ? & ? & -> & _). eauto. }
  exists s1, s2, s3, s4. repeat (split; [assumption|]).
  unfold later_stages.
  change (if enable_resume_customization request
          then _execute_resume_customization_step env job_data else mret ())
    with (optional (enable_resume_customization request)
            (_execute_resume_customization_step env job_data)).
  change (if enable_contact_finding request
          then _execute_contact_finding_step env job_data else mret ())
    with (optional (enable_contact_finding request)
            (_execute_contact_finding_step env job_data)).
  change (if enable_email_generation request
          then _execute_email_generation_step env job_data (email_template request)
          else mret ())
    with (optional (enable_email_generation request)
            (_execute_email_generation_step env job_data (email_template request))).
  change (if enable_document_generation request
          then _execute_document_generation_step env job_data (document_formats request)
          else mret ())
    with (optional (enable_document_generation request)
            (_execute_document_generation_step env job_data (document_formats request))).
  run_m. rewrite H1. cbv beta iota. rewrite H2. cbv beta iota.
  rewrite H3. cbv beta iota. rewrite H4. reflexivity.
Qed.

(** Step 1 and the early [return] of a rejected job *)
Lemma pipeline_run env request job_data s :
  pipeline env request job_data s =
  if enable_filtering request then
    let s0 := snd (_execute_filtering_step env job_data (filter_criteria request) s) in
    if bool_decide (filter_result (jr s0) = Some "reject") then
      (Return true, {| jr := set_overall_status SKIPPED (jr s0); trace := trace s0 |})
    else later_stages env request job_data s0
  else later_stages env request job_data s.
Proof.
  unfold pipeline. destruct (enable_filtering request); [|reflexivity].
  destruct (filtering_step_spec env job_data (filter_criteria request) s)
    as (st & fr & evs & Heq & _).
  run_m. rewrite Heq. cbv beta iota zeta. cbn [snd jr trace].
  destruct (bool_decide _); reflexivity.
Qed.

(** The [try] block never raises: every stage catches what its collaborator
    raises. *)
Lemma pipeline_returns env request job_data s :
  exists b s', pipeline env request job_data s = (Return b, s').
Proof.
  rewrite pipeline_run.
  destruct (enable_filtering request); cbv zeta;
    [destruct (bool_decide _); [eauto|]|].
  all: match goal with
       | |- context [later_stages _ _ _ ?s0] =>
           destruct (later_stages_run env request job_data s0)
             as (? & ? & ? & ? & _ & _ & _ & _ & ->); eauto
       end.
Qed.

Lemma optional_resume_result enabled env job_data s s' :
  optional enabled (_execute_resume_customization_step env job_data) s = (Return tt, s') ->
  exists cr, stage_result "resume_customization" (set_customization_result cr) s s'.
Proof.
  unfold optional. destruct enabled.
  - destruct (resume_step_spec env job_data s) as (st & cr & evs & -> & Hn & Hst).
    intros [= <-]. exists cr. apply (stage_ran _ _ _ _ st evs); [reflexivity | exact Hn | tauto].
  - intros [= <-]. exists None. apply stage_disabled. reflexivity.
Qed.

Lemma optional_contact_result enabled env job_data s s' :
  optional enabled (_execute_contact_finding_step env job_data) s = (Return tt, s') ->
  exists found, stage_result "contact_finding" (set_contact_result found) s s'.
Proof.
  unfold optional. destruct enabled.
  - destruct (contact_step_spec env job_data s) as (st & found & evs & -> & Hn & Hst).
    intros [= <-]. exists found.
    apply (stage_ran _ _ _ _ st evs); [reflexivity | exact Hn | tauto].
  - intros [= <-]. exists None. apply stage_disabled. reflexivity.
Qed.

Lemma optional_email_result enabled env job_data template_name s s' :
  optional enabled (_execute_email_generation_step env job_data template_name) s
  = (Return tt, s') ->
  exists emails, stage_result "email_generation" (set_email_results emails) s s'.
Proof.
  unfold optional. destruct enabled.
  - destruct (email_step_spec env job_data template_name s)
      as (st & emails & evs & -> & Hn & Hst).
    intros [= <-]. exists emails.
    apply (stage_ran _ _ _ _ st evs); [reflexivity | exact Hn | exact Hst].
  - intros [= <-]. exists []. apply stage_disabled. reflexivity.
Qed.

Lemma optional_document_result enabled env job_data formats s s' :
  optional enabled (_execute_document_generation_step env job_data formats) s
  = (Return tt, s') ->
  exists pkg, stage_result "document_generation" (set_document_package pkg) s s'.
Proof.
  unfold optional. destruct enabled.
  - destruct (document_step_spec env job_data formats s)
      as (st & pkg & evs & -> & Hn & Hst).
    intros [= <-]. exists pkg.
    apply (stage_ran _ _ _ _ st evs); [reflexivity | exact Hn | exact Hst].
  - intros [= <-]. exists None. apply stage_disabled. reflexivity.
Qed.

(** A stage keeps every attribute that neither its artifact nor the
    assignment to [steps] touches. *)
Lemma stage_result_keeps {A} (attribute : JobProcessingResult -> A) nm artifact s s' :
  stage_result nm artifact s s' ->
  (forall r, attribute (artifact r) = attribute r) ->
  (forall v r, attribute (set_steps v r) = attribute r) ->
  attribute (jr s') = attribute (jr s).
Proof.
  intros [-> | st evs -> _ _] Ha Hs; [reflexivity|].
  cbn [jr]. rewrite Ha, Hs. reflexivity.
Qed.

Lemma stage_result_trace nm artifact s s' :
  stage_result nm artifact s s' -> exists evs, trace s' = trace s ++ evs.
Proof.
  intros [-> | st evs -> _ _]; [exists []; rewrite app_nil_r; reflexivity|].
  exists evs. reflexivity.
Qed.

(** A stage writes no other step than its own. *)
Lemma stage_result_other_steps nm artifact s s' k :
  stage_result nm artifact s s' ->
  (forall r, steps (artifact r) = steps r) -> k <> nm ->
  steps (jr s') !! k = steps (jr s) !! k.
Proof.
  intros [-> | st evs -> _ _] Ha Hk; [reflexivity|].
  cbn [jr]. rewrite Ha. cbn [steps set_steps]. apply lookup_insert_ne. congruence.
Qed.

(** The states between steps 2 to 5 *)
Lemma later_stages_results env request job_data s :
  exists s1 s2 s3 s4 cr found emails pkg,
    stage_result "resume_customization" (set_customization_result cr) s s1
    /\ stage_result "contact_finding" (set_contact_result found) s1 s2
    /\ stage_result "email_generation" (set_email_results emails) s2 s3
    /\ stage_result "document_generation" (set_document_package pkg) s3 s4
    /\ later_stages env request job_data s = (Return false, finished s4).
Proof.
  destruct (later_stages_run env request job_data s)
    as (s1 & s2 & s3 & s4 & H1 & H2 & H3 & H4 & Hrun).
  apply optional_resume_result in H1 as [cr H1].
  apply optional_contact_result in H2 as [found H2].
  apply optional_email_result in H3 as [emails H3].
  apply optional_document_result in H4 as [pkg H4].
  exists s1, s2, s3, s4, cr, found, emails, pkg. tauto.
Qed.

(** Steps 2 to 5 leave the filter decision alone. *)
Lemma later_stages_keep_filter_result env request job_data s :
  exists s4,
    later_stages env request job_data s = (Return false, finished s4)
    /\ filter_result (jr s4) = filter_result (jr s)
    /\ job_id (jr s4) = job_id (jr s)
    /\ exists evs, trace s4 = trace s ++ evs.
Proof.
  destruct (later_stages_results env request job_data s)
    as (s1 & s2 & s3 & s4 & cr & found & emails & pkg & H1 & H2 & H3 & H4 & Hrun).
  exists s4. split; [exact Hrun|].
  split; [|split].
  - rewrite (stage_result_keeps filter_result _ _ _ _ H4) by reflexivity.
    rewrite (stage_result_keeps filter_result _ _ _ _ H3) by reflexivity.
    rewrite (stage_result_keeps filter_result _ _ _ _ H2) by reflexivity.
    rewrite (stage_result_keeps filter_result _ _ _ _ H1) by reflexivity.
    reflexivity.
  - rewrite (stage_result_keeps job_id _ _ _ _ H4) by reflexivity.
    rewrite (stage_result_keeps job_id _ _ _ _ H3) by reflexivity.
    rewrite (stage_result_keeps job_id _ _ _ _ H2) by reflexivity.
    rewrite (stage_result_keeps job_id _ _ _ _ H1) by reflexivity.
    reflexivity.
  - destruct (stage_result_trace _ _ _ _ H1) as [e1 E1].
    destruct (stage_result_trace _ _ _ _ H2) as [e2 E2].
    destruct (stage_result_trace _ _ _ _ H3) as [e3 E3].
    destruct (stage_result_trace _ _ _ _ H4) as [e4 E4].
    exists (e1 ++ e2 ++ e3 ++ e4). rewrite E4, E3, E2, E1, <- !app_assoc. reflexivity.
Qed.

(** *** One job *)

Lemma process_single_job_row env request jid tr job_data :
  db_jobs env jid = Row job_data ->
  exists b s',
    pipeline env request job_data (started jid job_data tr) = (Return b, s')
    /\ _process_single_job env request jid tr = (Return (jr s'), trace s').
Proof.
  intros Hrow.
  destruct (pipeline_returns env request job_data (started jid job_data tr))
    as (b & s' & Hp).
  exists b, s'. split; [exact Hp|].
  unfold _process_single_job, _get_job_data. rewrite Hrow. cbn [guarded_select].
  fold (started jid job_data tr). unfold try_except. rewrite Hp. reflexivity.
Qed.

Lemma process_single_job_no_row env request jid tr :
  db_jobs env jid = NoRow \/ db_jobs env jid = QueryFails ->
  _process_single_job env request jid tr
  = (Return (job_not_found jid), tr ++ [DbLoadJob jid]).
Proof.
  intros [H|H]; unfold _process_single_job, _get_job_data; rewrite H; reflexivity.
Qed.

Lemma failed_steps_exist r :
  failed_steps r <> [] <->
  exists nm st, steps r !! nm = Some st /\ status st = FAILED.
Proof.
  unfold failed_steps. split.
  - intros Hne.
    destruct (filter _ _) as [|st rest] eqn:E; [contradiction|].
    assert (st ∈ filter (fun st => status st = FAILED) (snd <$> map_to_list (steps r)))
      as Hin by (rewrite E; left).
    apply list_elem_of_filter in Hin as [Hst Hin].
    apply list_elem_of_fmap in Hin as ([nm st'] & -> & Hin).
    apply elem_of_map_to_list in Hin. eauto.
  - intros (nm & st & Hl & Hst) Hnil.
    assert (st ∈ filter (fun st => status st = FAILED) (snd <$> map_to_list (steps r)))
      as Hin.
    { apply list_elem_of_filter. split; [exact Hst|].
      apply list_elem_of_fmap. exists (nm, st). split; [reflexivity|].
      apply elem_of_map_to_list. exact Hl. }
    rewrite Hnil in Hin. inversion Hin.
Qed.

(** What [_process_single_job] returns, once the job row is there: the
    result of a rejection at step 1, or the result of steps 2 to 5. *)
Lemma process_single_job_cases env request jid tr job_data :
  db_jobs env jid = Row job_data ->
  exists r tr',
    _process_single_job env request jid tr = (Return r, tr')
    /\ ((enable_filtering request = true
         /\ filter_result r = Some "reject"
         /\ overall_status r = SKIPPED
         /\ steps r = {["filtering" := {| name := "filtering"; status := COMPLETED;
                                          error_message := None |}]}
         /\ exists evs, tr' = tr ++ evs /\ quiet evs)
        \/ (filter_result r <> Some "reject"
            /\ overall_status r = match failed_steps r with
                                  | _ :: _ => FAILED
                                  | [] => COMPLETED
                                  end)
        \/ (enable_filtering request = false
            /\ filter_result r = None
            /\ overall_status r = match failed_steps r with
                                  | _ :: _ => FAILED
                                  | [] => COMPLETED
                                  end)).
Proof.
  intros Hrow.
  destruct (process_single_job_row env request jid tr job_data Hrow)
    as (b & s' & Hp & Hjob).
  exists (jr s'), (trace s'). split; [exact Hjob|].
  rewrite pipeline_run in Hp.
  destruct (enable_filtering request) eqn:Hf.
  - cbv zeta in Hp.
    destruct (filtering_step_spec env job_data (filter_criteria request)
                (started jid job_data tr)) as (st & fr & evs & Heq & Hn & Hq & Hst).
    rewrite Heq in Hp. cbn [snd jr trace] in Hp.
    revert Hp. destruct (bool_decide _) eqn:Hrej; intros Hp.
    + left. apply bool_decide_eq_true in Hrej. injection Hp as _ <-.
      simpl_result. simpl_result_in Hrej. split; [reflexivity|]. split; [exact Hrej|].
      split; [reflexivity|].
      destruct Hst as [(Hc & He & _) | (_ & Hfr)];
        [|simpl_result_in Hfr; cbn in Hfr; congruence].
      split.
      * destruct st as [n stt err]. cbn in Hn, Hc, He. subst. apply insert_empty.
      * exists ([DbLoadJob jid; Progress "job_started"] ++ evs).
        unfold started. cbn [trace]. rewrite <- !app_assoc. split; [reflexivity|].
        apply Forall_app. split; [repeat constructor | exact Hq].
    + right. left. apply bool_decide_eq_false in Hrej.
      match type of Hp with
      | later_stages _ _ _ ?s0 = _ =>
          destruct (later_stages_keep_filter_result env request job_data s0)
            as (s4 & Hrun & Hfr & _)
      end.
      rewrite Hrun in Hp. injection Hp as _ <-.
      cbn [finished jr]. simpl_result. rewrite Hfr. split; [exact Hrej | reflexivity].
  - right. right.
    destruct (later_stages_keep_filter_result env request job_data
                (started jid job_data tr)) as (s4 & Hrun & Hfr & _).
    rewrite Hrun in Hp. injection Hp as _ <-.
    cbn [finished jr]. simpl_result. rewrite Hfr. repeat split; reflexivity.
Qed.

(** *** Exceptions out of one job *)

(** Inside the [try] block an exception is contained: the handler gives the
    job the status [FAILED], and adds a [general_error] step only when no
    step was recorded. *)
Lemma try_block_contained (body : M PState bool) (s : PState) :
  exists b s',
    try_except body pipeline_failed s = (Return b, s')
    /\ forall e s1, body s = (Raise e, s1) ->
         overall_status (jr s') = FAILED
         /\ (steps (jr s1) <> ∅ -> steps (jr s') = steps (jr s1)).
Proof.
  unfold try_except. destruct (body s) as [[b|e] s1].
  - exists b, s1. split; [reflexivity | discriminate].
  - unfold pipeline_failed. run_m. simpl_result.
    destruct (bool_decide (steps (jr s1) = ∅)) eqn:E; cbv beta iota; cbn [jr trace].
    + eexists _, _. split; [reflexivity|]. intros ? ? [= <- <-]. simpl_result.
      apply bool_decide_eq_true in E. split; [reflexivity | contradiction].
    + eexists _, _. split; [reflexivity|]. intros ? ? [= <- <-]. simpl_result.
      split; reflexivity.
Qed.

Lemma job_row_connect_fails env request jid tr :
  db_jobs env jid = ConnectFails ->
  _process_single_job env request jid tr
  = (Raise (UnboundLocalError "conn"), tr ++ [DbLoadJob jid]).
Proof.
  intros H. unfold _process_single_job, _get_job_data. rewrite H. reflexivity.
Qed.

(** C4 fails on the code. When the database connection cannot be opened for
    the job row, [_get_job_data] runs its [finally] clause with [conn]
    unbound; the [UnboundLocalError] leaves [_process_single_job], whose
    [try] block starts only after the call, and no job result is returned. *)
Theorem job_row_error_escapes (env : Env) (request : BatchProcessingRequest)
    (jid : Z) (tr : list Event) :
  db_jobs env jid = ConnectFails ->
  _process_single_job env request jid tr
  = (Raise (UnboundLocalError "conn"), tr ++ [DbLoadJob jid]).
Proof. apply job_row_connect_fails. Qed.

Lemma job_row_error_escapes_witness :
  db_jobs env_sample 9 = ConnectFails
  /\ fst (_process_single_job env_sample (request_sample [9; 3]) 9 [])
     = Raise (UnboundLocalError "conn").
Proof.
  split; [reflexivity|].
  rewrite (job_row_error_escapes env_sample (request_sample [9; 3]) 9 [] eq_refl).
  reflexivity.
Defined.

(** In the batch the exception of job 9 is collected by [asyncio.gather]:
    the job is counted as failed, it has no entry in [job_results], and job 3
    still runs to completion. *)
Example batch_with_unreadable_row :
  exists r tr,
    process_jobs_batch env_sample (request_sample [9; 3]) "batch" [] = Some (Return r, tr)
    /\ total_jobs r = 2 /\ successful_jobs r = 1 /\ failed_jobs r = 1
    /\ job_results r !! 9 = None
    /\ overall_status <$> job_results r !! 3 = Some COMPLETED.
Proof. eexists _, _. split; [vm_compute; reflexivity|]. vm_compute. repeat split. Qed.

(** *** The overall status of a job *)

Lemma failed_steps_job_not_found jid : failed_steps (job_not_found jid) <> [].
Proof.
  apply failed_steps_exist. exists "data_loading"%string. eexists.
  split; [apply lookup_singleton_eq | reflexivity].
Qed.

Lemma failed_steps_only_filtering_completed r :
  steps r = {["filtering" := {| name := "filtering"; status := COMPLETED;
                                error_message := None |}]} ->
  failed_steps r = [].
Proof.
  intros H. destruct (failed_steps r) as [|st rest] eqn:E; [reflexivity|].
  assert (failed_steps r <> []) as Hne by (rewrite E; discriminate).
  apply failed_steps_exist in Hne as (nm & st' & Hl & Hst).
  rewrite H in Hl. apply lookup_singleton_Some in Hl as [_ <-]. discriminate.
Qed.

(** C5. Once the job row could be read or was found missing,
    [_process_single_job] returns a result whose overall status is Completed,
    Failed or Skipped. It is Skipped exactly when filtering is enabled and the
    filter decision is ["reject"], and then the Filter stage is the only
    stage that ran. Otherwise it is Completed when no step is Failed and
    Failed when at least one step is Failed. *)
Theorem overall_status_of_job (env : Env) (request : BatchProcessingRequest)
    (jid : Z) (tr : list Event) :
  db_jobs env jid <> ConnectFails ->
  exists r tr',
    _process_single_job env request jid tr = (Return r, tr')
    /\ (overall_status r = COMPLETED \/ overall_status r = FAILED
        \/ overall_status r = SKIPPED)
    /\ (overall_status r = SKIPPED <->
        enable_filtering request = true /\ filter_result r = Some "reject")
    /\ (overall_status r = SKIPPED -> dom (steps r) = {["filtering"]})
    /\ (overall_status r <> SKIPPED ->
        (overall_status r = COMPLETED <-> failed_steps r = [])
        /\ (overall_status r = FAILED <->
            exists nm st, steps r !! nm = Some st /\ status st = FAILED)).
Proof.
  intros Hconn.
  destruct (db_jobs env jid) as [| | |job_data] eqn:Hrow; [contradiction| | |].
  1,2: rewrite process_single_job_no_row by (rewrite Hrow; auto);
       eexists _, _; split; [reflexivity|];
       pose proof (failed_steps_job_not_found jid) as Hne;
       cbn [overall_status job_not_found filter_result];
       split; [auto|]; split; [split; [discriminate | intros [_ ?]; discriminate]|];
       split; [discriminate|]; intros _; split;
       [split; [discriminate | contradiction]
       |split; [intros _; apply failed_steps_exist; exact Hne | reflexivity]].
  destruct (process_single_job_cases env request jid tr job_data Hrow)
    as (r & tr' & Hjob & Hcases).
  exists r, tr'. split; [exact Hjob|].
  destruct Hcases as [(Hf & Hfr & Hst & Hsteps & _) | [(Hfr & Hst) | (Hf & Hfr & Hst)]].
  - rewrite Hst. split; [auto|]. split; [tauto|].
    split; [intros _; rewrite Hsteps; apply dom_singleton_L | contradiction].
  - assert (overall_status r <> SKIPPED) as Hns
        by (rewrite Hst; destruct (failed_steps r); discriminate).
    split; [rewrite Hst; destruct (failed_steps r); auto|].
    split; [split; [contradiction | intros [_ ?]; contradiction]|].
    split; [contradiction|]. intros _.
    rewrite <- failed_steps_exist. rewrite Hst.
    destruct (failed_steps r); split; split; congruence.
  - assert (overall_status r <> SKIPPED) as Hns
        by (rewrite Hst; destruct (failed_steps r); discriminate).
    split; [rewrite Hst; destruct (failed_steps r); auto|].
    split; [split; [contradiction | intros [? _]; congruence]|].
    split; [contradiction|]. intros _.
    rewrite <- failed_steps_exist. rewrite Hst.
    destruct (failed_steps r); split; split; congruence.
Qed.

Lemma overall_status_of_job_witness :
  exists r tr',
    _process_single_job env_sample (request_sample [1; 2; 3]) 2 [] = (Return r, tr')
    /\ (overall_status r = COMPLETED \/ overall_status r = FAILED
        \/ overall_status r = SKIPPED).
Proof.
  assert (db_jobs env_sample 2 <> ConnectFails) as H by discriminate.
  destruct (overall_status_of_job env_sample (request_sample [1; 2; 3]) 2 [] H)
    as (r & tr' & Hjob & Hst & _).
  exists r, tr'. split; [exact Hjob | exact Hst].
Defined.

(** *** A job, from the answers of its collaborators *)

(** The Filter stage records the decision it resolves to. *)
Lemma filtering_step_decides env job_data criteria s :
  filter_result (jr s) = None ->
  exists st evs,
    _execute_filtering_step env job_data criteria s =
      (Return tt,
       {| jr := set_filter_result (filter_decision env criteria (job_id (jr s)))
                  (set_steps (<["filtering" := st]> (steps (jr s))) (jr s));
          trace := trace s ++ evs |})
    /\ name st = "filtering"
    /\ quiet evs
    /\ (is_Some (filter_decision env criteria (job_id (jr s))) ->
        st = {| name := "filtering"; status := COMPLETED; error_message := None |}).
Proof.
  intros Hnone.
  unfold _execute_filtering_step, filter_decision. rewrite stage_outcome. run_m.
  cbn [job_id set_steps].
  split_answers; tidy_state; rewrite ?Hnone.
  all: eexists _, _; split; [reflexivity|]; split; [reflexivity|].
  all: split; [repeat constructor|].
  all: try (intros [? [=]]; fail).
  all: try reflexivity.
  all: intros _; reflexivity.
Qed.

(** The résumé stage delivers the stored customization, or else a fresh one,
    or else nothing. *)
Lemma resume_step_delivers env request job_data s :
  enable_resume_customization request = true ->
  customization_result (jr s) = None ->
  exists st evs,
    _execute_resume_customization_step env job_data s =
      (Return tt,
       {| jr := set_customization_result
                  (resume_output env request (job_id (jr s)) job_data)
                  (set_steps (<["resume_customization" := st]> (steps (jr s))) (jr s));
          trace := trace s ++ evs |})
    /\ name st = "resume_customization"
    /\ ~ calls_email_generator evs /\ ~ calls_document_generator evs.
Proof.
  intros Hen Hnone.
  unfold _execute_resume_customization_step, resume_output. rewrite Hen, stage_outcome.
  run_m. cbn [job_id set_steps].
  split_answers; tidy_state; rewrite ?Hnone.
  all: eexists _, _; split; [reflexivity|]; split; [reflexivity|].
  all: split; intros [req Hin]; repeat (apply elem_of_cons in Hin as [[=]|Hin]);
       inversion Hin.
Qed.

(** The contact stage delivers what the finder returns. *)
Lemma contact_step_delivers env request job_data s :
  enable_contact_finding request = true ->
  contact_result (jr s) = None ->
  exists st found evs,
    _execute_contact_finding_step env job_data s =
      (Return tt,
       {| jr := set_contact_result found
                  (set_steps (<["contact_finding" := st]> (steps (jr s))) (jr s));
          trace := trace s ++ evs |})
    /\ name st = "contact_finding"
    /\ default [] (contacts <$> found) = contacts_output env request job_data
    /\ ~ calls_email_generator evs /\ ~ calls_document_generator evs.
Proof.
  intros Hen Hnone.
  unfold _execute_contact_finding_step, contacts_output. rewrite Hen, stage_outcome.
  run_m. split_answers; tidy_state; rewrite ?Hnone.
  all: eexists _, _, _; split; [reflexivity|]; split; [reflexivity|].
  all: split; [reflexivity|].
  all: split; intros [req Hin]; repeat (apply elem_of_cons in Hin as [[=]|Hin]);
       inversion Hin.
Qed.

(** The document stage with a customized résumé: the generator is called
    with the request built from it. *)
Lemma document_step_with_resume env job_data formats s customized :
  customization_result (jr s) = Some customized ->
  exists st pkg,
    _execute_document_generation_step env job_data formats s =
      (Return tt,
       {| jr := set_document_package pkg
                  (set_steps (<["document_generation" := st]> (steps (jr s))) (jr s));
          trace := trace s ++ [CallGenerateDocuments
                                 (document_request_of (job_id (jr s)) job_data formats
                                    customized)] |})
    /\ name st = "document_generation"
    /\ (status st = COMPLETED \/ status st = FAILED).
Proof.
  intros Hsome.
  unfold _execute_document_generation_step, document_request_of. rewrite stage_outcome.
  run_m. cbn [customization_result set_steps job_id]. rewrite Hsome.
  split_answers; tidy_state.
  all: eexists _, _; split; [reflexivity|]; split; [reflexivity|]; auto.
Qed.

Lemma quiet_no_generator evs :
  quiet evs -> ~ calls_email_generator evs /\ ~ calls_document_generator evs.
Proof.
  intros Hq. unfold quiet in Hq. rewrite Forall_forall in Hq.
  split; intros [req Hin]; apply Hq in Hin; discriminate.
Qed.

Lemma no_generator_app evs evs' :
  ~ calls_email_generator evs -> ~ calls_email_generator evs' ->
  ~ calls_email_generator (evs ++ evs').
Proof.
  intros H H' [req Hin]. apply elem_of_app in Hin as [Hin|Hin];
    [apply H | apply H']; exists req; exact Hin.
Qed.

Lemma no_document_generator_app evs evs' :
  ~ calls_document_generator evs -> ~ calls_document_generator evs' ->
  ~ calls_document_generator (evs ++ evs').
Proof.
  intros H H' [req Hin]. apply elem_of_app in Hin as [Hin|Hin];
    [apply H | apply H']; exists req; exact Hin.
Qed.

(** A job that is not rejected: the state in which steps 2 to 5 start. *)
Lemma job_passes_filter env request jid tr job_data :
  db_jobs env jid = Row job_data ->
  rejected env request jid = false ->
  exists s0 evs0 s1 s2 s3 s4,
    trace s0 = tr ++ evs0
    /\ ~ calls_email_generator evs0 /\ ~ calls_document_generator evs0
    /\ job_id (jr s0) = jid
    /\ customization_result (jr s0) = None
    /\ contact_result (jr s0) = None
    /\ email_results (jr s0) = []
    /\ optional (enable_resume_customization request)
         (_execute_resume_customization_step env job_data) s0 = (Return tt, s1)
    /\ optional (enable_contact_finding request)
         (_execute_contact_finding_step env job_data) s1 = (Return tt, s2)
    /\ optional (enable_email_generation request)
         (_execute_email_generation_step env job_data (email_template request)) s2
       = (Return tt, s3)
    /\ optional (enable_document_generation request)
         (_execute_document_generation_step env job_data (document_formats request)) s3
       = (Return tt, s4)
    /\ _process_single_job env request jid tr
       = (Return (jr (finished s4)), trace (finished s4)).
Proof.
  intros Hrow Hpass.
  destruct (process_single_job_row env request jid tr job_data Hrow)
    as (b & s' & Hp & Hjob).
  rewrite pipeline_run in Hp. unfold rejected in Hpass.
  destruct (enable_filtering request).
  - cbv zeta in Hp. cbn [andb] in Hpass.
    destruct (filtering_step_decides env job_data (filter_criteria request)
                (started jid job_data tr) eq_refl) as (st & evs & Heq & _ & Hq & _).
    rewrite Heq in Hp. cbn [snd jr filter_result set_filter_result started job_id
                            new_job_result] in Hp.
    rewrite Hpass in Hp.
    match type of Hp with
    | later_stages _ _ _ ?s0 = _ =>
        destruct (later_stages_run env request job_data s0)
          as (s1 & s2 & s3 & s4 & H1 & H2 & H3 & H4 & Hrun);
        exists s0, ([DbLoadJob jid; Progress "job_started"] ++ evs), s1, s2, s3, s4
    end.
    rewrite Hrun in Hp. injection Hp as _ <-.
    split; [unfold started; cbn [trace]; rewrite <- !app_assoc; reflexivity|].
    assert (quiet ([DbLoadJob jid; Progress "job_started"] ++ evs)) as Hq'
        by (apply Forall_app; split; [repeat constructor | exact Hq]).
    destruct (quiet_no_generator _ Hq') as [He Hd].
    split; [exact He|]. split; [exact Hd|]. repeat (split; [reflexivity|]).
    tauto.
  - destruct (later_stages_run env request job_data (started jid job_data tr))
      as (s1 & s2 & s3 & s4 & H1 & H2 & H3 & H4 & Hrun).
    exists (started jid job_data tr), [DbLoadJob jid; Progress "job_started"],
      s1, s2, s3, s4.
    rewrite Hrun in Hp. injection Hp as _ <-.
    split; [unfold started; cbn [trace]; rewrite <- !app_assoc; reflexivity|].
    destruct (quiet_no_generator [DbLoadJob jid; Progress "job_started"]) as [He Hd];
      [repeat constructor|].
    split; [exact He|]. split; [exact Hd|]. repeat (split; [reflexivity|]).
    tauto.
Qed.

(** The state in which the e-mail stage of a job that is not rejected
    starts: the customized résumé and the contacts are those the answers of
    the collaborators determine, and no generator was called yet. *)
Lemma job_before_emails env request jid tr job_data :
  db_jobs env jid = Row job_data ->
  rejected env request jid = false ->
  exists s2 evs2 s3 s4,
    trace s2 = tr ++ evs2
    /\ ~ calls_email_generator evs2 /\ ~ calls_document_generator evs2
    /\ job_id (jr s2) = jid
    /\ customization_result (jr s2) = resume_output env request jid job_data
    /\ default [] (contacts <$> contact_result (jr s2))
       = contacts_output env request job_data
    /\ email_results (jr s2) = []
    /\ optional (enable_email_generation request)
         (_execute_email_generation_step env job_data (email_template request)) s2
       = (Return tt, s3)
    /\ optional (enable_document_generation request)
         (_execute_document_generation_step env job_data (document_formats request)) s3
       = (Return tt, s4)
    /\ _process_single_job env request jid tr
       = (Return (jr (finished s4)), trace (finished s4)).
Proof.
  intros Hrow Hpass.
  destruct (job_passes_filter env request jid tr job_data Hrow Hpass)
    as (s0 & evs0 & s1 & s2 & s3 & s4 & Ht0 & He0 & Hd0 & Hid0 & Hc0 & Hf0 & Hm0
        & H1 & H2 & H3 & H4 & Hjob).
  assert (exists evs1,
             trace s1 = trace s0 ++ evs1
             /\ ~ calls_email_generator evs1 /\ ~ calls_document_generator evs1
             /\ job_id (jr s1) = jid
             /\ customization_result (jr s1) = resume_output env request jid job_data
             /\ contact_result (jr s1) = None
             /\ email_results (jr s1) = []) as (evs1 & Ht1 & He1 & Hd1 & Hid1 & Hc1 & Hf1 & Hm1).
  { unfold optional in H1. destruct (enable_resume_customization request) eqn:Hen.
    - destruct (resume_step_delivers env request job_data s0 Hen Hc0)
        as (st & evs & Heq & _ & He & Hd).
      rewrite Heq in H1. injection H1 as <-. exists evs. rewrite Hid0.
      repeat split; try assumption; reflexivity.
    - injection H1 as <-. exists []. rewrite app_nil_r.
      unfold resume_output. rewrite Hen.
      split; [reflexivity|]. split; [intros [? Hin]; inversion Hin|].
      split; [intros [? Hin]; inversion Hin|]. auto. }
  assert (exists evs2,
             trace s2 = trace s1 ++ evs2
             /\ ~ calls_email_generator evs2 /\ ~ calls_document_generator evs2
             /\ job_id (jr s2) = jid
             /\ customization_result (jr s2) = resume_output env request jid job_data
             /\ default [] (contacts <$> contact_result (jr s2))
                = contacts_output env request job_data
             /\ email_results (jr s2) = []) as (evs2 & Ht2 & He2 & Hd2 & Hid2 & Hc2 & Hf2 & Hm2).
  { unfold optional in H2. destruct (enable_contact_finding request) eqn:Hen.
    - destruct (contact_step_delivers env request job_data s1 Hen Hf1)
        as (st & found & evs & Heq & _ & Hfound & He & Hd).
      rewrite Heq in H2. injection H2 as <-. exists evs.
      repeat split; try assumption.
    - injection H2 as <-. exists []. rewrite app_nil_r, Hf1.
      unfold contacts_output. rewrite Hen.
      split; [reflexivity|]. split; [intros [? Hin]; inversion Hin|].
      split; [intros [? Hin]; inversion Hin|]. auto. }
  exists s2, (evs0 ++ evs1 ++ evs2), s3, s4.
  split; [rewrite Ht2, Ht1, Ht0, <- !app_assoc; reflexivity|].
  split; [repeat apply no_generator_app; assumption|].
  split; [repeat apply no_document_generator_app; assumption|].
  tauto.
Qed.

(** What the e-mail stage, behind its flag, adds to the trace: calls of the
    e-mail generator and nothing else. *)
Lemma email_stage_events env job_data template_name enabled s s' :
  optional enabled (_execute_email_generation_step env job_data template_name) s
  = (Return tt, s') ->
  exists emails called,
    stage_result "email_generation" (set_email_results emails) s s'
    /\ trace s' = trace s ++ ((fun c => CallGenerateEmail
                                 (email_request_for (jr s) job_data template_name c))
                              <$> called).
Proof.
  unfold optional. destruct enabled.
  2:{ intros [= <-]. exists [], []. split; [apply stage_disabled; reflexivity|].
      cbn. rewrite app_nil_r. reflexivity. }
  assert (forall st, {| jr := set_steps (<["email_generation" := st]> (steps (jr s))) (jr s);
                        trace := trace s |}
                     = {| jr := set_email_results (email_results (jr s))
                                  (set_steps (<["email_generation" := st]> (steps (jr s)))
                                     (jr s));
                          trace := trace s ++ [] |}) as Heta.
  { intros st. rewrite app_nil_r. destruct s as [[] ?]. reflexivity. }
  destruct (contact_result (jr s)) as [found|] eqn:Hfound.
  - destruct (contacts found) as [|c rest] eqn:Hcontacts.
    + rewrite email_step_no_contacts by (right; eauto). intros [= <-].
      exists (email_results (jr s)), []. rewrite Heta.
      split; [|cbn; rewrite !app_nil_r; reflexivity].
      eapply stage_ran; [reflexivity | reflexivity | right; reflexivity].
    + destruct (email_step_with_contacts env job_data template_name s _ _ _
                  Hfound Hcontacts) as (st & emails & called & -> & Hn & _ & _ & Hst & _).
      intros [= <-]. exists (email_results (jr s) ++ emails), called.
      split; [|reflexivity].
      eapply stage_ran; [reflexivity | exact Hn | exact Hst].
  - rewrite email_step_no_contacts by (left; exact Hfound). intros [= <-].
    exists (email_results (jr s)), []. rewrite Heta.
    split; [|cbn; rewrite !app_nil_r; reflexivity].
    eapply stage_ran; [reflexivity | reflexivity | right; reflexivity].
Qed.

(** What the document stage, behind its flag, adds to the trace: one call
    of the document generator when it is enabled and the customized résumé
    is there, nothing otherwise. *)
Lemma document_stage_events env job_data formats enabled s s' :
  optional enabled (_execute_document_generation_step env job_data formats) s
  = (Return tt, s') ->
  exists pkg,
    stage_result "document_generation" (set_document_package pkg) s s'
    /\ trace s' = trace s
                  ++ match customization_result (jr s) with
                     | Some customized =>
                         if enabled
                         then [CallGenerateDocuments
                                 (document_request_of (job_id (jr s)) job_data formats
                                    customized)]
                         else []
                     | None => []
                     end.
Proof.
  unfold optional. destruct enabled.
  2:{ intros [= <-]. exists None. split; [apply stage_disabled; reflexivity|].
      destruct (customization_result (jr s)); rewrite app_nil_r; reflexivity. }
  destruct (customization_result (jr s)) as [customized|] eqn:Hc.
  - destruct (document_step_with_resume env job_data formats s customized Hc)
      as (st & pkg & -> & Hn & Hst).
    intros [= <-]. exists pkg. split; [|reflexivity].
    eapply stage_ran; [reflexivity | exact Hn | exact Hst].
  - rewrite (document_step_no_resume _ _ _ _ Hc). intros [= <-].
    exists (document_package (jr s)). split; [|cbn; rewrite app_nil_r; reflexivity].
    apply (stage_ran _ _ _ _
             (dependency_missing "document_generation" no_resume_message) []);
      [|reflexivity | right; reflexivity].
    rewrite app_nil_r. destruct s as [[] ?]. reflexivity.
Qed.

Lemma email_request_of_state s jid job_data template_name customized c :
  job_id (jr s) = jid -> customization_result (jr s) = customized ->
  email_request_for (jr s) job_data template_name c
  = email_request_of jid job_data template_name customized c.
Proof. intros <- <-. reflexivity. Qed.

(** *** A job the filter rejects *)

(** C3, as stated, fails: job 1 is rejected, and the returned result holds
    the Filter step alone. No step of a later stage is recorded, so none is
    marked Skipped. *)
Lemma rejected_job_records_no_skipped_step :
  exists r tr',
    _process_single_job env_sample (request_sample [1; 2; 3]) 1 [] = (Return r, tr')
    /\ filter_result r = Some "reject"
    /\ overall_status r = SKIPPED
    /\ map_to_list (steps r)
       = [("filtering", {| name := "filtering"; status := COMPLETED;
                           error_message := None |})]
    /\ steps r !! "resume_customization" = None
    /\ steps r !! "contact_finding" = None
    /\ steps r !! "email_generation" = None
    /\ steps r !! "document_generation" = None.
Proof. eexists _, _. split; [vm_compute; reflexivity|]. vm_compute. repeat split. Qed.

(** C3, amended. For every job whose Filter stage resolves to ["reject"]
    (the decision stored for the job, or else the one the filter returns for
    it), with filtering enabled: the job result is returned with that
    decision, the Filter step is Completed and is the only step of the result
    (the remaining stages get no record at all), the overall status is
    Skipped, and from the start of the job to its return neither the résumé
    customizer, the contact finder, the e-mail generator nor the document
    generator is called. *)
Theorem rejected_job_is_skipped (env : Env) (request : BatchProcessingRequest)
    (jid : Z) (tr : list Event) (job_data : JobData) :
  db_jobs env jid = Row job_data ->
  enable_filtering request = true ->
  filter_decision env (filter_criteria request) jid = Some "reject" ->
  exists r evs,
    _process_single_job env request jid tr = (Return r, tr ++ evs)
    /\ filter_result r = Some "reject"
    /\ steps r = {["filtering" := {| name := "filtering"; status := COMPLETED;
                                     error_message := None |}]}
    /\ overall_status r = SKIPPED
    /\ Forall (fun e => later_stage_call e = false) evs.
Proof.
  intros Hrow Hf Hreject.
  destruct (process_single_job_row env request jid tr job_data Hrow)
    as (b & s' & Hp & Hjob).
  rewrite pipeline_run, Hf in Hp. cbv zeta in Hp.
  destruct (filtering_step_decides env job_data (filter_criteria request)
              (started jid job_data tr) eq_refl) as (st & evs & Heq & _ & Hq & Hst).
  cbn [started jr job_id new_job_result] in Heq, Hst. rewrite Hreject in Heq, Hst.
  rewrite Heq in Hp. cbn [snd jr filter_result set_filter_result] in Hp.
  rewrite bool_decide_eq_true_2 in Hp by reflexivity. injection Hp as _ <-.
  rewrite (Hst ltac:(eauto)) in Hjob.
  exists (jr {| jr := set_overall_status SKIPPED
                        (set_filter_result (Some "reject")
                           (set_steps (<["filtering" :=
                                          {| name := "filtering"; status := COMPLETED;
                                             error_message := None |}]> ∅)
                              (new_job_result jid job_data)));
                trace := ((tr ++ [DbLoadJob jid]) ++ [Progress "job_started"]) ++ evs |}),
    ([DbLoadJob jid; Progress "job_started"] ++ evs).
  split; [rewrite Hjob; cbn [jr trace]; rewrite <- !app_assoc; reflexivity|].
  split; [reflexivity|]. split; [apply insert_empty|]. split; [reflexivity|].
  apply Forall_app. split; [repeat constructor | exact Hq].
Qed.

Lemma rejected_job_is_skipped_witness :
  exists r evs,
    _process_single_job env_rejecting (request_sample [3]) 3 [] = (Return r, [] ++ evs)
    /\ overall_status r = SKIPPED
    /\ CallFilterJobsBatch [3] ∈ evs.
Proof.
  destruct (rejected_job_is_skipped env_rejecting (request_sample [3]) 3 [] (row_sample 3)
              eq_refl eq_refl eq_refl) as (r & evs & Hrun & _ & _ & Hskipped & _).
  exists r, evs. split; [exact Hrun|]. split; [exact Hskipped|].
  assert (snd (_process_single_job env_rejecting (request_sample [3]) 3 []) = [] ++ evs)
    as Hevs by (rewrite Hrun; reflexivity).
  vm_compute in Hevs. subst evs. do 4 right. left.
Defined.

(** *** The counters of a batch *)

Lemma gather_length env request ids : forall tr,
  length (fst (gather env request ids tr)) = length ids.
Proof.
  induction ids as [|jid rest IH]; intros tr; cbn [gather]; [reflexivity|].
  destruct (_process_single_job env request jid tr) as [o tr1].
  specialize (IH tr1). destruct (gather env request rest tr1) as [tasks tr2].
  cbn [fst length] in *. congruence.
Qed.

Lemma tally_counts tasks : forall acc,
  t_successful_jobs (fold_left tally_task tasks acc)
  = t_successful_jobs acc + count_tasks completed_task tasks
  /\ t_failed_jobs (fold_left tally_task tasks acc)
     = t_failed_jobs acc + count_tasks (fun task => negb (completed_task task)) tasks.
Proof.
  unfold count_tasks.
  induction tasks as [|task rest IH]; intros acc; cbn [fold_left List.filter].
  - cbn. lia.
  - destruct (IH (tally_task acc task)) as [-> ->].
    destruct task as [[jid r]|e]; cbn [tally_task completed_task].
    + destruct (bool_decide (overall_status r = COMPLETED));
        cbn [negb t_successful_jobs t_failed_jobs length]; lia.
    + cbn [negb t_successful_jobs t_failed_jobs length]. lia.
Qed.

Lemma count_tasks_partition keep tasks :
  count_tasks keep tasks + count_tasks (fun task => negb (keep task)) tasks
  = Z.of_nat (length tasks).
Proof.
  unfold count_tasks. induction tasks as [|task rest IH]; cbn [List.filter length].
  - reflexivity.
  - destruct (keep task); cbn [negb length]; lia.
Qed.

(** C1, as stated, fails on the batch of three: job 1 is Skipped, job 2
    Failed, job 3 Completed, and the result counts 1 successful and 2 failed
    jobs. [failed_jobs] is not the number of Failed outcomes, and with the
    Skipped outcome added the three numbers make 4, not 3. *)
Lemma skipped_job_is_counted_as_failed :
  exists r tr,
    process_jobs_batch env_sample (request_sample [1; 2; 3]) "batch" []
    = Some (Return r, tr)
    /\ total_jobs r = 3
    /\ successful_jobs r = 1
    /\ failed_jobs r = 2
    /\ count_status COMPLETED (job_results r) = 1
    /\ count_status FAILED (job_results r) = 1
    /\ count_status SKIPPED (job_results r) = 1
    /\ failed_jobs r <> count_status FAILED (job_results r)
    /\ total_jobs r
       <> successful_jobs r + failed_jobs r + count_status SKIPPED (job_results r).
Proof.
  eexists _, _. split; [vm_compute; reflexivity|].
  vm_compute. repeat split; try discriminate.
Qed.

(** C1, amended. For every batch that [process_jobs_batch] finishes on its
    normal path (a concurrency limit of at least 1, and the batch result
    saved without a critical error), the returned result satisfies
    [total_jobs = successful_jobs + failed_jobs]. There is no counter for
    skipped jobs: [successful_jobs] counts the tasks whose outcome is
    Completed, and [failed_jobs] counts every other task, whether its outcome
    is Failed or Skipped or the task raised; every submitted job id is
    counted in exactly one of the two. *)
Theorem batch_counts_add_up (env : Env) (request : BatchProcessingRequest)
    (batch_id : string) (tr : list Event) :
  1 <= max_concurrent_jobs request ->
  db_save_connects env SaveNormal = true ->
  let tasks := fst (gather env request (job_ids request)
                      (tr ++ [Progress "batch_started"])) in
  exists r tr',
    process_jobs_batch env request batch_id tr = Some (Return r, tr')
    /\ total_jobs r = Z.of_nat (length (job_ids request))
    /\ length tasks = length (job_ids request)
    /\ successful_jobs r = count_tasks completed_task tasks
    /\ failed_jobs r = count_tasks (fun task => negb (completed_task task)) tasks
    /\ total_jobs r = successful_jobs r + failed_jobs r.
Proof.
  intros Hmax Hsave tasks.
  unfold process_jobs_batch.
  assert ((max_concurrent_jobs request <? 0) = false) as -> by (apply Z.ltb_ge; lia).
  assert ((max_concurrent_jobs request =? 0) = false) as -> by (apply Z.eqb_neq; lia).
  cbn [andb].
  pose proof (gather_length env request (job_ids request)
                (tr ++ [Progress "batch_started"])) as Hlen.
  fold tasks in Hlen. subst tasks.
  destruct (gather env request (job_ids request) (tr ++ [Progress "batch_started"]))
    as [tasks tr1]. cbn [fst] in *.
  unfold _save_batch_result. rewrite Hsave.
  eexists _, _. split; [reflexivity|]. cbn [total_jobs successful_jobs failed_jobs].
  destruct (tally_counts tasks {| t_successful_jobs := 0; t_failed_jobs := 0;
                                  t_job_results := ∅ |}) as [Hs Hf].
  unfold tally. rewrite Hs, Hf. cbn [t_successful_jobs t_failed_jobs].
  pose proof (count_tasks_partition completed_task tasks).
  repeat split; lia.
Qed.

Lemma batch_counts_add_up_witness :
  exists r tr',
    process_jobs_batch env_sample (request_sample [1; 2; 3; 9]) "batch" []
    = Some (Return r, tr')
    /\ total_jobs r = 4
    /\ total_jobs r = successful_jobs r + failed_jobs r.
Proof.
  destruct (batch_counts_add_up env_sample (request_sample [1; 2; 3; 9]) "batch" []
              ltac:(cbn; lia) eq_refl) as (r & tr' & Hrun & Htotal & _ & _ & _ & Hsum).
  exists r, tr'. split; [exact Hrun|]. split; [exact Htotal | exact Hsum].
Defined.

(** When saving the batch result raises and the second attempt goes through,
    the [except] clause reports every job as failed next to the successes
    already counted. *)
Example critical_error_counts_every_job_failed :
  exists r tr,
    process_jobs_batch env_save_fails_once (request_sample [1; 2; 3]) "batch" []
    = Some (Return r, tr)
    /\ total_jobs r = 3 /\ successful_jobs r = 1 /\ failed_jobs r = 3.
Proof. eexists _, _. split; [vm_compute; reflexivity|]. vm_compute. repeat split. Qed.

(** *** Stages whose prerequisite is missing *)

(** C8. For every job that is not rejected, with the customized résumé and
    the contacts that the answers of the collaborators determine. When no
    contact was found, the e-mail stage fails with the missing-contacts error
    without calling the e-mail generator, and the pipeline goes on: the
    document stage, when enabled, runs and calls the document generator if the
    customized résumé is there. When the customized résumé is absent, the
    document stage fails with the missing-résumé error without calling the
    document generator. In both cases the pipeline runs to its end and the
    job is Failed. The e-mail stage does not need the customized résumé: with
    a contact, the generator is called with the customization passed as it
    is, present or absent, and when it delivers for the first three contacts
    the stage completes. *)
Theorem missing_prerequisite_fails_stage (env : Env) (request : BatchProcessingRequest)
    (jid : Z) (tr : list Event) (job_data : JobData) :
  db_jobs env jid = Row job_data ->
  rejected env request jid = false ->
  let customized := resume_output env request jid job_data in
  let found := contacts_output env request job_data in
  let email_request :=
    email_request_of jid job_data (email_template request) customized in
  exists r evs,
    _process_single_job env request jid tr = (Return r, tr ++ evs)
    /\ last evs = Some (Progress "job_completed")
    /\ customization_result r = customized
    /\ (enable_email_generation request = true -> found = [] ->
        steps r !! "email_generation"
        = Some (dependency_missing "email_generation" no_contacts_message)
        /\ overall_status r = FAILED
        /\ ~ calls_email_generator evs
        /\ (enable_document_generation request = true ->
            is_Some (steps r !! "document_generation")
            /\ forall resume, customized = Some resume ->
                 CallGenerateDocuments
                   (document_request_of jid job_data (document_formats request) resume)
                 ∈ evs))
    /\ (enable_document_generation request = true -> customized = None ->
        steps r !! "document_generation"
        = Some (dependency_missing "document_generation" no_resume_message)
        /\ overall_status r = FAILED
        /\ ~ calls_document_generator evs)
    /\ (enable_email_generation request = true ->
        forall c rest, found = c :: rest ->
        CallGenerateEmail (email_request c) ∈ evs
        /\ ((forall c', c' ∈ take 3 (c :: rest) ->
               exists email, generate_email env (email_request c') = Return (Some email)) ->
            status <$> steps r !! "email_generation" = Some COMPLETED
            /\ length (email_results r) = length (take 3 (c :: rest))
            /\ forall c', c' ∈ take 3 (c :: rest) ->
                 CallGenerateEmail (email_request c') ∈ evs)).
Proof.
  intros Hrow Hpass customized found email_request.
  destruct (job_before_emails env request jid tr job_data Hrow Hpass)
    as (s2 & evs2 & s3 & s4 & Ht2 & He2 & Hd2 & Hid2 & Hc2 & Hf2 & Hm2 & H3 & H4 & Hjob).
  fold customized in Hc2. fold found in Hf2.
  destruct (email_stage_events _ _ _ _ _ _ H3) as (emails & called & F3 & Ht3).
  destruct (document_stage_events _ _ _ _ _ _ H4) as (pkg & F4 & Ht4).
  assert (customization_result (jr s3) = customized) as Hc3.
  { rewrite (stage_result_keeps customization_result _ _ _ _ F3) by reflexivity.
    exact Hc2. }
  assert (job_id (jr s3) = jid) as Hid3.
  { rewrite (stage_result_keeps job_id _ _ _ _ F3) by reflexivity. exact Hid2. }
  rewrite Hc3, Hid3 in Ht4.
  assert (forall c, email_request_for (jr s2) job_data (email_template request) c
                    = email_request c) as Hreq.
  { intros c. apply email_request_of_state; assumption. }
  assert ((fun c => CallGenerateEmail
                      (email_request_for (jr s2) job_data (email_template request) c))
          <$> called
          = (fun c => CallGenerateEmail (email_request c)) <$> called) as Hev
      by (apply list_fmap_ext; intros; rewrite Hreq; reflexivity).
  rewrite Hev in Ht3. clear Hev.
  set (evs3 := (fun c => CallGenerateEmail (email_request c)) <$> called) in *.
  set (evs4 := match customized with
               | Some resume =>
                   if enable_document_generation request
                   then [CallGenerateDocuments
                           (document_request_of jid job_data (document_formats request)
                              resume)]
                   else []
               | None => []
               end) in *.
  assert (~ calls_document_generator evs3) as Hd3.
  { intros [req Hin]. apply list_elem_of_fmap in Hin as (c & [=] & _). }
  assert (~ calls_email_generator evs4) as He4.
  { intros [req Hin]. subst evs4.
    destruct customized; [destruct (enable_document_generation request)|];
      repeat (apply elem_of_cons in Hin as [[=]|Hin]); inversion Hin. }
  assert (forall nm st, steps (jr s4) !! nm = Some st -> status st = FAILED ->
          overall_status (jr (finished s4)) = FAILED) as Hfailed.
  { intros nm st Hl Hst. cbn [finished jr overall_status set_overall_status].
    destruct (failed_steps (jr s4)) eqn:E; [|reflexivity].
    exfalso. revert E. apply failed_steps_exist. eauto. }
  exists (jr (finished s4)), (evs2 ++ evs3 ++ evs4 ++ [Progress "job_completed"]).
  change (steps (jr (finished s4))) with (steps (jr s4)).
  change (customization_result (jr (finished s4))) with (customization_result (jr s4)).
  change (email_results (jr (finished s4))) with (email_results (jr s4)).
  split.
  { rewrite Hjob. cbn [finished trace]. rewrite Ht4, Ht3, Ht2, <- !app_assoc.
    reflexivity. }
  split; [rewrite !app_assoc; apply last_snoc|].
  split.
  { rewrite (stage_result_keeps customization_result _ _ _ _ F4) by reflexivity.
    exact Hc3. }
  split; [|split].
  - intros He Hnone. rewrite Hnone in Hf2.
    assert (contact_result (jr s2) = None
            \/ exists f, contact_result (jr s2) = Some f /\ contacts f = []) as Hmissing.
    { destruct (contact_result (jr s2)) as [f|]; [right; eauto | left; reflexivity]. }
    unfold optional in H3. rewrite He in H3.
    rewrite (email_step_no_contacts _ _ _ _ Hmissing) in H3. injection H3 as <-.
    cbn [trace] in Ht3. rewrite <- (app_nil_r (trace s2)) in Ht3 at 1.
    apply app_inv_head in Ht3.
    assert (steps (jr s4) !! "email_generation"
            = Some (dependency_missing "email_generation" no_contacts_message)) as Hl.
    { rewrite (stage_result_other_steps _ _ _ _ "email_generation" F4)
        by (reflexivity || discriminate).
      cbn [jr steps set_steps]. apply lookup_insert_eq. }
    split; [exact Hl|]. split; [exact (Hfailed _ _ Hl eq_refl)|].
    split.
    { rewrite <- Ht3. cbn [app]. repeat apply no_generator_app; try assumption.
      intros [req Hin]. apply list_elem_of_singleton in Hin. discriminate. }
    intros Hd. split.
    + unfold optional in H4. rewrite Hd in H4.
      match type of H4 with
      | _ ?s = _ =>
          destruct (document_step_spec env job_data (document_formats request) s)
            as (st & pkg' & evs & Heq & _)
      end.
      rewrite Heq in H4. injection H4 as <-.
      cbn [jr steps set_steps set_document_package]. rewrite lookup_insert_eq. eauto.
    + intros resume Hresume. subst evs4. rewrite Hresume, Hd.
      rewrite !elem_of_app. right. right. left. left.
  - intros Hd Hnone. rewrite Hnone in Hc3.
    unfold optional in H4. rewrite Hd in H4.
    rewrite (document_step_no_resume _ _ _ _ Hc3) in H4. injection H4 as <-.
    assert (forall m, (<["document_generation" :=
                         dependency_missing "document_generation" no_resume_message]> m
                       : gmap string WorkflowStep) !! "document_generation"
                      = Some (dependency_missing "document_generation" no_resume_message))
      as Hl by (intros m; apply lookup_insert_eq).
    cbn [jr steps set_steps] in *. split; [apply Hl|].
    split; [exact (Hfailed _ _ (Hl _) eq_refl)|].
    subst evs4. rewrite Hnone.
    repeat apply no_document_generator_app; try assumption.
    + intros [req Hin]. inversion Hin.
    + intros [req Hin]. apply list_elem_of_singleton in Hin. discriminate.
  - intros He c rest Hcontacts. rewrite Hcontacts in Hf2.
    destruct (contact_result (jr s2)) as [f|] eqn:Hfound; [|discriminate Hf2].
    cbn [fmap option_fmap option_map default] in Hf2.
    unfold optional in H3. rewrite He in H3.
    split.
    + destruct (email_step_with_contacts env job_data (email_template request) s2
                  f c rest Hfound Hf2)
        as (st & emails' & called' & Heq & _ & _ & Hhead & _).
      rewrite Heq in H3. injection H3 as <-. cbn [trace] in Ht3.
      apply app_inv_head in Ht3.
      rewrite !elem_of_app. right. left. rewrite <- Ht3.
      apply list_elem_of_fmap. exists c. split; [rewrite Hreq; reflexivity|].
      destruct called' as [|c0 called']; [discriminate|].
      injection Hhead as ->. left.
    + intros Hall.
      destruct (email_step_generated env job_data (email_template request) s2
                  f c rest Hfound Hf2) as (emails' & Heq & Hlen).
      { intros c' Hc'. rewrite Hreq. apply Hall. exact Hc'. }
      rewrite Heq in H3. injection H3 as <-. cbn [trace] in Ht3.
      apply app_inv_head in Ht3.
      split; [|split].
      * rewrite (stage_result_other_steps _ _ _ _ "email_generation" F4)
          by (reflexivity || discriminate).
        cbn [jr steps set_steps set_email_results]. rewrite lookup_insert_eq. reflexivity.
      * rewrite (stage_result_keeps email_results _ _ _ _ F4) by reflexivity.
        cbn [jr email_results set_email_results]. rewrite Hm2. exact Hlen.
      * intros c' Hc'. rewrite !elem_of_app. right. left. rewrite <- Ht3, <- Hreq.
        exact (list_elem_of_fmap_2
                 (fun c0 => CallGenerateEmail
                              (email_request_for (jr s2) job_data (email_template request)
                                 c0))
                 (take 3 (c :: rest)) c' Hc').
Qed.

Lemma missing_prerequisite_fails_stage_witness :
  exists r evs,
    _process_single_job env_sample (request_sample [1; 2; 3]) 2 [] = (Return r, [] ++ evs)
    /\ steps r !! "document_generation"
       = Some (dependency_missing "document_generation" no_resume_message)
    /\ status <$> steps r !! "email_generation" = Some COMPLETED
    /\ last evs = Some (Progress "job_completed").
Proof.
  destruct (missing_prerequisite_fails_stage env_sample (request_sample [1; 2; 3]) 2 []
              (row_sample 2) eq_refl ltac:(vm_compute; reflexivity))
    as (r & evs & Hrun & Hlast & _ & _ & Hdoc & Hemail).
  exists r, evs. split; [exact Hrun|].
  split; [apply Hdoc; reflexivity|]. split; [|exact Hlast].
  apply (Hemail eq_refl {| contact_email := "hr@acme.example" |} [] eq_refl).
  intros c' _. eexists. reflexivity.
Defined.

(** Job 2 of the batch of three: the résumé customizer raised, the e-mail
    stage completed all the same, the document stage failed for want of the
    résumé. *)
Example job_without_resume :
  let r := returned_result
             (_process_single_job env_sample (request_sample [1; 2; 3]) 2 []) 2 in
  status <$> steps r !! "resume_customization" = Some FAILED
  /\ status <$> steps r !! "contact_finding" = Some COMPLETED
  /\ status <$> steps r !! "email_generation" = Some COMPLETED
  /\ steps r !! "document_generation"
     = Some (dependency_missing "document_generation" no_resume_message).
Proof. vm_compute. repeat split. Qed.

(** Job 3 with contact finding switched off: the e-mail stage fails for want
    of contacts and the document stage still completes. *)
Example job_without_contacts :
  let r := returned_result
             (_process_single_job env_sample request_without_contacts 3 []) 3 in
  steps r !! "email_generation"
  = Some (dependency_missing "email_generation" no_contacts_message)
  /\ status <$> steps r !! "document_generation" = Some COMPLETED
  /\ overall_status r = FAILED.
Proof. vm_compute. repeat split. Qed.

End WorkflowFacts.

(** * More properties of the rate governor *)

Module RateLimitMore.
Import RateLimit RateLimitFacts.

(** *** A burst on a fresh limiter *)

Lemma popleft_older_same_time t0 times :
  Forall (fun x => x = t0) times -> popleft_older (t0 - 3600) times = times.
Proof.
  intros [|x rest -> _]; [reflexivity|]. cbn.
  assert (Qltb t0 (t0 - 3600) = false) as ->; [|reflexivity].
  apply Qltb_ge. lra.
Qed.

Lemma burst_refill cfg t0 j self :
  burst_state cfg t0 j self ->
  (tokens (_refill_tokens self t0) == inject_Z (burst_limit cfg - Z.of_nat j))%Q.
Proof.
  intros [Hc Ht Hr _ _ _]. cbn. rewrite Hr, Hc, py_min_Qmin.
  assert ((t0 - t0) * refill_rate self == 0)%Q as -> by ring.
  rewrite Qplus_0_r, Ht. apply Q.min_r.
  rewrite <- Zle_Qle. lia.
Qed.

Lemma burst_next cfg t0 j self :
  burst_state cfg t0 j self ->
  Z.of_nat j < burst_limit cfg -> burst_limit cfg <= requests_per_hour cfg ->
  result (acquire t0 self) = Return true
  /\ burst_state cfg t0 (S j) (limiter (acquire t0 self)).
Proof.
  intros Hs Hj Hrph. pose proof (burst_refill _ _ _ _ Hs) as Ht.
  destruct Hs as [Hc _ Hr Hall Hlen Hf].
  assert (_is_in_backoff self t0 = Return false) as Hb
      by (unfold _is_in_backoff; rewrite Hf; reflexivity).
  rewrite (acquire_not_in_backoff _ _ Hb). cbn zeta.
  unfold _check_hourly_limit. cbn [fst snd].
  cbn [request_times set_request_times config _refill_tokens set_tokens].
  rewrite (popleft_older_same_time _ _ Hall), Hlen, Hc.
  assert ((Z.of_nat j <? requests_per_hour cfg) = true) as -> by (apply Z.ltb_lt; lia).
  cbn [negb].
  assert (Qle_bool 1 (tokens (_refill_tokens self t0)) = true) as ->.
  { apply Qle_bool_iff. rewrite Ht. rewrite <- (Zle_Qle 1). lia. }
  split; [reflexivity|]. split; cbn.
  - exact Hc.
  - fold (tokens (_refill_tokens self t0)). rewrite Ht.
    replace (burst_limit cfg - Z.of_nat (S j)) with (burst_limit cfg - Z.of_nat j + -1) by lia.
    rewrite inject_Z_plus. reflexivity.
  - reflexivity.
  - apply Forall_app. split; [exact Hall | repeat constructor].
  - rewrite length_app, Hlen. cbn. lia.
  - exact Hf.
Qed.

Lemma burst_run cfg t0 k : forall j self,
  burst_state cfg t0 j self ->
  Z.of_nat (j + k) <= burst_limit cfg -> burst_limit cfg <= requests_per_hour cfg ->
  burst_state cfg t0 (j + k) (run (replicate k (OpAcquire t0)) self).
Proof.
  induction k as [|k IH]; intros j self Hs Hk Hrph.
  - rewrite Nat.add_0_r. exact Hs.
  - cbn [replicate run fold_left step].
    destruct (burst_next cfg t0 j self Hs ltac:(lia) Hrph) as [_ Hs'].
    replace (j + S k)%nat with (S j + k)%nat by lia.
    apply IH; [exact Hs' | lia | exact Hrph].
Qed.

(** X1. On a fresh limiter, with a bucket no larger than the hourly
    allowance, the first [burst_limit] calls made at the creation time are all
    admitted, and the call after them is not. *)
Theorem burst_then_refusal (cfg : RateLimitConfig) (t0 : Q) (k : nat) :
  0 <= burst_limit cfg ->
  burst_limit cfg <= requests_per_hour cfg ->
  Z.of_nat k <= burst_limit cfg ->
  let self := run (replicate k (OpAcquire t0)) (init cfg t0) in
  (Z.of_nat k < burst_limit cfg -> result (acquire t0 self) = Return true)
  /\ (Z.of_nat k = burst_limit cfg -> result (acquire t0 self) <> Return true).
Proof.
  intros Hb Hrph Hk self.
  assert (burst_state cfg t0 0 (init cfg t0)) as H0.
  { split; cbn; try reflexivity; [|constructor].
    rewrite Z.sub_0_r. reflexivity. }
  pose proof (burst_run cfg t0 k 0%nat _ H0 ltac:(cbn; lia) Hrph) as Hs.
  cbn [Nat.add] in Hs. fold self in Hs.
  split.
  - intros Hlt. apply (burst_next cfg t0 k self Hs Hlt Hrph).
  - intros Heq. pose proof (burst_refill _ _ _ _ Hs) as Ht.
    destruct Hs as [Hc _ Hr Hall Hlen Hf].
    assert (_is_in_backoff self t0 = Return false) as Hbk
        by (unfold _is_in_backoff; rewrite Hf; reflexivity).
    rewrite (acquire_not_in_backoff _ _ Hbk). cbn zeta.
    destruct (negb _); [discriminate|].
    assert (Qle_bool 1 (tokens (_refill_tokens self t0)) = false) as ->.
    { destruct (Qle_bool 1 _) eqn:E; [|reflexivity].
      apply Qle_bool_iff in E. rewrite Ht in E. rewrite <- (Zle_Qle 1) in E. lia. }
    destruct (Qeq_bool _ 0); discriminate.
Qed.

Lemma burst_then_refusal_witness :
  result (acquire 0 (run (replicate 4 (OpAcquire 0)) (init default_config 0))) = Return true
  /\ result (acquire 0 (run (replicate 5 (OpAcquire 0)) (init default_config 0)))
     <> Return true.
Proof.
  split.
  - apply (burst_then_refusal default_config 0 4); cbn; lia.
  - apply (burst_then_refusal default_config 0 5); cbn; lia.
Defined.

(** *** The size of the sliding window *)

Lemma popleft_older_length c times :
  (length (popleft_older c times) <= length times)%nat.
Proof.
  induction times as [|t rest IH]; cbn; [lia|].
  destruct (Qltb t c); cbn; lia.
Qed.

Lemma acquire_config now self : config (limiter (acquire now self)) = config self.
Proof.
  destruct (_is_in_backoff self now) as [[|]|e] eqn:Hb.
  1,3: rewrite (proj1 (acquire_untouched self now ltac:(rewrite Hb; discriminate)));
       reflexivity.
  unfold acquire. rewrite Hb.
  unfold _check_hourly_limit. cbn [negb].
  destruct (negb _); [reflexivity|].
  destruct (Qle_bool 1 _); [reflexivity|].
  destruct (Qeq_bool _ 0); reflexivity.
Qed.

Lemma acquire_window_size now self :
  Z.of_nat (length (request_times self)) <= requests_per_hour (config self) ->
  Z.of_nat (length (request_times (limiter (acquire now self))))
  <= requests_per_hour (config self).
Proof.
  intros H. destruct (_is_in_backoff self now) as [[|]|e] eqn:Hb.
  1,3: rewrite (proj1 (acquire_untouched self now ltac:(rewrite Hb; discriminate)));
       exact H.
  unfold acquire. rewrite Hb.
  unfold _check_hourly_limit.
  cbn [request_times set_request_times config _refill_tokens set_tokens].
  pose proof (popleft_older_length (now - 3600) (request_times self)) as Hle.
  destruct (Z.of_nat _ <? _) eqn:E; cbn [negb]; [|cbn; lia].
  apply Z.ltb_lt in E.
  destruct (Qle_bool 1 _).
  - cbn. rewrite length_app. cbn. lia.
  - destruct (Qeq_bool _ 0); cbn; lia.
Qed.

(** X2. Whatever the clock does, the sliding window of a limiter never holds
    more than [requests_per_hour] entries, so [get_status] never reports more
    requests in the last hour than the hourly limit. *)
Theorem window_never_overfull (cfg : RateLimitConfig) (t0 now : Q) (ops : list Op) :
  0 <= requests_per_hour cfg ->
  Z.of_nat (length (request_times (run ops (init cfg t0)))) <= requests_per_hour cfg
  /\ (forall report,
        fst (get_status now (run ops (init cfg t0))) = Return report ->
        Z.of_nat (requests_last_hour report) <= hourly_limit report).
Proof.
  intros Hrph.
  assert (forall self, config self = cfg ->
            Z.of_nat (length (request_times self)) <= requests_per_hour cfg ->
            config (run ops self) = cfg
            /\ Z.of_nat (length (request_times (run ops self))) <= requests_per_hour cfg)
    as Hrun.
  { induction ops as [|o ops IH]; intros self Hc Hlen; [tauto|].
    cbn [run fold_left]. apply IH.
    - destruct o; cbn [step get_status snd]; [rewrite acquire_config| | |]; exact Hc.
    - destruct o; cbn [step get_status snd]; try exact Hlen.
      rewrite <- Hc. apply acquire_window_size. rewrite Hc. exact Hlen. }
  destruct (Hrun (init cfg t0) eq_refl Hrph) as [Hc Hlen].
  split; [exact Hlen|]. intros report. unfold get_status. cbn [fst].
  destruct (_is_in_backoff _ now); [|discriminate].
  match goal with
  | |- context [match ?remaining with Return _ => _ | Raise _ => _ end] =>
      destruct remaining; [|discriminate]
  end.
  intros [= <-]. cbn. rewrite Hc. exact Hlen.
Qed.

Lemma window_never_overfull_witness :
  Z.of_nat (length (request_times hour_used_up)) <= 2.
Proof.
  apply (window_never_overfull cfg_two_per_hour 0 0 [OpAcquire 0; OpAcquire 1]).
  cbn. lia.
Defined.

(** *** What a refused call leaves behind *)

Lemma popleft_older_suffix c times : popleft_older c times `suffix_of` times.
Proof.
  induction times as [|t rest IH]; cbn; [reflexivity|].
  destruct (Qltb t c); [|reflexivity].
  apply suffix_cons_r. exact IH.
Qed.

(** X3. A call that [acquire] does not admit takes no token and records no
    request: inside the backoff window, and when the backoff check raises,
    the limiter is left as it was; otherwise the bucket is refilled and the
    window pruned, and that is all. *)
Theorem refused_call_takes_nothing (self : RateLimiter) (now : Q) :
  result (acquire now self) <> Return true ->
  (_is_in_backoff self now <> Return false -> limiter (acquire now self) = self)
  /\ tokens (limiter (acquire now self))
     = match _is_in_backoff self now with
       | Return false => tokens (_refill_tokens self now)
       | _ => tokens self
       end
  /\ request_times (limiter (acquire now self)) `suffix_of` request_times self
  /\ consecutive_failures (limiter (acquire now self)) = consecutive_failures self
  /\ last_failure_time (limiter (acquire now self)) = last_failure_time self.
Proof.
  intros Hres. destruct (_is_in_backoff self now) as [[|]|e] eqn:Hb.
  1,3: rewrite (proj1 (acquire_untouched self now ltac:(rewrite Hb; discriminate)));
       repeat split; reflexivity.
  rewrite (acquire_not_in_backoff _ _ Hb) in *. cbn zeta in *.
  split; [intros H; contradiction H; reflexivity|].
  pose proof (popleft_older_suffix (now - 3600) (request_times self)) as Hsuf.
  destruct (negb _); [cbn; repeat split; assumption|].
  destruct (Qle_bool 1 _); [contradiction Hres; reflexivity|].
  destruct (Qeq_bool _ 0); cbn; repeat split; assumption.
Qed.

Lemma refused_call_takes_nothing_witness :
  request_times (limiter (acquire 2 hour_used_up)) `suffix_of` request_times hour_used_up.
Proof.
  apply (refused_call_takes_nothing hour_used_up 2). discriminate.
Defined.

(** *** The ceiling of the backoff *)

(** X4. The backoff delay can be computed exactly when the power
    [backoff_multiplier ^ consecutive_failures] is in the range of a float.
    It then never exceeds [max_backoff_seconds], and once
    [max_backoff_seconds] have passed since the last failure the limiter is
    out of its backoff window. *)
Theorem backoff_is_capped (self : RateLimiter) (now : Q) :
  ((exists delay, _get_backoff_time self = Return delay)
   <-> backoff_overflows self = false)
  /\ (forall delay, _get_backoff_time self = Return delay ->
      (delay <= max_backoff_seconds (config self))%Q)
  /\ (backoff_overflows self = false ->
      (max_backoff_seconds (config self) <= now - last_failure_time self)%Q ->
      _is_in_backoff self now = Return false).
Proof.
  assert (capped_backoff self <= max_backoff_seconds (config self))%Q as Hcap
      by apply py_min_le_r.
  split; [|split].
  - split.
    + intros [delay Hd]. destruct (backoff_overflows self) eqn:E; [|reflexivity].
      rewrite (backoff_time_overflow _ E) in Hd. discriminate.
    + intros E. rewrite (backoff_time_in_range _ E). eauto.
  - intros delay Hd. destruct (backoff_overflows self) eqn:E.
    + rewrite (backoff_time_overflow _ E) in Hd. discriminate.
    + rewrite (backoff_time_in_range _ E) in Hd. injection Hd as <-. exact Hcap.
  - intros E Hpast. rewrite (is_in_backoff_in_range _ _ E).
    destruct (Nat.eqb _ 0); [reflexivity|]. cbn [negb andb]. f_equal.
    apply Qltb_ge. lra.
Qed.

Lemma backoff_is_capped_witness : _is_in_backoff failed_thrice 112 = Return false.
Proof.
  apply (backoff_is_capped failed_thrice 112); [vm_compute; reflexivity|].
  cbn. discriminate.
Defined.

(** *** The status report *)

(** X5. When the backoff power is in the range of a float, [get_status]
    reports a remaining backoff time that is never negative, and reports the
    limiter as in backoff exactly when that time is positive; otherwise it
    raises [OverflowError]. In both cases it refills the bucket and changes
    nothing else: the window, the failure count and the configuration stay as
    they were. *)
Theorem status_backoff_consistent (self : RateLimiter) (now : Q) :
  let after := snd (get_status now self) in
  (backoff_overflows self = false ->
   exists report,
     fst (get_status now self) = Return report
     /\ (0 <= backoff_time_remaining report)%Q
     /\ (in_backoff report = true <-> (0 < backoff_time_remaining report)%Q)
     /\ _is_in_backoff self now = Return (in_backoff report))
  /\ (backoff_overflows self = true -> fst (get_status now self) = Raise OverflowError)
  /\ after = _refill_tokens self now
  /\ request_times after = request_times self
  /\ consecutive_failures after = consecutive_failures self
  /\ last_failure_time after = last_failure_time self
  /\ config after = config self.
Proof.
  cbn zeta. unfold get_status. cbn [fst snd].
  change (consecutive_failures (_refill_tokens self now)) with (consecutive_failures self).
  change (last_failure_time (_refill_tokens self now)) with (last_failure_time self).
  change (_get_backoff_time (_refill_tokens self now)) with (_get_backoff_time self).
  change (_is_in_backoff (_refill_tokens self now) now) with (_is_in_backoff self now).
  split; [|split; [|repeat split]].
  - intros E. rewrite (is_in_backoff_in_range _ _ E), (backoff_time_in_range _ E).
    destruct (consecutive_failures self) as [|n]; cbn [Nat.eqb Nat.ltb Nat.leb negb andb].
    + eexists. split; [reflexivity|]. cbn [backoff_time_remaining in_backoff].
      split; [lra|]. split; [|reflexivity]. split; [discriminate | intros H; lra].
    + eexists. split; [reflexivity|]. cbn [backoff_time_remaining in_backoff].
      unfold py_max. rewrite Qltb_lt.
      destruct (Qltb 0 _) eqn:Hpos.
      * apply Qltb_lt in Hpos. split; [lra|]. split; [|reflexivity]. split; intros; lra.
      * apply Qltb_ge in Hpos. split; [lra|]. split; [|reflexivity]. split; intros; lra.
  - intros E. rewrite (is_in_backoff_overflow _ _ E). reflexivity.
Qed.

Lemma status_backoff_consistent_witness :
  fst (get_status 1 (failed_times 1024 0)) = Raise OverflowError
  /\ tokens (snd (get_status 1 (failed_times 1024 0)))
     = tokens (_refill_tokens (failed_times 1024 0) 1).
Proof.
  destruct (status_backoff_consistent (failed_times 1024 0) 1) as (_ & Hraise & -> & _).
  split; [apply Hraise; vm_compute; reflexivity | reflexivity].
Defined.

(** *** The registry of limiters *)

(** X6. [get_limiter] creates a limiter on first use only: for a service that
    has one it returns it and leaves the registry alone; for a new service it
    registers a limiter with a full bucket, configured from the entry of the
    service in [default_configs] or else from the ["default"] entry, and the
    limiters of the other services are untouched. Asking again returns the
    same limiter. *)
Theorem get_limiter_creates_once (now now' : Q) (service : string)
    (g : GlobalRateLimiter) :
  let l := fst (get_limiter now service g) in
  let g' := snd (get_limiter now service g) in
  limiters g' !! service = Some l
  /\ get_limiter now' service g' = (l, g')
  /\ (forall other, other <> service -> limiters g' !! other = limiters g !! other)
  /\ default_configs g' = default_configs g
  /\ (forall existing, limiters g !! service = Some existing -> l = existing /\ g' = g)
  /\ (limiters g !! service = None ->
      l = init (default (default default_config (default_configs g !! "default"))
                        (default_configs g !! service)) now).
Proof.
  cbn zeta. destruct (limiters g !! service) as [existing|] eqn:E.
  - assert (get_limiter now service g = (existing, g)) as ->
        by (unfold get_limiter; rewrite E; reflexivity).
    cbn [fst snd].
    split; [exact E|]. split; [unfold get_limiter; rewrite E; reflexivity|].
    split; [reflexivity|]. split; [reflexivity|].
    split; [intros ? [= <-]; split; reflexivity | discriminate].
  - set (cfg := default (default default_config (default_configs g !! "default"))
                        (default_configs g !! service)).
    assert (get_limiter now service g
            = (init cfg now, {| limiters := <[service := init cfg now]> (limiters g);
                                default_configs := default_configs g |})) as ->
        by (unfold get_limiter; rewrite E; reflexivity).
    cbn [fst snd limiters default_configs].
    split; [apply lookup_insert_eq|].
    split; [unfold get_limiter; cbn [limiters]; rewrite lookup_insert_eq; reflexivity|].
    split; [intros other Hne; apply lookup_insert_ne; congruence|].
    split; [reflexivity|]. split; [discriminate | reflexivity].
Qed.

(** X7. [record_success] and [record_failure] of the registry do nothing for
    a service that has no limiter yet; for a service that has one they update
    that limiter and no other. *)
Theorem registry_records_known_services_only (now : Q) (service : string)
    (g : GlobalRateLimiter) :
  (limiters g !! service = None ->
   global_record_success service g = g /\ global_record_failure now service g = g)
  /\ (forall l, limiters g !! service = Some l ->
      limiters (global_record_success service g) !! service = Some (record_success l)
      /\ limiters (global_record_failure now service g) !! service
         = Some (record_failure now l))
  /\ (forall other, other <> service ->
      limiters (global_record_success service g) !! other = limiters g !! other
      /\ limiters (global_record_failure now service g) !! other = limiters g !! other).
Proof.
  unfold global_record_success, global_record_failure.
  destruct (limiters g !! service) as [l|] eqn:E.
  - split; [discriminate|]. split.
    + intros ? [= <-]. cbn [limiters]. rewrite !lookup_insert_eq. split; reflexivity.
    + intros other Hne. cbn [limiters].
      rewrite !lookup_insert_ne by congruence. split; reflexivity.
  - split; [split; reflexivity|]. split; [discriminate|].
    intros other _. split; reflexivity.
Qed.

(** X8. [configure_service] stores the configuration for the service. A
    limiter the service already had is replaced by a fresh one, so its window,
    its failure count and its used tokens are forgotten; no limiter is created
    otherwise, and the next [get_limiter] creates it with the new
    configuration. Other services keep their limiter and configuration. *)
Theorem configure_service_resets (now now' : Q) (service : string)
    (cfg : RateLimitConfig) (g : GlobalRateLimiter) :
  let g' := configure_service now service cfg g in
  default_configs g' !! service = Some cfg
  /\ (is_Some (limiters g !! service) -> limiters g' !! service = Some (init cfg now))
  /\ (limiters g !! service = None -> limiters g' !! service = None)
  /\ fst (get_limiter now' service g')
     = match limiters g !! service with
       | Some _ => init cfg now
       | None => init cfg now'
       end
  /\ (forall other, other <> service ->
      limiters g' !! other = limiters g !! other
      /\ default_configs g' !! other = default_configs g !! other).
Proof.
  cbn zeta. unfold configure_service, get_limiter. cbn [limiters default_configs].
  rewrite lookup_insert_eq.
  destruct (limiters g !! service) as [l|] eqn:E.
  - rewrite lookup_insert_eq. cbn [fst default].
    split; [reflexivity|]. split; [reflexivity|]. split; [discriminate|].
    split; [reflexivity|]. intros other Hne.
    rewrite !lookup_insert_ne by congruence. split; reflexivity.
  - rewrite E. cbn [fst default].
    split; [reflexivity|]. split; [intros [? [=]]|]. split; [reflexivity|].
    split; [reflexivity|]. intros other Hne.
    rewrite lookup_insert_ne by congruence. split; reflexivity.
Qed.

Lemma configure_service_resets_witness :
  limiters (configure_service 5 "probe" default_config registry_drained) !! "probe"
  = Some (init default_config 5).
Proof.
  apply (configure_service_resets 5 5 "probe" default_config registry_drained).
  vm_compute. eauto.
Defined.

(** *** Admitted calls *)

Lemma global_acquire_registers clk service g :
  limiters (snd (global_acquire clk service g)) !! service
  = Some (limiter (fst (global_acquire clk service g))).
Proof.
  unfold global_acquire. destruct (get_limiter _ _ _) as [l g'].
  cbn [fst snd limiters]. apply lookup_insert_eq.
Qed.

(** X9. When [acquire] admits the call, [with_rate_limit] runs the body of
    the callable once. If it returns, the caller gets its value and the
    failure count of the service is reset to 0; if it raises, the caller gets
    the same exception, the failure count goes up by one and the time of the
    failure is stamped. The wrapper made by [rate_limited] does the same for a
    coroutine function, and for a plain function that raises. A plain
    function that returns a value that cannot be awaited is run once too, but
    the wrapper then raises [TypeError] and records a failure. *)
Theorem admitted_call_is_recorded {W : Type} (clk : Clock) (service : string)
    (func : Callable W) (g : GlobalRateLimiter) (w : W) :
  result (fst (global_acquire clk service g)) = Return true ->
  let admitted := limiter (fst (global_acquire clk service g)) in
  let call := with_rate_limit clk service func g w in
  let wrapped := rate_limited service func clk g w in
  seen call = fst (body_of func w)
  /\ world call = snd (body_of func w)
  /\ (forall v, fst (body_of func w) = Return v ->
      limiters (registry call) !! service = Some (record_success admitted))
  /\ (forall e, fst (body_of func w) = Raise e ->
      limiters (registry call) !! service
      = Some (record_failure (t_failure clk) admitted))
  /\ (iscoroutinefunction func = true -> wrapped = call)
  /\ (iscoroutinefunction func = false ->
      forall e, fst (body_of func w) = Raise e -> wrapped = call)
  /\ (iscoroutinefunction func = false ->
      forall v, fst (body_of func w) = Return v -> awaitable v = false ->
      seen wrapped = Raise (not_awaitable v)
      /\ world wrapped = snd (body_of func w)
      /\ limiters (registry wrapped) !! service
         = Some (record_failure (t_failure clk) admitted)).
Proof.
  intros Hres. cbn zeta.
  pose proof (global_acquire_registers clk service g) as Hreg.
  assert (limiters (global_record_success service
                      (snd (global_acquire clk service g))) !! service
          = Some (record_success (limiter (fst (global_acquire clk service g)))))
    as Hsuccess.
  { unfold global_record_success. rewrite Hreg. cbn [limiters]. apply lookup_insert_eq. }
  assert (limiters (global_record_failure (t_failure clk) service
                      (snd (global_acquire clk service g))) !! service
          = Some (record_failure (t_failure clk)
                    (limiter (fst (global_acquire clk service g))))) as Hfailure.
  { unfold global_record_failure. rewrite Hreg. cbn [limiters]. apply lookup_insert_eq. }
  unfold with_rate_limit, rate_limited.
  destruct (global_acquire clk service g) as [a g']. cbn [fst snd] in *.
  rewrite Hres.
  destruct func as [body|body]; unfold await_call, py_call;
    cbn [body_of iscoroutinefunction await];
    destruct (body w) as [[v|e] w'] eqn:Hbody; cbn [fst snd seen world registry].
  - repeat split; try discriminate; auto.
  - repeat split; try discriminate; auto.
  - split; [reflexivity|]. split; [reflexivity|]. split; [auto|].
    split; [discriminate|]. split; [discriminate|]. split; [discriminate|].
    intros _ ? [= <-] Hv. destruct v; try discriminate Hv; cbn [await seen world registry];
      repeat split; exact Hfailure.
  - split; [reflexivity|]. split; [reflexivity|]. split; [discriminate|].
    split; [auto|]. split; [discriminate|]. split; [reflexivity|]. discriminate.
Qed.

Lemma admitted_call_is_recorded_witness :
  seen (with_rate_limit noon "linkedin" counting global_init 0%nat) = Return (PyInt 1)
  /\ world (with_rate_limit noon "linkedin" counting global_init 0%nat) = 1%nat
  /\ rate_limited "linkedin" counting noon global_init 0%nat
     = with_rate_limit noon "linkedin" counting global_init 0%nat.
Proof.
  assert (result (fst (global_acquire noon "linkedin" global_init)) = Return true)
    as Hres by (vm_compute; reflexivity).
  destruct (admitted_call_is_recorded noon "linkedin" counting global_init 0%nat Hres)
    as (Hseen & Hworld & _ & _ & Hsame & _).
  split; [exact Hseen|]. split; [exact Hworld | exact (Hsame eq_refl)].
Defined.

(** *** The report on every service *)

Lemma get_status_refills now l : snd (get_status now l) = _refill_tokens l now.
Proof. reflexivity. Qed.

Lemma get_status_answers now l :
  backoff_overflows l = false -> exists st, fst (get_status now l) = Return st.
Proof.
  intros E. unfold get_status. cbn [fst].
  change (_is_in_backoff (_refill_tokens l now) now) with (_is_in_backoff l now).
  change (_get_backoff_time (_refill_tokens l now)) with (_get_backoff_time l).
  rewrite (is_in_backoff_in_range _ _ E), (backoff_time_in_range _ E).
  destruct (Nat.ltb 0 _); eauto.
Qed.

(** The loop of [get_all_status]: it visits the limiters of [order] and
    refills them, creates none, and reports on each of them when none of the
    reports raises. *)
Lemma all_status_from_limiters clock order : forall ls report service,
  let after := snd (all_status_from clock order ls report) in
  (is_Some (after !! service) <-> is_Some (ls !! service))
  /\ (forall l', after !! service = Some l' ->
      exists l, ls !! service = Some l
                /\ request_times l' = request_times l
                /\ consecutive_failures l' = consecutive_failures l
                /\ config l' = config l).
Proof.
  induction order as [|s rest IH]; intros ls report service; cbn [all_status_from].
  - cbn [snd]. split; [reflexivity|]. intros l' Hl. exists l'. auto.
  - destruct (ls !! s) as [l|] eqn:Hs; [|apply IH].
    destruct (get_status (clock s) l) as [st l0] eqn:Hst.
    assert (l0 = _refill_tokens l (clock s)) as ->
        by (rewrite <- get_status_refills, Hst; reflexivity).
    assert (is_Some (<[s := _refill_tokens l (clock s)]> ls !! service)
            <-> is_Some (ls !! service)) as Hkeys.
    { destruct (decide (s = service)) as [<-|Hne].
      - rewrite lookup_insert_eq, Hs. split; eauto.
      - rewrite lookup_insert_ne by exact Hne. reflexivity. }
    assert (forall l', <[s := _refill_tokens l (clock s)]> ls !! service = Some l' ->
            exists l1, ls !! service = Some l1
                       /\ request_times l' = request_times l1
                       /\ consecutive_failures l' = consecutive_failures l1
                       /\ config l' = config l1) as Hframe.
    { intros l'. destruct (decide (s = service)) as [<-|Hne].
      - rewrite lookup_insert_eq. intros [= <-]. exists l. auto.
      - rewrite lookup_insert_ne by exact Hne. intros Hl. exists l'. auto. }
    destruct st as [st|e].
    + destruct (IH (<[s := _refill_tokens l (clock s)]> ls) (<[s := st]> report) service)
        as [IHkeys IHframe].
      split; [rewrite IHkeys; exact Hkeys|].
      intros l' Hl. destruct (IHframe l' Hl) as (l1 & Hl1 & Ht & Hf & Hc).
      destruct (Hframe l1 Hl1) as (l2 & Hl2 & Ht2 & Hf2 & Hc2).
      exists l2. repeat split; congruence.
    + cbn [snd]. split; [exact Hkeys | exact Hframe].
Qed.

Lemma all_status_from_report clock order : forall ls report result service,
  NoDup order ->
  fst (all_status_from clock order ls report) = Return result ->
  Return <$> result !! service
  = match (if bool_decide (service ∈ order) then ls !! service else None) with
    | Some l => Some (fst (get_status (clock service) l))
    | None => Return <$> report !! service
    end.
Proof.
  induction order as [|s rest IH]; intros ls report result service Hnd;
    cbn [all_status_from].
  - cbn [fst]. intros [= <-]. rewrite bool_decide_eq_false_2 by apply not_elem_of_nil.
    reflexivity.
  - apply NoDup_cons in Hnd as [Hfresh Hnd].
    destruct (ls !! s) as [l|] eqn:Hs.
    + destruct (get_status (clock s) l) as [[st|e] l0] eqn:Hst; [|discriminate].
      intros Hres. rewrite (IH _ _ _ service Hnd Hres).
      destruct (decide (s = service)) as [<-|Hne].
      * rewrite (bool_decide_eq_false_2 _ Hfresh).
        rewrite (bool_decide_eq_true_2 (s ∈ s :: rest)) by left.
        rewrite lookup_insert_eq, Hs, Hst. reflexivity.
      * rewrite !lookup_insert_ne by exact Hne.
        destruct (bool_decide (service ∈ rest)) eqn:Hin.
        -- apply bool_decide_eq_true in Hin.
           rewrite (bool_decide_eq_true_2 (service ∈ s :: rest)) by (right; exact Hin).
           reflexivity.
        -- apply bool_decide_eq_false in Hin.
           rewrite (bool_decide_eq_false_2 (service ∈ s :: rest)); [reflexivity|].
           intros [?|?]%elem_of_cons; [congruence | contradiction].
    + intros Hres. rewrite (IH _ _ _ service Hnd Hres).
      destruct (decide (s = service)) as [<-|Hne].
      * rewrite (bool_decide_eq_false_2 _ Hfresh).
        rewrite (bool_decide_eq_true_2 (s ∈ s :: rest)) by left.
        rewrite Hs. reflexivity.
      * destruct (bool_decide (service ∈ rest)) eqn:Hin.
        -- apply bool_decide_eq_true in Hin.
           rewrite (bool_decide_eq_true_2 (service ∈ s :: rest)) by (right; exact Hin).
           reflexivity.
        -- apply bool_decide_eq_false in Hin.
           rewrite (bool_decide_eq_false_2 (service ∈ s :: rest)); [reflexivity|].
           intros [?|?]%elem_of_cons; [congruence | contradiction].
Qed.

Lemma all_status_from_answers clock order : forall ls report,
  (forall service l, ls !! service = Some l -> backoff_overflows l = false) ->
  exists result, fst (all_status_from clock order ls report) = Return result.
Proof.
  induction order as [|s rest IH]; intros ls report Hrange; cbn [all_status_from].
  - eauto.
  - destruct (ls !! s) as [l|] eqn:Hs; [|apply IH; exact Hrange].
    destruct (get_status_answers (clock s) l (Hrange _ _ Hs)) as [st Hst].
    destruct (get_status (clock s) l) as [o l0] eqn:Hget.
    assert (l0 = _refill_tokens l (clock s)) as ->
        by (rewrite <- get_status_refills, Hget; reflexivity).
    cbn [fst] in Hst. subst o. apply IH.
    intros service l'. destruct (decide (s = service)) as [<-|Hne].
    + rewrite lookup_insert_eq. intros [= <-]. exact (Hrange _ _ Hs).
    + rewrite lookup_insert_ne by exact Hne. apply Hrange.
Qed.

(** X10. With [order] the order in which the registry yields its limiters:
    [get_all_status] creates no limiter and leaves the window, the failure
    count and the configuration of every limiter as they were, whether it
    returns or raises. When it returns, it reports on the services that have
    a limiter and on no other, each with the report of its own limiter; and it
    returns whenever the backoff power of every limiter is in the range of a
    float. *)
Theorem get_all_status_lists_limiters (clock : string -> Q) (order : list string)
    (g : GlobalRateLimiter) (service : string) :
  visits order g ->
  let g' := snd (get_all_status clock order g) in
  (forall report,
      fst (get_all_status clock order g) = Return report ->
      Return <$> report !! service
      = (fun l => fst (get_status (clock service) l)) <$> limiters g !! service)
  /\ ((forall s l, limiters g !! s = Some l -> backoff_overflows l = false) ->
      exists report, fst (get_all_status clock order g) = Return report)
  /\ (is_Some (limiters g' !! service) <-> is_Some (limiters g !! service))
  /\ (forall l', limiters g' !! service = Some l' ->
      exists l, limiters g !! service = Some l
                /\ request_times l' = request_times l
                /\ consecutive_failures l' = consecutive_failures l)
  /\ default_configs g' = default_configs g.
Proof.
  intros [Hnd Hkeys]. cbn zeta. unfold get_all_status.
  pose proof (all_status_from_limiters clock order (limiters g) ∅ service) as [Hsame Hframe].
  pose proof (all_status_from_report clock order (limiters g) ∅) as Hreport.
  pose proof (all_status_from_answers clock order (limiters g) ∅) as Hanswers.
  destruct (all_status_from clock order (limiters g) ∅) as [o ls].
  cbn [fst snd limiters default_configs] in *.
  split; [|split; [exact Hanswers|split; [exact Hsame|split; [|reflexivity]]]].
  - intros report ->. rewrite (Hreport report service Hnd eq_refl).
    rewrite lookup_empty.
    destruct (limiters g !! service) as [l|] eqn:Hl.
    + rewrite bool_decide_eq_true_2 by (apply Hkeys; eauto). reflexivity.
    + destruct (bool_decide _); reflexivity.
  - intros l' Hl. destruct (Hframe l' Hl) as (l & ? & ? & ? & _). eauto.
Qed.

Lemma get_all_status_lists_limiters_witness :
  visits ["probe"] registry_drained
  /\ exists report,
       fst (get_all_status (fun _ => 1%Q) ["probe"] registry_drained) = Return report.
Proof.
  assert (visits ["probe"] registry_drained) as Hvisits.
  { split; [repeat constructor; apply not_elem_of_nil|].
    intros service. rewrite list_elem_of_singleton.
    change (limiters registry_drained)
      with (<["probe" := limiter (acquire 0 (init cfg_single 0))]>
              (∅ : gmap string RateLimiter)).
    destruct (decide (service = "probe")) as [->|Hne].
    - rewrite lookup_insert_eq. split; eauto.
    - rewrite lookup_insert_ne by congruence. rewrite lookup_empty.
      split; [contradiction | intros [? [=]]]. }
  split; [exact Hvisits|].
  apply (get_all_status_lists_limiters (fun _ => 1%Q) ["probe"] registry_drained "probe"
           Hvisits).
  intros s l.
  change (limiters registry_drained)
    with (<["probe" := limiter (acquire 0 (init cfg_single 0))]>
            (∅ : gmap string RateLimiter)).
  destruct (decide (s = "probe")) as [->|Hne].
  - rewrite lookup_insert_eq. intros [= <-]. vm_compute. reflexivity.
  - rewrite lookup_insert_ne by congruence. rewrite lookup_empty. discriminate.
Defined.

End RateLimitMore.

(** * More properties of the batch orchestrator *)

Module WorkflowMore.
Import Workflow WorkflowFacts.

(** *** The shape of a job run *)

(** A job whose row was read runs the Filter stage when it is enabled, and
    then either returns as rejected or goes through steps 2 to 5. *)
Lemma job_run env request jid tr job_data :
  db_jobs env jid = Row job_data ->
  exists fr sF,
    stage_result "filtering" (set_filter_result fr) (started jid job_data tr) sF
    /\ (enable_filtering request = false -> sF = started jid job_data tr)
    /\ ((enable_filtering request = true
         /\ _process_single_job env request jid tr
            = (Return (set_overall_status SKIPPED (jr sF)), trace sF))
        \/ exists s1 s2 s3 s4,
             optional (enable_resume_customization request)
               (_execute_resume_customization_step env job_data) sF = (Return tt, s1)
             /\ optional (enable_contact_finding request)
                  (_execute_contact_finding_step env job_data) s1 = (Return tt, s2)
             /\ optional (enable_email_generation request)
                  (_execute_email_generation_step env job_data (email_template request)) s2
                = (Return tt, s3)
             /\ optional (enable_document_generation request)
                  (_execute_document_generation_step env job_data
                     (document_formats request)) s3 = (Return tt, s4)
             /\ _process_single_job env request jid tr
                = (Return (jr (finished s4)), trace (finished s4))).
Proof.
  intros Hrow.
  destruct (process_single_job_row env request jid tr job_data Hrow)
    as (b & s' & Hp & Hjob).
  rewrite pipeline_run in Hp.
  destruct (enable_filtering request).
  - cbv zeta in Hp.
    destruct (filtering_step_spec env job_data (filter_criteria request)
                (started jid job_data tr)) as (st & fr & evs & Heq & Hn & _ & Hst).
    rewrite Heq in Hp. cbn [snd] in Hp.
    eexists fr, _. split.
    { apply (stage_ran _ _ _ _ st evs); [reflexivity | exact Hn | tauto]. }
    split; [discriminate|].
    revert Hp. destruct (bool_decide _); intros Hp.
    + left. injection Hp as _ <-. split; [reflexivity | exact Hjob].
    + right.
      match type of Hp with
      | later_stages _ _ _ ?s0 = _ =>
          destruct (later_stages_run env request job_data s0)
            as (s1 & s2 & s3 & s4 & H1 & H2 & H3 & H4 & Hrun)
      end.
      rewrite Hrun in Hp. injection Hp as _ <-.
      exists s1, s2, s3, s4. tauto.
  - exists None, (started jid job_data tr).
    split; [apply stage_disabled; reflexivity|]. split; [reflexivity|]. right.
    destruct (later_stages_run env request job_data (started jid job_data tr))
      as (s1 & s2 & s3 & s4 & H1 & H2 & H3 & H4 & Hrun).
    rewrite Hrun in Hp. injection Hp as _ <-.
    exists s1, s2, s3, s4. tauto.
Qed.

Lemma stage_result_steps_ended nm artifact s s' :
  stage_result nm artifact s s' ->
  (forall r, steps (artifact r) = steps r) ->
  steps_ended (steps (jr s)) -> steps_ended (steps (jr s')).
Proof.
  intros [-> | st evs -> Hn Hst] Ha Hok; [exact Hok|].
  cbn [jr]. rewrite Ha. cbn [steps set_steps].
  intros k st' Hl. destruct (decide (nm = k)) as [<-|Hne].
  - rewrite lookup_insert_eq in Hl. injection Hl as <-. tauto.
  - rewrite lookup_insert_ne in Hl by exact Hne. apply Hok. exact Hl.
Qed.

(** What a stage behind its flag does to the record of a step: nothing, when
    the step is that of another stage or the flag is off. *)
Lemma optional_stage_lookup nm artifact enabled (stage : M PState unit) s s' k :
  optional enabled stage s = (Return tt, s') ->
  stage_result nm artifact s s' ->
  (forall r, steps (artifact r) = steps r) ->
  k <> nm \/ enabled = false ->
  steps (jr s') !! k = steps (jr s) !! k.
Proof.
  intros Hopt Hres Ha [Hne | ->].
  - apply (stage_result_other_steps _ _ _ _ _ Hres Ha Hne).
  - unfold optional in Hopt. injection Hopt as <-. reflexivity.
Qed.

(** X11. In every result that [_process_single_job] returns, each recorded
    step is filed under its own name and has ended, Completed or Failed: no
    step is left Pending or In progress, and none is Skipped. *)
Theorem recorded_steps_have_ended (env : Env) (request : BatchProcessingRequest)
    (jid : Z) (tr tr' : list Event) (r : JobProcessingResult) :
  _process_single_job env request jid tr = (Return r, tr') ->
  forall nm st, steps r !! nm = Some st ->
    name st = nm /\ (status st = COMPLETED \/ status st = FAILED).
Proof.
  intros Hjob. change (steps_ended (steps r)).
  destruct (db_jobs env jid) as [| | |job_data] eqn:Hrow.
  - rewrite job_row_connect_fails in Hjob by exact Hrow. discriminate.
  - rewrite process_single_job_no_row in Hjob by auto. injection Hjob as <- _.
    intros nm st Hl. cbn [steps job_not_found] in Hl.
    apply lookup_singleton_Some in Hl as [<- <-]. cbn. auto.
  - rewrite process_single_job_no_row in Hjob by auto. injection Hjob as <- _.
    intros nm st Hl. cbn [steps job_not_found] in Hl.
    apply lookup_singleton_Some in Hl as [<- <-]. cbn. auto.
  - destruct (job_run env request jid tr job_data Hrow)
      as (fr & sF & HF & _ & [(_ & Hrej) | (s1 & s2 & s3 & s4 & H1 & H2 & H3 & H4 & Hrun)]).
    + rewrite Hrej in Hjob. injection Hjob as <- _.
      change (steps_ended (steps (jr sF))).
      apply (stage_result_steps_ended _ _ _ _ HF); [reflexivity|].
      intros nm st Hl. cbn in Hl. rewrite lookup_empty in Hl. discriminate.
    + rewrite Hrun in Hjob. injection Hjob as <- _.
      change (steps_ended (steps (jr s4))).
      apply optional_resume_result in H1 as [? H1].
      apply optional_contact_result in H2 as [? H2].
      apply optional_email_result in H3 as [? H3].
      apply optional_document_result in H4 as [? H4].
      apply (stage_result_steps_ended _ _ _ _ H4); [reflexivity|].
      apply (stage_result_steps_ended _ _ _ _ H3); [reflexivity|].
      apply (stage_result_steps_ended _ _ _ _ H2); [reflexivity|].
      apply (stage_result_steps_ended _ _ _ _ H1); [reflexivity|].
      apply (stage_result_steps_ended _ _ _ _ HF); [reflexivity|].
      intros nm st Hl. cbn in Hl. rewrite lookup_empty in Hl. discriminate.
Qed.

Lemma recorded_steps_have_ended_witness :
  name (dependency_missing "document_generation" no_resume_message)
  = "document_generation"%string
  /\ (status (dependency_missing "document_generation" no_resume_message) = COMPLETED
      \/ status (dependency_missing "document_generation" no_resume_message) = FAILED).
Proof.
  apply (recorded_steps_have_ended env_sample (request_sample [1; 2; 3]) 2 []
           (snd (_process_single_job env_sample (request_sample [1; 2; 3]) 2 []))
           (returned_result
              (_process_single_job env_sample (request_sample [1; 2; 3]) 2 []) 2)).
  - vm_compute. reflexivity.
  - vm_compute. reflexivity.
Defined.

(** X12. A stage whose flag is off leaves no record: in every returned
    result, the step of a disabled stage is absent. *)
Theorem disabled_stage_has_no_step (env : Env) (request : BatchProcessingRequest)
    (jid : Z) (tr tr' : list Event) (r : JobProcessingResult) :
  _process_single_job env request jid tr = (Return r, tr') ->
  (enable_filtering request = false -> steps r !! "filtering" = None)
  /\ (enable_resume_customization request = false ->
      steps r !! "resume_customization" = None)
  /\ (enable_contact_finding request = false -> steps r !! "contact_finding" = None)
  /\ (enable_email_generation request = false -> steps r !! "email_generation" = None)
  /\ (enable_document_generation request = false ->
      steps r !! "document_generation" = None).
Proof.
  intros Hjob.
  destruct (db_jobs env jid) as [| | |job_data] eqn:Hrow.
  - rewrite job_row_connect_fails in Hjob by exact Hrow. discriminate.
  - rewrite process_single_job_no_row in Hjob by auto. injection Hjob as <- _.
    cbn [steps job_not_found].
    repeat split; intros _; apply lookup_singleton_ne; discriminate.
  - rewrite process_single_job_no_row in Hjob by auto. injection Hjob as <- _.
    cbn [steps job_not_found].
    repeat split; intros _; apply lookup_singleton_ne; discriminate.
  - destruct (job_run env request jid tr job_data Hrow)
      as (fr & sF & HF & Hoff & [(Hon & Hrej) | (s1 & s2 & s3 & s4 & H1 & H2 & H3 & H4 & Hrun)]).
    + rewrite Hrej in Hjob. injection Hjob as <- _.
      change (steps (set_overall_status SKIPPED (jr sF))) with (steps (jr sF)).
      split; [congruence|].
      repeat split; intros _;
        rewrite (stage_result_other_steps _ _ _ _ _ HF) by (reflexivity || discriminate);
        apply lookup_empty.
    + rewrite Hrun in Hjob. injection Hjob as <- _.
      change (steps (jr (finished s4))) with (steps (jr s4)).
      pose proof H1 as [? F1]%optional_resume_result.
      pose proof H2 as [? F2]%optional_contact_result.
      pose proof H3 as [? F3]%optional_email_result.
      pose proof H4 as [? F4]%optional_document_result.
      assert (forall k,
                (k <> "resume_customization" \/ enable_resume_customization request = false) ->
                (k <> "contact_finding" \/ enable_contact_finding request = false) ->
                (k <> "email_generation" \/ enable_email_generation request = false) ->
                (k <> "document_generation" \/ enable_document_generation request = false) ->
                steps (jr s4) !! k = steps (jr sF) !! k) as Hchain.
      { intros k K1 K2 K3 K4.
        rewrite (optional_stage_lookup _ _ _ _ _ _ k H4 F4) by (reflexivity || exact K4).
        rewrite (optional_stage_lookup _ _ _ _ _ _ k H3 F3) by (reflexivity || exact K3).
        rewrite (optional_stage_lookup _ _ _ _ _ _ k H2 F2) by (reflexivity || exact K2).
        rewrite (optional_stage_lookup _ _ _ _ _ _ k H1 F1) by (reflexivity || exact K1).
        reflexivity. }
      split; [|split; [|split; [|split]]]; intros Hflag.
      * rewrite Hchain by (left; discriminate). rewrite (Hoff Hflag). apply lookup_empty.
      * rewrite Hchain by (auto || left; discriminate).
        rewrite (stage_result_other_steps _ _ _ _ _ HF) by (reflexivity || discriminate).
        apply lookup_empty.
      * rewrite Hchain by (auto || left; discriminate).
        rewrite (stage_result_other_steps _ _ _ _ _ HF) by (reflexivity || discriminate).
        apply lookup_empty.
      * rewrite Hchain by (auto || left; discriminate).
        rewrite (stage_result_other_steps _ _ _ _ _ HF) by (reflexivity || discriminate).
        apply lookup_empty.
      * rewrite Hchain by (auto || left; discriminate).
        rewrite (stage_result_other_steps _ _ _ _ _ HF) by (reflexivity || discriminate).
        apply lookup_empty.
Qed.

Lemma disabled_stage_has_no_step_witness :
  steps (returned_result
           (_process_single_job env_sample request_without_contacts 3 []) 3)
    !! "contact_finding" = None.
Proof.
  apply (disabled_stage_has_no_step env_sample request_without_contacts 3 []
           (snd (_process_single_job env_sample request_without_contacts 3 []))
           _ ltac:(vm_compute; reflexivity)).
  reflexivity.
Defined.

(** *** The results a batch records *)

Lemma returned_job_id env request jid tr tr' r :
  _process_single_job env request jid tr = (Return r, tr') -> job_id r = jid.
Proof.
  intros Hjob.
  destruct (db_jobs env jid) as [| | |job_data] eqn:Hrow.
  - rewrite job_row_connect_fails in Hjob by exact Hrow. discriminate.
  - rewrite process_single_job_no_row in Hjob by auto. injection Hjob as <- _. reflexivity.
  - rewrite process_single_job_no_row in Hjob by auto. injection Hjob as <- _. reflexivity.
  - destruct (job_run env request jid tr job_data Hrow)
      as (fr & sF & HF & _ & [(_ & Hrej) | (s1 & s2 & s3 & s4 & H1 & H2 & H3 & H4 & Hrun)]).
    + rewrite Hrej in Hjob. injection Hjob as <- _.
      change (job_id (jr sF) = jid).
      rewrite (stage_result_keeps job_id _ _ _ _ HF) by reflexivity. reflexivity.
    + rewrite Hrun in Hjob. injection Hjob as <- _.
      change (job_id (jr s4) = jid).
      apply optional_resume_result in H1 as [? H1].
      apply optional_contact_result in H2 as [? H2].
      apply optional_email_result in H3 as [? H3].
      apply optional_document_result in H4 as [? H4].
      rewrite (stage_result_keeps job_id _ _ _ _ H4) by reflexivity.
      rewrite (stage_result_keeps job_id _ _ _ _ H3) by reflexivity.
      rewrite (stage_result_keeps job_id _ _ _ _ H2) by reflexivity.
      rewrite (stage_result_keeps job_id _ _ _ _ H1) by reflexivity.
      rewrite (stage_result_keeps job_id _ _ _ _ HF) by reflexivity. reflexivity.
Qed.

Lemma job_returns_unless_connection_fails env request jid tr :
  db_jobs env jid <> ConnectFails ->
  exists r tr', _process_single_job env request jid tr = (Return r, tr').
Proof.
  intros Hc. destruct (db_jobs env jid) as [| | |job_data] eqn:Hrow; [contradiction| | |].
  - rewrite process_single_job_no_row by auto. eauto.
  - rewrite process_single_job_no_row by auto. eauto.
  - destruct (process_single_job_row env request jid tr job_data Hrow)
      as (b & s' & _ & ->). eauto.
Qed.

(** The tasks [gather] hands back are the runs of the jobs of the list. *)
Lemma gather_tasks env request ids : forall tr task,
  task ∈ fst (gather env request ids tr) ->
  exists jid tr0,
    jid ∈ ids
    /\ task = match fst (_process_single_job env request jid tr0) with
              | Return r => Return (jid, r)
              | Raise e => Raise e
              end.
Proof.
  induction ids as [|jid rest IH]; intros tr task; cbn [gather fst].
  - intros H. inversion H.
  - destruct (_process_single_job env request jid tr) as [o tr1] eqn:E.
    specialize (IH tr1 task). destruct (gather env request rest tr1) as [tasks tr2].
    cbn [fst] in *. intros Hin. apply elem_of_cons in Hin as [-> | Hin].
    + exists jid, tr. rewrite E. split; [left | reflexivity].
    + destruct (IH Hin) as (j & tr0 & Hj & ->). exists j, tr0. split; [right; exact Hj | reflexivity].
Qed.

Lemma gather_runs_every_job env request ids : forall tr jid,
  jid ∈ ids ->
  exists tr0,
    match fst (_process_single_job env request jid tr0) with
    | Return r => Return (jid, r)
    | Raise e => Raise e
    end ∈ fst (gather env request ids tr).
Proof.
  induction ids as [|j rest IH]; intros tr jid Hin; [inversion Hin|].
  cbn [gather]. destruct (_process_single_job env request j tr) as [o tr1] eqn:E.
  specialize (IH tr1 jid). destruct (gather env request rest tr1) as [tasks tr2].
  cbn [fst] in *. apply elem_of_cons in Hin as [-> | Hin].
  - exists tr. rewrite E. left.
  - destruct (IH Hin) as [tr0 H0]. exists tr0. right. exact H0.
Qed.

Lemma tally_results_from tasks : forall acc jid r,
  t_job_results (fold_left tally_task tasks acc) !! jid = Some r ->
  t_job_results acc !! jid = Some r \/ Return (jid, r) ∈ tasks.
Proof.
  induction tasks as [|task rest IH]; intros acc jid r; cbn [fold_left]; [auto|].
  intros H. destruct (IH _ _ _ H) as [Hacc | Hin]; [|right; right; exact Hin].
  destruct task as [[j r']|e]; cbn [tally_task] in Hacc.
  - assert (<[j := r']> (t_job_results acc) !! jid = Some r) as Hl
        by (destruct (bool_decide _); exact Hacc).
    destruct (decide (j = jid)) as [->|Hne].
    + rewrite lookup_insert_eq in Hl. injection Hl as ->. right. left.
    + rewrite lookup_insert_ne in Hl by exact Hne. left. exact Hl.
  - left. exact Hacc.
Qed.

Lemma tally_results_keep tasks : forall acc jid,
  is_Some (t_job_results acc !! jid) \/ (exists r, Return (jid, r) ∈ tasks) ->
  is_Some (t_job_results (fold_left tally_task tasks acc) !! jid).
Proof.
  induction tasks as [|task rest IH]; intros acc jid; cbn [fold_left].
  - intros [H | [r Hin]]; [exact H | inversion Hin].
  - intros H. apply IH.
    destruct H as [H | [r Hin]].
    + left. destruct task as [[j r']|e]; cbn [tally_task]; [|exact H].
      assert (is_Some (<[j := r']> (t_job_results acc) !! jid)) as Hl.
      { apply lookup_insert_is_Some. destruct (decide (j = jid)); auto. }
      destruct (bool_decide _); exact Hl.
    + apply elem_of_cons in Hin as [<- | Hin]; [|right; eauto].
      left. cbn [tally_task].
      assert (is_Some (<[jid := r]> (t_job_results acc) !! jid)) as Hl
          by (rewrite lookup_insert_eq; eauto).
      destruct (bool_decide _); exact Hl.
Qed.

(** The batch on its normal path, with the tasks it gathered *)
Lemma batch_normal_path env request batch_id tr :
  1 <= max_concurrent_jobs request ->
  db_save_connects env SaveNormal = true ->
  let tasks := fst (gather env request (job_ids request)
                      (tr ++ [Progress "batch_started"])) in
  exists res tr',
    process_jobs_batch env request batch_id tr = Some (Return res, tr')
    /\ job_results res = t_job_results (tally tasks)
    /\ successful_jobs res = t_successful_jobs (tally tasks)
    /\ failed_jobs res = t_failed_jobs (tally tasks)
    /\ total_jobs res = Z.of_nat (length (job_ids request))
    /\ request_id res = batch_id
    /\ batch_overall_status res
       = if t_successful_jobs (tally tasks) =? Z.of_nat (length (job_ids request))
         then COMPLETED
         else if 0 <? t_successful_jobs (tally tasks) then COMPLETED else FAILED.
Proof.
  intros Hmax Hsave tasks. unfold process_jobs_batch.
  assert ((max_concurrent_jobs request <? 0) = false) as -> by (apply Z.ltb_ge; lia).
  assert ((max_concurrent_jobs request =? 0) = false) as -> by (apply Z.eqb_neq; lia).
  cbn [andb]. subst tasks.
  destruct (gather env request (job_ids request) (tr ++ [Progress "batch_started"]))
    as [tasks tr1]. cbn [fst].
  unfold _save_batch_result. rewrite Hsave.
  eexists _, _. split; [reflexivity|]. repeat split.
Qed.

(** X13. On the normal path of a batch, [job_results] holds results of
    submitted jobs only, each filed under its own job id; every submitted job
    has an entry, save the jobs whose row could not be read because the
    database connection failed, which have none. *)
Theorem job_results_are_the_submitted_jobs (env : Env)
    (request : BatchProcessingRequest) (batch_id : string) (tr : list Event) :
  1 <= max_concurrent_jobs request ->
  db_save_connects env SaveNormal = true ->
  exists res tr',
    process_jobs_batch env request batch_id tr = Some (Return res, tr')
    /\ (forall jid r, job_results res !! jid = Some r ->
        jid ∈ job_ids request /\ job_id r = jid)
    /\ (forall jid, jid ∈ job_ids request -> db_jobs env jid <> ConnectFails ->
        is_Some (job_results res !! jid))
    /\ (forall jid, db_jobs env jid = ConnectFails -> job_results res !! jid = None).
Proof.
  intros Hmax Hsave.
  destruct (batch_normal_path env request batch_id tr Hmax Hsave)
    as (res & tr' & Hrun & Hres & _).
  exists res, tr'. split; [exact Hrun|]. rewrite Hres. unfold tally.
  set (tasks := fst (gather _ _ _ _)).
  assert (forall jid r, Return (jid, r) ∈ tasks ->
            jid ∈ job_ids request
            /\ exists tr0 tr1, _process_single_job env request jid tr0 = (Return r, tr1))
    as Htask.
  { intros jid r Hin. apply gather_tasks in Hin as (j & tr0 & Hj & Heq).
    destruct (_process_single_job env request j tr0) as [[r0|e] tr1] eqn:E;
      cbn [fst] in Heq; [|discriminate].
    injection Heq as -> ->. split; [exact Hj | eauto]. }
  split; [|split].
  - intros jid r Hl. apply tally_results_from in Hl as [Hl | Hin].
    + cbn in Hl. rewrite lookup_empty in Hl. discriminate.
    + destruct (Htask _ _ Hin) as (Hj & tr0 & tr1 & Hjob).
      split; [exact Hj | exact (returned_job_id _ _ _ _ _ _ Hjob)].
  - intros jid Hin Hc. apply tally_results_keep. right.
    destruct (gather_runs_every_job env request (job_ids request)
                (tr ++ [Progress "batch_started"]) jid Hin) as [tr0 H0].
    destruct (job_returns_unless_connection_fails env request jid tr0 Hc)
      as (r & tr1 & Hjob).
    rewrite Hjob in H0. cbn [fst] in H0. eauto.
  - intros jid Hc.
    destruct (t_job_results _ !! jid) as [r|] eqn:Hl; [|reflexivity].
    apply tally_results_from in Hl as [Hl | Hin].
    + cbn in Hl. rewrite lookup_empty in Hl. discriminate.
    + destruct (Htask _ _ Hin) as (_ & tr0 & tr1 & Hjob).
      rewrite job_row_connect_fails in Hjob by exact Hc. discriminate.
Qed.

Lemma job_results_are_the_submitted_jobs_witness :
  exists res tr',
    process_jobs_batch env_sample (request_sample [1; 2; 3; 9]) "batch" []
    = Some (Return res, tr')
    /\ is_Some (job_results res !! 2)
    /\ job_results res !! 9 = None.
Proof.
  destruct (job_results_are_the_submitted_jobs env_sample (request_sample [1; 2; 3; 9])
              "batch" [] ltac:(cbn; lia) eq_refl) as (res & tr' & Hrun & _ & Hin & Hout).
  exists res, tr'. split; [exact Hrun|]. split.
  - apply Hin; [|discriminate]. cbn [job_ids request_sample]. right. left.
  - apply Hout. reflexivity.
Defined.

(** X14. On the normal path the batch is Completed as soon as one job is
    Completed, and also when no job was submitted; it is Failed exactly when
    jobs were submitted and none is Completed. *)
Theorem batch_status_follows_successes (env : Env) (request : BatchProcessingRequest)
    (batch_id : string) (tr : list Event) :
  1 <= max_concurrent_jobs request ->
  db_save_connects env SaveNormal = true ->
  exists res tr',
    process_jobs_batch env request batch_id tr = Some (Return res, tr')
    /\ (batch_overall_status res = COMPLETED \/ batch_overall_status res = FAILED)
    /\ (batch_overall_status res = COMPLETED <->
        0 < successful_jobs res \/ job_ids request = [])
    /\ (batch_overall_status res = FAILED <->
        successful_jobs res = 0 /\ job_ids request <> []).
Proof.
  intros Hmax Hsave.
  destruct (batch_normal_path env request batch_id tr Hmax Hsave)
    as (res & tr' & Hrun & _ & Hs & _ & _ & _ & Hst).
  exists res, tr'. split; [exact Hrun|]. rewrite Hst, Hs.
  destruct (tally_counts (fst (gather env request (job_ids request)
                                 (tr ++ [Progress "batch_started"])))
              {| t_successful_jobs := 0; t_failed_jobs := 0; t_job_results := ∅ |})
    as [Hcount _].
  unfold tally. rewrite Hcount. cbn [t_successful_jobs]. unfold count_tasks.
  set (n := Z.of_nat (length (List.filter _ _))).
  assert (0 <= n) as Hn by (subst n; lia).
  assert (job_ids request = [] <-> Z.of_nat (length (job_ids request)) = 0) as Hnil.
  { destruct (job_ids request); cbn; split; (congruence || lia). }
  destruct (0 + n =? _) eqn:E1; [apply Z.eqb_eq in E1|apply Z.eqb_neq in E1].
  - split; [auto|]. split.
    + split; [|reflexivity]. intros _.
      destruct (decide (0 < 0 + n)); [auto|]. right. apply Hnil. lia.
    + split; [discriminate|]. intros [H0 Hne]. exfalso. apply Hne, Hnil. lia.
  - destruct (0 <? 0 + n) eqn:E2; [apply Z.ltb_lt in E2|apply Z.ltb_ge in E2].
    + split; [auto|]. split; [tauto|]. split; [discriminate | intros [? _]; lia].
    + split; [auto|]. split.
      * split; [discriminate|]. intros [?|Hnl]; [lia|]. apply Hnil in Hnl. lia.
      * split; [|reflexivity]. intros _. split; [lia|]. intros Hnl. apply Hnil in Hnl. lia.
Qed.

Lemma batch_status_follows_successes_witness :
  exists res tr',
    process_jobs_batch env_sample (request_sample []) "batch" [] = Some (Return res, tr')
    /\ (batch_overall_status res = COMPLETED <->
        0 < successful_jobs res \/ job_ids (request_sample []) = []).
Proof.
  destruct (batch_status_follows_successes env_sample (request_sample []) "batch" []
              ltac:(cbn; lia) eq_refl) as (res & tr' & Hrun & _ & Hc & _).
  exists res, tr'. split; [exact Hrun | exact Hc].
Defined.

(** *** Batches that leave the normal path *)

(** X16. When the database connection for saving the batch result fails
    both times it is tried, [process_jobs_batch] raises after all the jobs
    were processed, and the caller gets no batch result. When only the first
    save fails, the batch is reported Failed with [failed_jobs] set to the
    number of jobs, the successes already counted and the job results kept. *)
Theorem unsaved_batch_result (env : Env) (request : BatchProcessingRequest)
    (batch_id : string) (tr : list Event) :
  1 <= max_concurrent_jobs request ->
  db_save_connects env SaveNormal = false ->
  let tasks := fst (gather env request (job_ids request)
                      (tr ++ [Progress "batch_started"])) in
  exists tr',
    process_jobs_batch env request batch_id tr
    = Some (if db_save_connects env SaveAfterCriticalError
            then Return {| request_id := batch_id;
                           total_jobs := Z.of_nat (length (job_ids request));
                           successful_jobs := t_successful_jobs (tally tasks);
                           failed_jobs := Z.of_nat (length (job_ids request));
                           job_results := t_job_results (tally tasks);
                           batch_overall_status := FAILED |}
            else Raise (UnboundLocalError "conn"), tr').
Proof.
  intros Hmax Hsave tasks. unfold process_jobs_batch.
  assert ((max_concurrent_jobs request <? 0) = false) as -> by (apply Z.ltb_ge; lia).
  assert ((max_concurrent_jobs request =? 0) = false) as -> by (apply Z.eqb_neq; lia).
  cbn [andb]. subst tasks.
  destruct (gather env request (job_ids request) (tr ++ [Progress "batch_started"]))
    as [tasks tr1]. cbn [fst].
  unfold _save_batch_result at 1. rewrite Hsave.
  unfold critical_error, _save_batch_result, mbind, M_bind, modify, mret, M_ret.
  destruct (db_save_connects env SaveAfterCriticalError); eexists; reflexivity.
Qed.

Lemma unsaved_batch_result_witness :
  exists res tr',
    process_jobs_batch env_save_fails_once (request_sample [1; 2; 3]) "batch" []
    = Some (Return res, tr')
    /\ failed_jobs res = 3 /\ batch_overall_status res = FAILED.
Proof.
  destruct (unsaved_batch_result env_save_fails_once (request_sample [1; 2; 3]) "batch" []
              ltac:(cbn; lia) eq_refl) as [tr' Hrun].
  cbn [db_save_connects env_save_fails_once] in Hrun.
  eexists _, tr'. split; [exact Hrun|]. split; reflexivity.
Defined.

(** *** Results found in the database *)

(** X17. When the database holds a filter decision for the job, the Filter
    stage takes it over and completes without loading criteria and without
    calling the filter; the only access is the lookup of the stored
    decision. *)
Theorem stored_filter_decision_is_reused (env : Env) (job_data : JobData)
    (criteria : option FilterCriteria) (s : PState) (stored : string) :
  db_filter_results env (job_id (jr s)) = Row stored ->
  stored <> ""%string ->
  _execute_filtering_step env job_data criteria s =
    (Return tt,
     {| jr := set_filter_result (Some stored)
                (set_steps (<["filtering" := {| name := "filtering"; status := COMPLETED;
                                                error_message := None |}]>
                              (steps (jr s))) (jr s));
        trace := trace s ++ [DbLoadFilterResult (job_id (jr s))] |}).
Proof.
  intros Hrow Hne.
  unfold _execute_filtering_step. rewrite stage_outcome. run_m. simpl_result.
  rewrite Hrow. cbn [guarded_select truthy].
  assert (String.eqb stored "" = false) as -> by (apply String.eqb_neq; exact Hne).
  cbn [negb]. tidy_state. reflexivity.
Qed.

Lemma stored_filter_decision_is_reused_witness :
  filter_result
    (jr (snd (_execute_filtering_step env_sample (row_sample 1) None (started 1 (row_sample 1) []))))
  = Some "reject"%string.
Proof.
  rewrite (stored_filter_decision_is_reused env_sample (row_sample 1) None
             (started 1 (row_sample 1) []) "reject" eq_refl ltac:(discriminate)).
  reflexivity.
Defined.

(** X18. When a customization of the résumé already exists for the job, the
    résumé stage takes it over and completes without calling the customizer. *)
Theorem stored_customization_is_reused (env : Env) (job_data : JobData)
    (s : PState) (existing : CustomizationResult) :
  get_customization_for_job env (job_id (jr s)) = Return (Some existing) ->
  _execute_resume_customization_step env job_data s =
    (Return tt,
     {| jr := set_customization_result (Some existing)
                (set_steps (<["resume_customization" :=
                               {| name := "resume_customization"; status := COMPLETED;
                                  error_message := None |}]> (steps (jr s))) (jr s));
        trace := trace s ++ [CallGetCustomization (job_id (jr s))] |}).
Proof.
  intros Hex.
  unfold _execute_resume_customization_step. rewrite stage_outcome. run_m. simpl_result.
  rewrite Hex. tidy_state. reflexivity.
Qed.

Lemma stored_customization_is_reused_witness :
  customization_result
    (jr (snd (_execute_resume_customization_step env_stored_resume (row_sample 3)
                (started 3 (row_sample 3) []))))
  = Some {| customized_resume := "stored resume" |}.
Proof.
  rewrite (stored_customization_is_reused env_stored_resume (row_sample 3)
             (started 3 (row_sample 3) []) {| customized_resume := "stored resume" |}
             eq_refl).
  reflexivity.
Defined.

(** *** The e-mails of a job *)

Lemma generate_emails_bounded env job_data template_name top_contacts : forall s,
  exists o emails called,
    generate_emails env job_data template_name top_contacts s =
      (o, {| jr := set_email_results (email_results (jr s) ++ emails) (jr s);
             trace := trace s ++ ((fun c => CallGenerateEmail
                                     (email_request_for (jr s) job_data template_name c))
                                  <$> called) |})
    /\ called `prefix_of` top_contacts
    /\ (length emails <= length called)%nat.
Proof.
  induction top_contacts as [|c rest IH]; intros s.
  - exists (Return tt), [], []. cbn. rewrite !app_nil_r.
    split; [destruct s as [[] ?]; reflexivity|]. split; [reflexivity | lia].
  - cbn [generate_emails]. run_m. fold (email_request_for (jr s) job_data template_name c).
    destruct (generate_email env _) as [[email|]|e]; cbn [jr trace].
    + destruct (IH {| jr := set_email_results (email_results (jr s) ++ [email]) (jr s);
                      trace := trace s ++ [CallGenerateEmail
                                 (email_request_for (jr s) job_data template_name c)] |})
        as (o & emails & called & Heq & Hpre & Hlen).
      rewrite Heq. exists o, (email :: emails), (c :: called).
      simpl_result. rewrite <- !app_assoc. cbn [fmap list_fmap app length].
      split; [reflexivity|]. split; [apply prefix_cons; exact Hpre | lia].
    + destruct (IH {| jr := jr s;
                      trace := trace s ++ [CallGenerateEmail
                                 (email_request_for (jr s) job_data template_name c)] |})
        as (o & emails & called & Heq & Hpre & Hlen).
      rewrite Heq. exists o, emails, (c :: called).
      simpl_result. rewrite <- !app_assoc. cbn [fmap list_fmap app length].
      split; [reflexivity|]. split; [apply prefix_cons; exact Hpre | lia].
    + exists (Raise e), [], [c]. simpl_result. rewrite app_nil_r. cbn [fmap list_fmap length].
      split; [destruct s as [[] ?]; reflexivity|].
      split; [apply prefix_cons, prefix_nil | lia].
Qed.

(** X19. The e-mail stage never raises and calls the generator for the first
    three contacts at most, in the order of the contact list, each time with
    the customization the job has (present or not); it adds at most one e-mail
    per call and changes nothing of the job but [email_results] and its own
    step. Without contacts it calls nothing. *)
Theorem email_stage_calls_at_most_three (env : Env) (job_data : JobData)
    (template_name : string) (s : PState) :
  exists st emails called,
    _execute_email_generation_step env job_data template_name s =
      (Return tt,
       {| jr := set_email_results (email_results (jr s) ++ emails)
                  (set_steps (<["email_generation" := st]> (steps (jr s))) (jr s));
          trace := trace s ++ ((fun c => CallGenerateEmail
                                  (email_request_for (jr s) job_data template_name c))
                               <$> called) |})
    /\ (length called <= 3)%nat
    /\ (length emails <= length called)%nat
    /\ called `prefix_of` match contact_result (jr s) with
                          | Some found => contacts found
                          | None => []
                          end.
Proof.
  assert (forall st,
            {| jr := set_steps (<["email_generation" := st]> (steps (jr s))) (jr s);
               trace := trace s |}
            = {| jr := set_email_results (email_results (jr s) ++ [])
                         (set_steps (<["email_generation" := st]> (steps (jr s))) (jr s));
                 trace := trace s ++ ((fun c => CallGenerateEmail
                                         (email_request_for (jr s) job_data template_name c))
                                      <$> []) |}) as Hsame.
  { intros st. cbn [fmap list_fmap]. rewrite !app_nil_r.
    destruct s as [[] ?]; reflexivity. }
  destruct (contact_result (jr s)) as [found|] eqn:Hfound.
  2:{ rewrite email_step_no_contacts by (left; exact Hfound).
      eexists _, [], []. split; [rewrite <- Hsame; reflexivity|]. cbn. split; [lia|]. split; [lia | reflexivity]. }
  destruct (contacts found) as [|c rest] eqn:Hcontacts.
  { rewrite email_step_no_contacts by (right; eauto).
    eexists _, [], []. split; [rewrite <- Hsame; reflexivity|]. cbn. split; [lia|]. split; [lia | reflexivity]. }
  unfold _execute_email_generation_step. rewrite stage_outcome. run_m.
  simpl_result. rewrite Hfound, Hcontacts.
  match goal with
  | |- context [generate_emails _ _ _ _ ?s0] =>
      destruct (generate_emails_bounded env job_data template_name (take 3 (c :: rest)) s0)
        as (o & emails & called & Heq & Hpre & Hlen); rewrite Heq
  end.
  assert (length called <= 3)%nat as Hthree.
  { apply prefix_length in Hpre. rewrite length_take in Hpre. lia. }
  assert (called `prefix_of` c :: rest) as Hpre'.
  { etransitivity; [exact Hpre|]. apply prefix_take. }
  destruct o as [[]|e]; cbv beta iota; cbn [jr trace].
  - simpl_result.
    destruct (email_results (jr s) ++ emails) eqn:Hemails; tidy_state.
    + eexists _, emails, called. rewrite Hemails. split; [reflexivity | tauto].
    + eexists _, emails, called. rewrite Hemails. split; [reflexivity | tauto].
  - tidy_state. eexists _, emails, called. split; [reflexivity | tauto].
Qed.

(** *** Saving a batch result and reading it back *)

Lemma status_round_trip v : status_of_value (status_value v) = Return v.
Proof. destruct v; reflexivity. Qed.

Lemma rebuild_jobs_of_summaries (results : list (Z * JobProcessingResult)) :
  forall acc : gmap Z JobProcessingResult,
  rebuild_jobs acc (prod_map id job_summary <$> results)
  = Return (fold_left (fun acc kr => <[kr.1 := summary_only kr.2]> acc) results acc).
Proof.
  induction results as [|[jid r] rest IH]; intros acc; [reflexivity|].
  cbn [fmap list_fmap prod_map rebuild_jobs id fst snd].
  cbn [job_summary js_overall_status]. rewrite status_round_trip.
  rewrite IH. reflexivity.
Qed.

Lemma fold_insert_lookup (results : list (Z * JobProcessingResult)) :
  NoDup results.*1 -> forall (acc : gmap Z JobProcessingResult) jid,
  fold_left (fun acc kr => <[kr.1 := summary_only kr.2]> acc) results acc !! jid
  = match (list_to_map results : gmap Z JobProcessingResult) !! jid with
    | Some r => Some (summary_only r)
    | None => acc !! jid
    end.
Proof.
  induction results as [|[k r] rest IH]; intros Hnd acc jid.
  - cbn. rewrite lookup_empty. reflexivity.
  - cbn [fmap list_fmap fst] in Hnd. apply NoDup_cons in Hnd as [Hk Hnd].
    cbn [fold_left fst snd list_to_map foldr uncurry]. rewrite (IH Hnd).
    destruct (decide (k = jid)) as [<-|Hne].
    + rewrite (not_elem_of_list_to_map_1 _ _ Hk), !lookup_insert_eq. reflexivity.
    + rewrite !lookup_insert_ne by exact Hne. reflexivity.
Qed.

(** X21. A batch result saved with [INSERT OR REPLACE] and read back with
    [get_batch_result] under its request id comes back with the same counts,
    the same overall status and, for every job, the same job id, title,
    company and overall status; the steps and the artifacts of the jobs do
    not come back. Rows saved under other request ids are untouched, and an
    unknown request id gives [None]. *)
Theorem saved_batch_result_reloads (b : BatchProcessingResult)
    (table : gmap string BatchRow) :
  get_batch_result
    (select_batch_row (insert_or_replace (batch_row_of b) table) (request_id b))
  = Return (Some {| request_id := request_id b;
                    total_jobs := total_jobs b;
                    successful_jobs := successful_jobs b;
                    failed_jobs := failed_jobs b;
                    job_results := summary_only <$> job_results b;
                    batch_overall_status := batch_overall_status b |})
  /\ (forall other, other <> request_id b ->
      select_batch_row (insert_or_replace (batch_row_of b) table) other
      = select_batch_row table other)
  /\ (forall unknown, table !! unknown = None ->
      get_batch_result (select_batch_row table unknown) = Return None).
Proof.
  unfold select_batch_row, insert_or_replace, batch_row_of. cbn [row_request_id].
  split; [|split].
  - rewrite lookup_insert_eq. unfold get_batch_result.
    cbn [row_result_data row_overall_status row_request_id row_total_jobs
         row_successful_jobs row_failed_jobs].
    rewrite rebuild_jobs_of_summaries, status_round_trip.
    do 3 f_equal. apply map_eq. intros jid.
    rewrite fold_insert_lookup by apply NoDup_fst_map_to_list.
    rewrite list_to_map_to_list, lookup_fmap, lookup_empty.
    destruct (job_results b !! jid); reflexivity.
  - intros other Hne. rewrite lookup_insert_ne by congruence. reflexivity.
  - intros unknown ->. reflexivity.
Qed.

(** The status values are read back as written, and any other string is
    refused. *)
Example unknown_status_value :
  status_of_value "done" = Raise (ValueError "'done' is not a valid ProcessingStatus").
Proof. reflexivity. Qed.

End WorkflowMore.
